(** * Ledger and stock core of the invoicing backend ([app.py])

    A shallow embedding of the running-balance ledger and of the FIFO stock
    allocator.  The relational store is a record of tables, each table a list
    of rows in rowid order; every endpoint is a function from the committed
    store to a response and the next committed store.  The statements of an
    endpoint run in a small state-and-exception monad ([sql]) on a working
    copy; the endpoint keeps the working copy where the handler commits and
    the store it started from where it rolls back.

    Numbers.  The columns declared [REAL] hold binary floating point numbers
    in the program.  They are embedded as exact rationals ([Q]): sums are
    exact and [round2] rounds the exact value half-to-even at two decimals.
    The properties below are about the bookkeeping, not about rounding error
    of the machine representation.

    Text.  Dates and invoice numbers are [TEXT]; they compare bytewise, and
    [cast_integer] is the engine's [CAST(... AS INTEGER)].

    Queries.  [ORDER BY] is a stable sort of the rows in table order (the
    engine fixes no order among rows with equal keys; the properties only use
    that the result is sorted and holds the same rows).

    Left out of [handle] and of the request histories: the endpoints that
    only read, the opening-balance adjustment endpoint (its table is no part
    of the ledger, and it reads the wall clock) and the next-invoice-number
    field of the creation response.  Those of them that are embedded are
    defined on their own, after the quantities of the ledger and of the
    stock.  Left out altogether: the ledger timeline and the filtered
    listings, and the wording of the insufficient-stock message, kept as
    (product, available, required) records. *)

From Stdlib Require Import List String Ascii ZArith QArith Qround Bool Lia.
From Stdlib Require Import Permutation Sorted Lqa.
Import ListNotations.

Local Open Scope Z_scope.

(** ** Numbers *)

(** Nearest integer, ties to the even neighbour. *)
Definition round_half_even (q : Q) : Z :=
  let f := Qfloor q in
  match Qcompare (q - inject_Z f) (1 # 2) with
  | Lt => f
  | Gt => f + 1
  | Eq => if Z.even f then f else f + 1
  end.

(** [round(x, 2)] *)
Definition round2 (q : Q) : Q :=
  Qred (round_half_even (q * inject_Z 100) # 100).

(** SQL [SUM(col)]: [NULL] over no rows, the sum otherwise. *)
Definition sql_sum (l : list Q) : option Q :=
  match l with
  | [] => None
  | _ => Some (fold_left Qplus l 0%Q)
  end.

(** [row[0] if row and row[0] is not None else 0.0] *)
Definition or_zero (o : option Q) : Q :=
  match o with
  | Some x => x
  | None => 0%Q
  end.

(** ** Text values *)

(** Text compares bytewise ([BINARY] collation). *)
Definition text_ltb (a b : string) : bool :=
  match String.compare a b with Lt => true | _ => false end.

Definition text_gtb (a b : string) : bool := text_ltb b a.

Definition text_leb (a b : string) : bool :=
  match String.compare a b with Gt => false | _ => true end.

Definition is_space (c : ascii) : bool :=
  let n := N_of_ascii c in
  (N.eqb n 32 || (N.leb 9 n && N.leb n 13))%bool.

Fixpoint skip_spaces (s : string) : string :=
  match s with
  | String c s' => if is_space c then skip_spaces s' else s
  | EmptyString => s
  end.

Definition digit_of (c : ascii) : option Z :=
  let n := Z.of_N (N_of_ascii c) in
  if (48 <=? n) && (n <=? 57) then Some (n - 48) else None.

Fixpoint digits_prefix (acc : Z) (s : string) : Z :=
  match s with
  | String c s' =>
      match digit_of c with
      | Some k => digits_prefix (10 * acc + k) s'
      | None => acc
      end
  | EmptyString => acc
  end.

(** [CAST(text AS INTEGER)]: leading blanks are skipped, the longest prefix
    that reads as a signed integer is taken, [0] when there is none, and the
    value saturates at the 64-bit bounds. *)
Definition cast_integer (s : string) : Z :=
  let s1 := skip_spaces s in
  let v :=
    match s1 with
    | String "-"%char s2 => - digits_prefix 0 s2
    | String "+"%char s2 => digits_prefix 0 s2
    | _ => digits_prefix 0 s1
    end in
  Z.max (- 2 ^ 63) (Z.min (2 ^ 63 - 1) v).

(** ** Tables *)

Module Party.
Record t := mk {
  id : Z;
  name : string;
  initial_opening_balance : option Q
}.
End Party.

Module Invoice.
Record t := mk {
  id : Z;
  invoice_number : string;
  party_name : string;
  date : string;
  total_amount : Q;
  previous_balance : Q;
  grand_total : Q
}.

Definition set_balances (pb gt : Q) (r : t) : t :=
  mk (id r) (invoice_number r) (party_name r) (date r) (total_amount r) pb gt.

Definition set_details (p d : string) (ta gt : Q) (r : t) : t :=
  mk (id r) (invoice_number r) p d ta (previous_balance r) gt.
End Invoice.

Module InvoiceItem.
Record t := mk {
  id : Z;
  invoice_id : Z;
  product_name : string;
  qty : Q;
  packing : string;
  unit_price : Q;
  amount : Q
}.
End InvoiceItem.

Module Payment.
Record t := mk {
  id : Z;
  party_name : string;
  amount : Q;
  date : string;
  remarks : string
}.
End Payment.

Module Stock.
Record t := mk {
  id : Z;
  product_name : string;
  batch_no : string;
  date : string;
  quantity : Q
}.

Definition set_quantity (q : Q) (r : t) : t :=
  mk (id r) (product_name r) (batch_no r) (date r) q.
End Stock.

(** [AUTOINCREMENT]: the largest rowid ever handed out, per table. *)
Record sequence := mk_sequence {
  seq_parties : Z;
  seq_invoices : Z;
  seq_invoice_items : Z;
  seq_payments : Z;
  seq_stock : Z
}.

Record db := mk_db {
  parties : list Party.t;
  invoices : list Invoice.t;
  invoice_items : list InvoiceItem.t;
  payments : list Payment.t;
  stock : list Stock.t;
  sqlite_sequence : sequence
}.

Definition empty_db : db :=
  mk_db [] [] [] [] [] (mk_sequence 0 0 0 0 0).

(** ** Statements run on a connection

    A statement reads or writes the working copy of the store, or raises.
    The working copy becomes the committed store at [commit]; when a handler
    rolls back, the committed store it started from is kept. *)

Inductive sql_error :=
| IntegrityError (msg : string).

Inductive outcome (A : Type) :=
| Done (a : A) (d : db)
| Raised (e : sql_error).
Arguments Done {A} a d.
Arguments Raised {A} e.

Definition sql (A : Type) : Type := db -> outcome A.

Definition ret {A} (a : A) : sql A := fun d => Done a d.

Definition bind {A B} (m : sql A) (k : A -> sql B) : sql B :=
  fun d =>
    match m d with
    | Done a d' => k a d'
    | Raised e => Raised e
    end.

Definition raise {A} (e : sql_error) : sql A := fun _ => Raised e.

Definition query {A} (f : db -> A) : sql A := fun d => Done (f d) d.

Definition modify (f : db -> db) : sql unit := fun d => Done tt (f d).

Declare Scope sql_scope.
Delimit Scope sql_scope with sql.
Notation "x <- m ;; k" := (bind m (fun x => k))
  (at level 100, m at next level, right associativity) : sql_scope.
Notation "m ;;; k" := (bind m (fun _ => k))
  (at level 100, right associativity) : sql_scope.

Local Open Scope sql_scope.

(** [for x in xs: body(x)] *)
Fixpoint for_each {A} (xs : list A) (body : A -> sql unit) : sql unit :=
  match xs with
  | [] => ret tt
  | x :: xs' => body x ;;; for_each xs' body
  end.

(** [ORDER BY]: rows come back sorted by the key; rows with equal keys stay in
    table order. *)
Fixpoint insert_by {A} (leb : A -> A -> bool) (x : A) (l : list A) : list A :=
  match l with
  | [] => [x]
  | y :: l' => if leb x y then x :: y :: l' else y :: insert_by leb x l'
  end.

Fixpoint order_by {A} (leb : A -> A -> bool) (l : list A) : list A :=
  match l with
  | [] => []
  | x :: l' => insert_by leb x (order_by leb l')
  end.

(** *** parties *)

Definition select_party (party_name : string) : sql (option Party.t) :=
  query (fun d => find (fun p => String.eqb (Party.name p) party_name) (parties d)).

(** [INSERT INTO parties (name, initial_opening_balance) VALUES (?, ?)];
    [name] is [UNIQUE]. *)
Definition insert_party (party_name : string) (balance : Q) : sql Z :=
  fun d =>
    if existsb (fun p => String.eqb (Party.name p) party_name) (parties d)
    then Raised (IntegrityError "UNIQUE constraint failed: parties.name")
    else
      let s := sqlite_sequence d in
      let rowid := seq_parties s + 1 in
      Done rowid
        (mk_db (parties d ++ [Party.mk rowid party_name (Some balance)])
               (invoices d) (invoice_items d) (payments d) (stock d)
               (mk_sequence rowid (seq_invoices s) (seq_invoice_items s)
                            (seq_payments s) (seq_stock s))).

(** *** invoices *)

Definition set_invoices (l : list Invoice.t) (d : db) : db :=
  mk_db (parties d) l (invoice_items d) (payments d) (stock d) (sqlite_sequence d).

Definition select_invoice (invoice_number : string) : sql (option Invoice.t) :=
  query (fun d =>
    find (fun i => String.eqb (Invoice.invoice_number i) invoice_number) (invoices d)).

Definition select_invoice_by_id (rowid : Z) : sql (option Invoice.t) :=
  query (fun d => find (fun i => Invoice.id i =? rowid) (invoices d)).

(** [INSERT INTO invoices (...) VALUES (...)]; [invoice_number] is [UNIQUE]
    over the whole table. *)
Definition insert_invoice (invoice_number party_name date : string)
    (total_amount previous_balance grand_total : Q) : sql Z :=
  fun d =>
    if existsb (fun i => String.eqb (Invoice.invoice_number i) invoice_number)
               (invoices d)
    then Raised (IntegrityError "UNIQUE constraint failed: invoices.invoice_number")
    else
      let s := sqlite_sequence d in
      let rowid := seq_invoices s + 1 in
      Done rowid
        (mk_db (parties d)
               (invoices d ++ [Invoice.mk rowid invoice_number party_name date
                                          total_amount previous_balance grand_total])
               (invoice_items d) (payments d) (stock d)
               (mk_sequence (seq_parties s) rowid (seq_invoice_items s)
                            (seq_payments s) (seq_stock s))).

(** [UPDATE invoices SET previous_balance = ?, grand_total = ? WHERE id = ?] *)
Definition update_invoice_balances (pb gt : Q) (rowid : Z) : sql unit :=
  modify (fun d =>
    set_invoices
      (map (fun i => if Invoice.id i =? rowid then Invoice.set_balances pb gt i else i)
           (invoices d)) d).

(** [UPDATE invoices SET party_name = ?, date = ?, total_amount = ?,
    grand_total = ? WHERE id = ?] *)
Definition update_invoice_details (p dt : string) (ta gt : Q) (rowid : Z) : sql unit :=
  modify (fun d =>
    set_invoices
      (map (fun i => if Invoice.id i =? rowid then Invoice.set_details p dt ta gt i else i)
           (invoices d)) d).

(** [DELETE FROM invoices WHERE id = ?] *)
Definition delete_invoice_row (rowid : Z) : sql unit :=
  modify (fun d =>
    set_invoices (filter (fun i => negb (Invoice.id i =? rowid)) (invoices d)) d).


(** *** invoice_items *)

Definition set_invoice_items (l : list InvoiceItem.t) (d : db) : db :=
  mk_db (parties d) (invoices d) l (payments d) (stock d) (sqlite_sequence d).

(** [INSERT INTO invoice_items (...) VALUES (...)] *)
Definition insert_invoice_item (invoice_id : Z) (product_name : string) (qty : Q)
    (packing : string) (unit_price amount : Q) : sql unit :=
  modify (fun d =>
    let s := sqlite_sequence d in
    let rowid := seq_invoice_items s + 1 in
    mk_db (parties d) (invoices d)
          (invoice_items d ++
             [InvoiceItem.mk rowid invoice_id product_name qty packing unit_price amount])
          (payments d) (stock d)
          (mk_sequence (seq_parties s) (seq_invoices s) rowid
                       (seq_payments s) (seq_stock s))).

(** [DELETE FROM invoice_items WHERE invoice_id = ?] *)
Definition delete_invoice_items (invoice_id : Z) : sql unit :=
  modify (fun d =>
    set_invoice_items
      (filter (fun it => negb (InvoiceItem.invoice_id it =? invoice_id))
              (invoice_items d)) d).

(** *** payments *)

Definition set_payments (l : list Payment.t) (d : db) : db :=
  mk_db (parties d) (invoices d) (invoice_items d) l (stock d) (sqlite_sequence d).

Definition select_payment (payment_id : Z) : sql (option Payment.t) :=
  query (fun d => find (fun p => Payment.id p =? payment_id) (payments d)).

(** [INSERT INTO payments (party_name, amount, date, remarks) VALUES (...)] *)
Definition insert_payment (party_name : string) (amount : Q) (date remarks : string)
    : sql Z :=
  fun d =>
    let s := sqlite_sequence d in
    let rowid := seq_payments s + 1 in
    Done rowid
      (mk_db (parties d) (invoices d) (invoice_items d)
             (payments d ++ [Payment.mk rowid party_name amount date remarks])
             (stock d)
             (mk_sequence (seq_parties s) (seq_invoices s) (seq_invoice_items s)
                          rowid (seq_stock s))).

(** [DELETE FROM payments WHERE id = ?] *)
Definition delete_payment_row (payment_id : Z) : sql unit :=
  modify (fun d =>
    set_payments (filter (fun p => negb (Payment.id p =? payment_id)) (payments d)) d).

(** *** stock *)

Definition set_stock (l : list Stock.t) (d : db) : db :=
  mk_db (parties d) (invoices d) (invoice_items d) (payments d) l (sqlite_sequence d).

(** [INSERT INTO stock (product_name, batch_no, date, quantity) VALUES (...)] *)
Definition insert_stock (product_name batch_no date : string) (quantity : Q)
    : sql unit :=
  modify (fun d =>
    let s := sqlite_sequence d in
    let rowid := seq_stock s + 1 in
    mk_db (parties d) (invoices d) (invoice_items d) (payments d)
          (stock d ++ [Stock.mk rowid product_name batch_no date quantity])
          (mk_sequence (seq_parties s) (seq_invoices s) (seq_invoice_items s)
                       (seq_payments s) rowid)).

(** [UPDATE stock SET quantity = ? WHERE id = ?] *)
Definition update_stock_quantity (new_quantity : Q) (rowid : Z) : sql unit :=
  modify (fun d =>
    set_stock
      (map (fun b => if Stock.id b =? rowid then Stock.set_quantity new_quantity b else b)
           (stock d)) d).

(** ** Ledger helpers *)

Definition party_invoices (party_name : string) (d : db) : list Invoice.t :=
  filter (fun i => String.eqb (Invoice.party_name i) party_name) (invoices d).

Definition party_payments (party_name : string) (d : db) : list Payment.t :=
  filter (fun p => String.eqb (Payment.party_name p) party_name) (payments d).

(** [party_row['initial_opening_balance'] if party_row and
    party_row['initial_opening_balance'] is not None else 0.0] *)
Definition opening_of (party_row : option Party.t) : Q :=
  match party_row with
  | Some p => or_zero (Party.initial_opening_balance p)
  | None => 0%Q
  end.

Definition calculate_current_party_balance (party_name : string) : sql Q :=
  party_row <- select_party party_name ;;
  let initial_balance := opening_of party_row in
  total_invoices_row <-
    query (fun d => sql_sum (map Invoice.total_amount (party_invoices party_name d))) ;;
  let total_invoices := or_zero total_invoices_row in
  total_payments_row <-
    query (fun d => sql_sum (map Payment.amount (party_payments party_name d))) ;;
  let total_payments := or_zero total_payments_row in
  let current_balance := round2 (initial_balance + total_invoices - total_payments) in
  ret current_balance.

(** [date > ? OR (date = ? AND CAST(invoice_number AS INTEGER) > CAST(? AS INTEGER))] *)
Definition after_cutoff (starting_date starting_invoice_number : string)
    (i : Invoice.t) : bool :=
  text_gtb (Invoice.date i) starting_date
  || (String.eqb (Invoice.date i) starting_date
      && (cast_integer starting_invoice_number <? cast_integer (Invoice.invoice_number i))).

(** [date < ? OR (date = ? AND CAST(invoice_number AS INTEGER) < CAST(? AS INTEGER))] *)
Definition before_cutoff (starting_date starting_invoice_number : string)
    (i : Invoice.t) : bool :=
  text_ltb (Invoice.date i) starting_date
  || (String.eqb (Invoice.date i) starting_date
      && (cast_integer (Invoice.invoice_number i) <? cast_integer starting_invoice_number)).

(** [ORDER BY date ASC, CAST(invoice_number AS INTEGER) ASC] *)
Definition chronological_leb (a b : Invoice.t) : bool :=
  match String.compare (Invoice.date a) (Invoice.date b) with
  | Lt => true
  | Gt => false
  | Eq => cast_integer (Invoice.invoice_number a) <=? cast_integer (Invoice.invoice_number b)
  end.

(** The loop over [subsequent_invoices]. *)
Fixpoint restamp (subsequent_invoices : list Invoice.t) (current_previous_balance : Q)
    : sql unit :=
  match subsequent_invoices with
  | [] => ret tt
  | invoice :: rest =>
      let new_previous_balance := current_previous_balance in
      let new_grand_total := (new_previous_balance + Invoice.total_amount invoice)%Q in
      update_invoice_balances new_previous_balance new_grand_total (Invoice.id invoice) ;;;
      restamp rest new_grand_total
  end.

Definition update_subsequent_invoice_balances
    (party_name starting_date starting_invoice_number : string) : sql unit :=
  subsequent_invoices <-
    query (fun d =>
      order_by chronological_leb
        (filter (after_cutoff starting_date starting_invoice_number)
                (party_invoices party_name d))) ;;
  party_row <- select_party party_name ;;
  let initial_balance := opening_of party_row in
  invoices_before_row <-
    query (fun d =>
      sql_sum (map Invoice.total_amount
                 (filter (before_cutoff starting_date starting_invoice_number)
                         (party_invoices party_name d)))) ;;
  let total_invoices_before := or_zero invoices_before_row in
  payments_before_row <-
    query (fun d =>
      sql_sum (map Payment.amount
                 (filter (fun p => text_leb (Payment.date p) starting_date)
                         (party_payments party_name d)))) ;;
  let total_payments_before := or_zero payments_before_row in
  let current_previous_balance :=
    (initial_balance + total_invoices_before - total_payments_before)%Q in
  restamp subsequent_invoices current_previous_balance.

(** ** Endpoints *)

Module Item.
Record t := mk {
  productName : string;
  qty : Q;
  packing : string;
  unitPrice : Q;
  amount : Q
}.
End Item.

Module StockItem.
Record t := mk {
  productName : string;
  batchNo : string;
  date : string;
  quantity : Q
}.
End StockItem.

Module Deduction.
Record t := mk {
  productName : string;
  qty : Q
}.
End Deduction.

(** One entry of the insufficient-stock report: the product, the quantity
    found available and the quantity required. *)
Record shortage := mk_shortage {
  short_product : string;
  short_available : Q;
  short_required : Q
}.

Inductive response :=
| PartyBalance (balance initialOpeningBalance : Q)
| InvoiceCreated (invoiceNumber : string) (previousBalanceForNextInvoice : Q)
| InvoiceUpdated (previousBalanceForNextInvoice : option Q) (partyName : string)
| InvoiceDeleted (partyName : string) (currentPartyBalance : Q)
| PaymentRecorded (paymentId : Z) (currentPartyBalance : Q)
| PaymentDeleted (partyName : string) (currentPartyBalance : Q)
| StockAdded (processed_count : nat)
| StockDeducted
| BadRequest (error : string)
| NotEnoughStock (errors : list shortage)
| NotFound (error : string)
| InvoiceNumberExists (invoice_number : string)
| IntegrityConflict (error : string)
| ServerError.

Definition status_code (r : response) : Z :=
  match r with
  | PartyBalance _ _ | InvoiceUpdated _ _ | InvoiceDeleted _ _
  | PaymentDeleted _ _ | StockDeducted => 200
  | InvoiceCreated _ _ | PaymentRecorded _ _ | StockAdded _ => 201
  | BadRequest _ | NotEnoughStock _ => 400
  | NotFound _ => 404
  | InvoiceNumberExists _ | IntegrityConflict _ => 409
  | ServerError => 500
  end.

(** [not s] on text *)
Definition blank (s : string) : bool :=
  match s with EmptyString => true | _ => false end.

(** [needle in hay] *)
Fixpoint contains (needle hay : string) : bool :=
  String.prefix needle hay
  || match hay with
     | String _ hay' => contains needle hay'
     | EmptyString => false
     end.

Definition Qltb (x y : Q) : bool := negb (Qle_bool y x).

(** [round(sum(float(item.get('amount', 0)) for item in items), 2)] *)
Definition items_total (items : list Item.t) : Q :=
  round2 (fold_left Qplus (map Item.amount items) 0%Q).

Definition ensure_party (party_name : string) : sql unit :=
  party_row <- select_party party_name ;;
  match party_row with
  | Some _ => ret tt
  | None => _ <- insert_party party_name 0%Q ;; ret tt
  end.

Definition insert_items (invoice_id : Z) (items : list Item.t) : sql unit :=
  for_each items (fun item =>
    insert_invoice_item invoice_id (Item.productName item) (Item.qty item)
      (Item.packing item) (Item.unitPrice item) (Item.amount item)).

(** [GET /api/party-balance] *)
Definition get_party_balance_for_invoice (party_name : string) (d : db)
    : response * db :=
  if blank party_name then (BadRequest "Party name is required", d)
  else
    let work :=
      party_row <- select_party party_name ;;
      let initial_balance := opening_of party_row in
      previous_balance_for_new_invoice <- calculate_current_party_balance party_name ;;
      ret (PartyBalance previous_balance_for_new_invoice initial_balance) in
    match work d with
    | Done r _ => (r, d)
    | Raised _ => (ServerError, d)
    end.

(** The statements of [create_invoice_api] up to [conn.commit()]. *)
Definition create_invoice_work (party_name invoice_date invoice_number : string)
    (items : list Item.t) : sql Q :=
  ensure_party party_name ;;;
  let total_amount := items_total items in
  previous_balance <- calculate_current_party_balance party_name ;;
  let grand_total := (previous_balance + total_amount)%Q in
  invoice_id <-
    insert_invoice invoice_number party_name invoice_date
                   total_amount previous_balance grand_total ;;
  insert_items invoice_id items ;;;
  ret grand_total.

(** [POST /api/invoices] *)
Definition create_invoice_api (party_name invoice_date invoice_number : string)
    (items : list Item.t) (d : db) : response * db :=
  if blank party_name || blank invoice_date || blank invoice_number
  then (BadRequest "Missing required invoice data (partyName, date, invoiceNumber).", d)
  else
    match items with
    | [] => (BadRequest "Invoice must have at least one item.", d)
    | _ =>
        match create_invoice_work party_name invoice_date invoice_number items d with
        | Done grand_total d' =>
            (* conn.commit() *)
            (InvoiceCreated invoice_number grand_total, d')
        | Raised (IntegrityError e) =>
            (* conn.rollback() *)
            if contains "UNIQUE constraint failed: invoices.invoice_number" e
            then (InvoiceNumberExists invoice_number, d)
            else (IntegrityConflict e, d)
        end
    end.

(** The statements of [update_invoice_api] on an invoice that was found, up to
    [conn.commit()]. *)
Definition update_invoice_work (original_invoice : Invoice.t)
    (invoice_number_to_update party_name date : string) (items : list Item.t)
    : sql unit :=
  let original_invoice_id := Invoice.id original_invoice in
  let original_party_name := Invoice.party_name original_invoice in
  let original_date := Invoice.date original_invoice in
  let original_invoice_number := Invoice.invoice_number original_invoice in
  let original_total_amount := Invoice.total_amount original_invoice in
  (if String.eqb original_party_name party_name then ret tt
   else ensure_party party_name) ;;;
  let new_total_amount := items_total items in
  stored <- select_invoice_by_id original_invoice_id ;;
  match stored with
  | None => raise (IntegrityError "no such row")
  | Some row =>
      let previous_balance_for_this_invoice := Invoice.previous_balance row in
      let new_grand_total := (previous_balance_for_this_invoice + new_total_amount)%Q in
      update_invoice_details party_name date new_total_amount new_grand_total
                             original_invoice_id ;;;
      delete_invoice_items original_invoice_id ;;;
      insert_items original_invoice_id items ;;;
      if negb (Qeq_bool new_total_amount original_total_amount)
         || negb (String.eqb original_party_name party_name)
      then
        (if negb (String.eqb original_party_name party_name)
         then update_subsequent_invoice_balances
                original_party_name original_date original_invoice_number
         else ret tt) ;;;
        update_subsequent_invoice_balances party_name date invoice_number_to_update
      else ret tt
  end.

(** [PUT /api/invoices/<invoice_number_to_update>] *)
Definition update_invoice_api (invoice_number_to_update party_name date : string)
    (items : list Item.t) (d : db) : response * db :=
  if blank party_name || blank date
  then (BadRequest "Missing required invoice data for update (partyName, date).", d)
  else
    match items with
    | [] => (BadRequest "Invoice must have at least one item.", d)
    | _ =>
        match select_invoice invoice_number_to_update d with
        | Done None _ => (NotFound "Invoice to update not found", d)
        | Done (Some original_invoice) _ =>
            match update_invoice_work original_invoice invoice_number_to_update
                                      party_name date items d with
            | Done _ d' =>
                (* conn.commit() *)
                let updated_grand_total :=
                  option_map Invoice.grand_total
                    (find (fun i => Invoice.id i =? Invoice.id original_invoice)
                          (invoices d')) in
                (InvoiceUpdated updated_grand_total party_name, d')
            | Raised _ => (ServerError, d)
            end
        | Raised _ => (ServerError, d)
        end
    end.

(** [DELETE /api/invoices/<invoice_number_to_delete>] *)
Definition delete_invoice (invoice_number_to_delete : string) (d : db)
    : response * db :=
  match select_invoice invoice_number_to_delete d with
  | Done None _ => (NotFound "Invoice not found", d)
  | Done (Some invoice_to_delete) _ =>
      let invoice_id := Invoice.id invoice_to_delete in
      let party_name := Invoice.party_name invoice_to_delete in
      let invoice_date := Invoice.date invoice_to_delete in
      let invoice_number := Invoice.invoice_number invoice_to_delete in
      let work :=
        delete_invoice_items invoice_id ;;;
        delete_invoice_row invoice_id ;;;
        update_subsequent_invoice_balances party_name invoice_date invoice_number in
      match work d with
      | Done _ d' =>
          (* conn.commit() *)
          match calculate_current_party_balance party_name d' with
          | Done current_party_balance _ =>
              (InvoiceDeleted party_name current_party_balance, d')
          | Raised _ => (ServerError, d')
          end
      | Raised _ => (ServerError, d)
      end
  | Raised _ => (ServerError, d)
  end.

(** [POST /api/payments] *)
Definition record_payment_api (party_name : string) (amount : Q) (date remarks : string)
    (d : db) : response * db :=
  if blank party_name || blank date
  then (BadRequest "Missing required payment data (partyName, amount, date).", d)
  else if Qle_bool amount 0
  then (BadRequest "Payment amount must be positive.", d)
  else
    let work :=
      ensure_party party_name ;;;
      insert_payment party_name amount date remarks in
    match work d with
    | Done payment_id d' =>
        (* conn.commit() *)
        match calculate_current_party_balance party_name d' with
        | Done current_party_balance _ =>
            (PaymentRecorded payment_id current_party_balance, d')
        | Raised _ => (ServerError, d')
        end
    | Raised _ => (ServerError, d)
    end.

(** [DELETE /api/payments/<payment_id>] *)
Definition delete_payment (payment_id : Z) (d : db) : response * db :=
  match select_payment payment_id d with
  | Done None _ => (NotFound "Payment to delete not found", d)
  | Done (Some payment_to_delete) _ =>
      let party_name := Payment.party_name payment_to_delete in
      match delete_payment_row payment_id d with
      | Done _ d' =>
          (* conn.commit() *)
          match calculate_current_party_balance party_name d' with
          | Done current_party_balance _ =>
              (PaymentDeleted party_name current_party_balance, d')
          | Raised _ => (ServerError, d')
          end
      | Raised _ => (ServerError, d)
      end
  | Raised _ => (ServerError, d)
  end.

(** *** Stock *)

Definition product_batches (product_name : string) (d : db) : list Stock.t :=
  filter (fun b => String.eqb (Stock.product_name b) product_name) (stock d).

(** [ORDER BY date ASC, id ASC] *)
Definition oldest_first_leb (a b : Stock.t) : bool :=
  match String.compare (Stock.date a) (Stock.date b) with
  | Lt => true
  | Gt => false
  | Eq => Stock.id a <=? Stock.id b
  end.

(** [min(a, b)] *)
Definition py_min (a b : Q) : Q := if Qltb b a then b else a.

(** [total_available_row['total'] if total_available_row and
    total_available_row['total'] else 0] *)
Definition truthy_or_zero (o : option Q) : Q :=
  match o with
  | Some x => if Qeq_bool x 0 then 0%Q else x
  | None => 0%Q
  end.

(** [POST /api/stock/batch-add] *)
Definition add_stock_batch_work (items_to_add : list StockItem.t) : sql nat :=
  fold_left
    (fun (acc : sql nat) item =>
       processed_count <- acc ;;
       let product_name := StockItem.productName item in
       let quantity := StockItem.quantity item in
       if blank product_name || blank (StockItem.date item) || Qle_bool quantity 0
       then ret processed_count
       else
         insert_stock product_name (StockItem.batchNo item) (StockItem.date item)
                      quantity ;;;
         ret (S processed_count))
    items_to_add (ret O).

Definition add_stock_batch_api (items_to_add : list StockItem.t) (d : db)
    : response * db :=
  match items_to_add with
  | [] => (BadRequest "No items provided to add to stock.", d)
  | _ =>
      match add_stock_batch_work items_to_add d with
      | Done processed_count d' => (StockAdded processed_count, d')
      | Raised _ => (ServerError, d)
      end
  end.

(** The loop over [available_batches]. *)
Fixpoint take_from_batches (available_batches : list Stock.t) (remaining_to_deduct : Q)
    : sql unit :=
  match available_batches with
  | [] => ret tt
  | batch :: rest =>
      if Qle_bool remaining_to_deduct 0 then ret tt
      else
        let deduct_from_this_batch := py_min (Stock.quantity batch) remaining_to_deduct in
        let new_quantity := (Stock.quantity batch - deduct_from_this_batch)%Q in
        update_stock_quantity new_quantity (Stock.id batch) ;;;
        take_from_batches rest (remaining_to_deduct - deduct_from_this_batch)%Q
  end.

(** The loop over [items_to_deduct]; [errors] is the list built so far. *)
Fixpoint deduct_items (items_to_deduct : list Deduction.t) (errors : list shortage)
    : sql (list shortage) :=
  match items_to_deduct with
  | [] => ret errors
  | item :: rest =>
      let product_name := Deduction.productName item in
      let qty_to_deduct := Deduction.qty item in
      if blank product_name || Qle_bool qty_to_deduct 0
      then deduct_items rest errors
      else
        total_available_row <-
          query (fun d => sql_sum (map Stock.quantity (product_batches product_name d))) ;;
        let total_available := truthy_or_zero total_available_row in
        if Qltb total_available qty_to_deduct
        then
          deduct_items rest
            (errors ++ [mk_shortage product_name total_available qty_to_deduct])
        else
          available_batches <-
            query (fun d =>
              order_by oldest_first_leb
                (filter (fun b => Qltb 0 (Stock.quantity b))
                        (product_batches product_name d))) ;;
          take_from_batches available_batches qty_to_deduct ;;;
          deduct_items rest errors
  end.

(** [POST /api/stock/deduct] *)
Definition deduct_stock_api (items_to_deduct : list Deduction.t) (d : db)
    : response * db :=
  match items_to_deduct with
  | [] => (BadRequest "No items provided for stock deduction.", d)
  | _ =>
      match deduct_items items_to_deduct [] d with
      | Done [] d' =>
          (* conn.commit() *)
          (StockDeducted, d')
      | Done errors _ =>
          (* conn.rollback() *)
          (NotEnoughStock errors, d)
      | Raised _ => (ServerError, d)
      end
  end.

(** ** Histories of requests *)

Inductive request :=
| CreateInvoice (party_name invoice_date invoice_number : string) (items : list Item.t)
| UpdateInvoice (invoice_number_to_update party_name date : string) (items : list Item.t)
| DeleteInvoice (invoice_number_to_delete : string)
| RecordPayment (party_name : string) (amount : Q) (date remarks : string)
| DeletePayment (payment_id : Z)
| AddStock (items_to_add : list StockItem.t)
| DeductStock (items_to_deduct : list Deduction.t).

Definition handle (r : request) (d : db) : response * db :=
  match r with
  | CreateInvoice p dt n items => create_invoice_api p dt n items d
  | UpdateInvoice n p dt items => update_invoice_api n p dt items d
  | DeleteInvoice n => delete_invoice n d
  | RecordPayment p a dt rm => record_payment_api p a dt rm d
  | DeletePayment i => delete_payment i d
  | AddStock items => add_stock_batch_api items d
  | DeductStock items => deduct_stock_api items d
  end.

(** The store after serving the requests one after the other. *)
Definition serve (rs : list request) (d : db) : db :=
  fold_left (fun d r => snd (handle r d)) rs d.

(** The stored row of an invoice number. *)
Definition invoice_row (invoice_number : string) (d : db) : option Invoice.t :=
  find (fun i => String.eqb (Invoice.invoice_number i) invoice_number) (invoices d).

Definition item (a : Q) : Item.t := Item.mk "goods" 1 EmptyString a a.

(** The worked example: two invoices, a payment, then invoice 30 re-totalled. *)
Definition acme_history : list request :=
  [ CreateInvoice "Acme" "2024-01-01" "30" [item 100];
    CreateInvoice "Acme" "2024-01-02" "31" [item 50];
    RecordPayment "Acme" 60 "2024-01-03" EmptyString ].

Definition acme_before_update : db := serve acme_history empty_db.

Definition acme_after_update : db :=
  snd (update_invoice_api "30" "Acme" "2024-01-01" [item 120] acme_before_update).

(** ** Quantities the properties speak of *)

Definition opening_balance (party_name : string) (d : db) : Q :=
  opening_of (find (fun p => String.eqb (Party.name p) party_name) (parties d)).

Definition Qsum (l : list Q) : Q := fold_left Qplus l 0%Q.

Definition invoices_total (party_name : string) (d : db) : Q :=
  Qsum (map Invoice.total_amount (party_invoices party_name d)).

Definition payments_total (party_name : string) (d : db) : Q :=
  Qsum (map Payment.amount (party_payments party_name d)).

Definition current_balance (party_name : string) (d : db) : Q :=
  round2 (opening_balance party_name d + invoices_total party_name d
          - payments_total party_name d).

(** A payment recorded between two invoices. *)
Definition paid_history : list request :=
  [ CreateInvoice "Acme" "2024-01-01" "30" [item 100];
    RecordPayment "Acme" 60 "2024-01-02" EmptyString;
    CreateInvoice "Acme" "2024-01-03" "31" [item 50] ].

Definition paid_store : db := serve paid_history empty_db.

(** What re-deriving a later invoice without a deleted payment would give:
    both stored balances go up by the payment's amount. *)
Definition restamped_without (p : Payment.t) (before after : Invoice.t) : Prop :=
  (Invoice.previous_balance after == Invoice.previous_balance before + Payment.amount p)%Q
  /\ (Invoice.grand_total after == Invoice.grand_total before + Payment.amount p)%Q.

(** The request passes the checks made before the connection is opened. *)
Definition well_formed_invoice_request (party_name invoice_date invoice_number : string)
    (items : list Item.t) : Prop :=
  blank party_name = false /\ blank invoice_date = false
  /\ blank invoice_number = false /\ items <> [].

(** ** Constraints of the schema and of the ledger *)

(** [PRIMARY KEY AUTOINCREMENT] on [invoices.id] and [stock.id], [UNIQUE] on
    [invoices.invoice_number]. *)
Record well_formed (d : db) : Prop := {
  wf_invoice_ids : NoDup (map Invoice.id (invoices d));
  wf_invoice_numbers : NoDup (map Invoice.invoice_number (invoices d));
  wf_invoice_seq :
    Forall (fun i => Invoice.id i <= seq_invoices (sqlite_sequence d)) (invoices d);
  wf_stock_ids : NoDup (map Stock.id (stock d));
  wf_stock_seq : Forall (fun b => Stock.id b <= seq_stock (sqlite_sequence d)) (stock d)
}.

(** Every stored invoice has [grand_total = previous_balance + total_amount]. *)
Definition balanced (d : db) : Prop :=
  Forall (fun i => Invoice.grand_total i
                   = (Invoice.previous_balance i + Invoice.total_amount i)%Q)
         (invoices d).

Definition has_party (party_name : string) (d : db) : Prop :=
  existsb (fun p => String.eqb (Party.name p) party_name) (parties d) = true.

(** Every invoice and every payment names a stored party. *)
Definition referenced (d : db) : Prop :=
  Forall (fun i => has_party (Invoice.party_name i) d) (invoices d)
  /\ Forall (fun p => has_party (Payment.party_name p) d) (payments d).


(** The invoices a recalculation rewrites, in the order it visits them. *)
Definition subsequent (party_name starting_date starting_invoice_number : string)
    (d : db) : list Invoice.t :=
  order_by chronological_leb
    (filter (after_cutoff starting_date starting_invoice_number)
            (party_invoices party_name d)).

(** The balance a recalculation starts from. *)
Definition balance_before (party_name starting_date starting_invoice_number : string)
    (d : db) : Q :=
  (opening_balance party_name d
   + Qsum (map Invoice.total_amount
             (filter (before_cutoff starting_date starting_invoice_number)
                     (party_invoices party_name d)))
   - Qsum (map Payment.amount
             (filter (fun p => text_leb (Payment.date p) starting_date)
                     (party_payments party_name d))))%Q.

(** The running balance once the first [k] invoices of [l] are added. *)
Definition running_after (l : list Invoice.t) (start : Q) (k : nat) : Q :=
  fold_left Qplus (map Invoice.total_amount (firstn k l)) start.

(** The stored row of a rowid. *)
Definition stored (rowid : Z) (d : db) : option Invoice.t :=
  find (fun i => Invoice.id i =? rowid) (invoices d).

(** The balances a pass writes, by rowid. *)
Fixpoint stamps (l : list Invoice.t) (running : Q) : list (Z * (Q * Q)) :=
  match l with
  | [] => []
  | i :: l' =>
      (Invoice.id i, (running, (running + Invoice.total_amount i)%Q))
        :: stamps l' (running + Invoice.total_amount i)%Q
  end.

Fixpoint assoc {V} (k : Z) (l : list (Z * V)) : option V :=
  match l with
  | [] => None
  | (k', v) :: l' => if k' =? k then Some v else assoc k l'
  end.

Definition stamp_row (plan : list (Z * (Q * Q))) (r : Invoice.t) : Invoice.t :=
  match assoc (Invoice.id r) plan with
  | Some (pb, gt) => Invoice.set_balances pb gt r
  | None => r
  end.

(** The rows of the table after a pass, one by one. *)
Definition restamped (l : list Invoice.t) (start : Q) (r r' : Invoice.t) : Prop :=
  (~ In r l /\ r' = r)
  \/ exists k, nth_error l k = Some r
               /\ r' = Invoice.set_balances
                         (running_after l start k)
                         (running_after l start k + Invoice.total_amount r)%Q r.

(** What every history of requests keeps true of the store. *)
Definition consistent (d : db) : Prop :=
  well_formed d /\ balanced d /\ referenced d.

(** [m], started in a store satisfying [P], either raises or finishes in a
    store satisfying [Q]. *)
Definition hoare {A} (P : db -> Prop) (m : sql A) (Q : A -> db -> Prop) : Prop :=
  forall d, P d ->
    match m d with
    | Done a d' => Q a d'
    | Raised _ => True
    end.

(** ** The balance chain *)

(** [a] is immediately followed by [b] in the party's chronological listing. *)
Definition neighbours (party_name : string) (d : db) (a b : Invoice.t) : Prop :=
  exists l1 l2,
    order_by chronological_leb (party_invoices party_name d) = l1 ++ a :: b :: l2.

(** Some payment of the party is dated from [a]'s date to [b]'s date. *)
Definition payment_between (party_name : string) (d : db) (a b : Invoice.t) : Prop :=
  exists p, In p (party_payments party_name d)
            /\ text_leb (Invoice.date a) (Payment.date p) = true
            /\ text_leb (Payment.date p) (Invoice.date b) = true.

(** Each invoice starts from the grand total of the one before it, unless a
    payment falls between them. *)
Definition chained (d : db) : Prop :=
  forall party_name a b,
    neighbours party_name d a b ->
    ~ payment_between party_name d a b ->
    (Invoice.previous_balance b == Invoice.grand_total a)%Q.

(** An invoice entered after one that is dated later. *)
Definition backdated_history : list request :=
  [ CreateInvoice "Acme" "2024-02-01" "1" [item 100];
    CreateInvoice "Acme" "2024-01-01" "2" [item 50] ].

(** ** Deleting and re-creating an invoice *)




(** ** Stock quantities the properties speak of *)

(** The quantity of a product summed over its batches. *)
Definition available (product_name : string) (d : db) : Q :=
  Qsum (map Stock.quantity (product_batches product_name d)).

(** The request is not skipped by the guard of the loop. *)
Definition is_request (r : Deduction.t) : bool :=
  negb (blank (Deduction.productName r) || Qle_bool (Deduction.qty r) 0).

Definition in_stock (b : Stock.t) : bool := Qltb 0 (Stock.quantity b).

(** The batches a deduction may draw on, oldest first. *)
Definition drawable (product_name : string) (d : db) : list Stock.t :=
  order_by oldest_first_leb (filter in_stock (product_batches product_name d)).


(** The quantity stored under a batch rowid. *)
Definition remaining (rowid : Z) (d : db) : Q :=
  match find (fun b => Stock.id b =? rowid) (stock d) with
  | Some b => Stock.quantity b
  | None => 0%Q
  end.

(** The quantities a deduction writes, by rowid. *)
Fixpoint draws (l : list Stock.t) (remaining_to_deduct : Q) : list (Z * Q) :=
  match l with
  | [] => []
  | b :: l' =>
      if Qle_bool remaining_to_deduct 0 then []
      else
        let taken := py_min (Stock.quantity b) remaining_to_deduct in
        (Stock.id b, (Stock.quantity b - taken)%Q)
          :: draws l' (remaining_to_deduct - taken)%Q
  end.

Definition draw_row (plan : list (Z * Q)) (b : Stock.t) : Stock.t :=
  match assoc (Stock.id b) plan with
  | Some q => Stock.set_quantity q b
  | None => b
  end.

(** Two rows are the same batch, whatever quantity is left in it. *)
Definition same_batch (b b' : Stock.t) : Prop :=
  Stock.id b' = Stock.id b /\ Stock.product_name b' = Stock.product_name b
  /\ Stock.batch_no b' = Stock.batch_no b /\ Stock.date b' = Stock.date b.



(** The quantity of a product the call asks for, over all its requests. *)
Definition requested (product_name : string) (items : list Deduction.t) : Q :=
  Qsum (map Deduction.qty
          (filter (fun r => is_request r
                            && String.eqb (Deduction.productName r) product_name)
                  items)).

(** Every product asked for is in stock for the whole quantity asked of it. *)
Definition covered (items : list Deduction.t) (d : db) : Prop :=
  forall r, In r items -> is_request r = true ->
            (requested (Deduction.productName r) items
             <= available (Deduction.productName r) d)%Q.

(** The shortages a call reports, read off the quantity available per product:
    a request that is covered lowers what is available to the requests after
    it, a request that is not is reported with what is available at that
    point. *)
Fixpoint shortages (avail : string -> Q) (items : list Deduction.t) : list shortage :=
  match items with
  | [] => []
  | r :: rest =>
      let p := Deduction.productName r in
      let q := Deduction.qty r in
      if is_request r
      then
        if Qltb (avail p) q
        then mk_shortage p (avail p) q :: shortages avail rest
        else shortages (fun p' => if String.eqb p' p then (avail p' - q)%Q else avail p') rest
      else shortages avail rest
  end.

Definition same_shortage (e e' : shortage) : Prop :=
  short_product e = short_product e'
  /\ (short_available e == short_available e')%Q
  /\ short_required e = short_required e'.

(** The report names every request that exceeds the stored total of its
    product, with that stored total and the quantity required. *)
Definition reports_stored_totals (items : list Deduction.t) (d : db)
    (errors : list shortage) : Prop :=
  forall r, In r items -> is_request r = true ->
            (available (Deduction.productName r) d < Deduction.qty r)%Q ->
            exists e, In e errors
                      /\ short_product e = Deduction.productName r
                      /\ (short_available e == available (Deduction.productName r) d)%Q
                      /\ (short_required e == Deduction.qty r)%Q.

(** One batch of 5 units of product A. *)
Definition one_batch_store : db :=
  serve [AddStock [StockItem.mk "A" "b1" "2024-01-01" 5]] empty_db.

(** Batches B1 and B2 of the worked example, B2 entered first. *)
Definition two_batch_store : db :=
  serve [AddStock [StockItem.mk "A" "B2" "2024-02-01" 5;
                   StockItem.mk "A" "B1" "2024-01-01" 5]] empty_db.

(** What a deduction takes out of a batch. *)
Definition taken_from (plan : list (Z * Q)) (b : Stock.t) : Q :=
  (Stock.quantity b - Stock.quantity (draw_row plan b))%Q.

(** ** What a statement leaves alone *)

(** [m] finishes with the same value of [F] it started with. *)
Definition keeps {A B} (F : db -> A) (m : sql B) : Prop :=
  forall d,
    match m d with
    | Done _ d' => F d' = F d
    | Raised _ => True
    end.

(** The tables of the stock allocator. *)
Definition stock_side (d : db) : list Stock.t * Z :=
  (stock d, seq_stock (sqlite_sequence d)).

(** The tables of the ledger. *)
Definition ledger_side (d : db)
    : list Party.t * list Invoice.t * list InvoiceItem.t * list Payment.t
      * (Z * Z * Z * Z) :=
  (parties d, invoices d, invoice_items d, payments d,
   (seq_parties (sqlite_sequence d), seq_invoices (sqlite_sequence d),
    seq_invoice_items (sqlite_sequence d), seq_payments (sqlite_sequence d))).

Definition is_stock_request (r : request) : bool :=
  match r with
  | AddStock _ | DeductStock _ => true
  | _ => false
  end.

(** ** Stock quantities over histories *)

Definition stock_nonneg (d : db) : Prop :=
  forall b, In b (stock d) -> (0 <= Stock.quantity b)%Q.

(** ** What an accepted ledger request writes *)

(** The balance before rounding. *)
Definition raw_balance (party_name : string) (d : db) : Q :=
  (opening_balance party_name d + invoices_total party_name d
   - payments_total party_name d)%Q.

(** The store once the party is known: a new party gets the next rowid and an
    opening balance of 0. *)
Definition with_party (party_name : string) (d : db) : db :=
  if existsb (fun p => String.eqb (Party.name p) party_name) (parties d) then d
  else
    let s := sqlite_sequence d in
    mk_db (parties d ++ [Party.mk (seq_parties s + 1) party_name (Some 0%Q)])
          (invoices d) (invoice_items d) (payments d) (stock d)
          (mk_sequence (seq_parties s + 1) (seq_invoices s) (seq_invoice_items s)
                       (seq_payments s) (seq_stock s)).

(** The rows stored for the items of an invoice, numbered after [last]. *)
Fixpoint item_rows (last invoice_id : Z) (items : list Item.t) : list InvoiceItem.t :=
  match items with
  | [] => []
  | it :: rest =>
      InvoiceItem.mk (last + 1) invoice_id (Item.productName it) (Item.qty it)
                     (Item.packing it) (Item.unitPrice it) (Item.amount it)
        :: item_rows (last + 1) invoice_id rest
  end.

(** The store after the items of an invoice are inserted. *)
Definition with_items (invoice_id : Z) (items : list Item.t) (d : db) : db :=
  let s := sqlite_sequence d in
  mk_db (parties d) (invoices d)
        (invoice_items d ++ item_rows (seq_invoice_items s) invoice_id items)
        (payments d) (stock d)
        (mk_sequence (seq_parties s) (seq_invoices s)
                     (seq_invoice_items s + Z.of_nat (List.length items))
                     (seq_payments s) (seq_stock s)).

(** The invoice row an accepted creation stores. *)
Definition created_row (party_name invoice_date invoice_number : string)
    (items : list Item.t) (d : db) : Invoice.t :=
  Invoice.mk (seq_invoices (sqlite_sequence d) + 1) invoice_number party_name
             invoice_date (items_total items) (current_balance party_name d)
             (current_balance party_name d + items_total items)%Q.

(** The store after a forward recalculation on a table with distinct rowids. *)
Definition pass (party_name starting_date starting_invoice_number : string) (d : db)
    : db :=
  set_invoices
    (map (stamp_row (stamps (subsequent party_name starting_date starting_invoice_number d)
                            (balance_before party_name starting_date
                                            starting_invoice_number d)))
         (invoices d)) d.

(** The store after the invoice row [r] and its items are deleted. *)
Definition without_invoice (r : Invoice.t) (d : db) : db :=
  set_invoices
    (filter (fun i => negb (Invoice.id i =? Invoice.id r)) (invoices d))
    (set_invoice_items
       (filter (fun it => negb (InvoiceItem.invoice_id it =? Invoice.id r))
               (invoice_items d)) d).

(** The row an update writes over [r], other rows being left alone. *)
Definition detail_row (r : Invoice.t) (p dt : string) (ta : Q) (i : Invoice.t)
    : Invoice.t :=
  if Invoice.id i =? Invoice.id r
  then Invoice.set_details p dt ta (Invoice.previous_balance r + ta)%Q i
  else i.

(** The store an accepted update of the stored row [r] commits. *)
Definition after_update (r : Invoice.t) (n p dt : string) (items : list Item.t)
    (d : db) : db :=
  let d0 := if String.eqb (Invoice.party_name r) p then d else with_party p d in
  let ta := items_total items in
  let d2 :=
    with_items (Invoice.id r) items
      (set_invoice_items
         (filter (fun it => negb (InvoiceItem.invoice_id it =? Invoice.id r))
                 (invoice_items d0))
         (set_invoices (map (detail_row r p dt ta) (invoices d0)) d0)) in
  if negb (Qeq_bool ta (Invoice.total_amount r))
     || negb (String.eqb (Invoice.party_name r) p)
  then
    pass p dt n
      (if negb (String.eqb (Invoice.party_name r) p)
       then pass (Invoice.party_name r) (Invoice.date r) (Invoice.invoice_number r) d2
       else d2)
  else d2.

(** ** What a batch addition writes *)





(** ** The next invoice number

    [get_next_invoice_number_api], and the same computation at the end of
    [create_invoice_api]: the response field [nextInvoiceNumber], kept here
    as a function of the store on its own. *)

From Stdlib Require DecimalString DecimalPos.

Definition INITIAL_INVOICE_NUMBER : Z := 30.

(** [invoice_number GLOB '[0-9]*'] *)
Definition glob_digit_star (s : string) : bool :=
  match s with
  | String c _ => match digit_of c with Some _ => true | None => false end
  | EmptyString => false
  end.

(** [MAX(...)]: [NULL] over no row. *)
Definition sql_max (l : list Z) : option Z :=
  match l with
  | [] => None
  | x :: l' => Some (fold_left Z.max l' x)
  end.

(** [str(n)] on an integer *)
Definition py_str (n : Z) : string :=
  DecimalString.NilZero.string_of_int (Z.to_int n).

(** The integer [next_num_val] ends up with. *)
Definition next_num_val (d : db) : Z :=
  let max_invoice_num_row :=
    sql_max (map (fun i => cast_integer (Invoice.invoice_number i))
                 (filter (fun i => glob_digit_star (Invoice.invoice_number i))
                         (invoices d))) in
  let next_num_val :=
    match max_invoice_num_row with
    | Some m => m + 1
    | None => INITIAL_INVOICE_NUMBER
    end in
  Z.max INITIAL_INVOICE_NUMBER next_num_val.

(** [GET /api/next-invoice-number]: the field [nextInvoiceNumber] of the
    response, which is always a 200. *)
Definition get_next_invoice_number_api (d : db) : string :=
  py_str (next_num_val d).

(** ** Reading an invoice back *)

(** [SELECT * FROM invoice_items WHERE invoice_id = ? ORDER BY id] *)
Definition select_invoice_items (invoice_id : Z) (d : db) : list InvoiceItem.t :=
  order_by (fun a b => InvoiceItem.id a <=? InvoiceItem.id b)
           (filter (fun it => InvoiceItem.invoice_id it =? invoice_id)
                   (invoice_items d)).

(** [GET /api/invoices/<invoice_number>]: the invoice row and its item rows;
    [None] stands for the 404. *)
Definition get_single_invoice_api (invoice_number : string) (d : db)
    : option (Invoice.t * list InvoiceItem.t) :=
  match find (fun i => String.eqb (Invoice.invoice_number i) invoice_number)
             (invoices d) with
  | None => None
  | Some invoice => Some (invoice, select_invoice_items (Invoice.id invoice) d)
  end.

(** The request item a stored item row came from. *)
Definition item_of_row (it : InvoiceItem.t) : Item.t :=
  Item.mk (InvoiceItem.product_name it) (InvoiceItem.qty it) (InvoiceItem.packing it)
          (InvoiceItem.unit_price it) (InvoiceItem.amount it).

(** ** What histories keep true of items, parties and payments *)

(** Rowid and total of every invoice. *)
Definition keys (d : db) : list (Z * Q) :=
  map (fun i => (Invoice.id i, Invoice.total_amount i)) (invoices d).

Definition rows_total (rows : list InvoiceItem.t) : Q :=
  round2 (fold_left Qplus (map InvoiceItem.amount rows) 0%Q).

(** Item rows have increasing rowids, none above [last]; each belongs to a
    listed invoice; each listed invoice has item rows, and its total is the
    rounded sum of their amounts. *)
Definition tallied (ks : list (Z * Q)) (rows : list InvoiceItem.t) (last : Z) : Prop :=
  StronglySorted Z.lt (map InvoiceItem.id rows)
  /\ Forall (fun it => InvoiceItem.id it <= last) rows
  /\ (forall it, In it rows -> In (InvoiceItem.invoice_id it) (map fst ks))
  /\ (forall k t, In (k, t) ks ->
        filter (fun it => InvoiceItem.invoice_id it =? k) rows <> []
        /\ t = rows_total (filter (fun it => InvoiceItem.invoice_id it =? k) rows)).

Definition itemised (d : db) : Prop :=
  tallied (keys d) (invoice_items d) (seq_invoice_items (sqlite_sequence d)).

(** Party names are distinct; payment rowids are distinct and were handed
    out; every payment has a positive amount. *)
Record registered (d : db) : Prop := {
  rg_party_names : NoDup (map Party.name (parties d));
  rg_payment_ids : NoDup (map Payment.id (payments d));
  rg_payment_seq :
    Forall (fun p => Payment.id p <= seq_payments (sqlite_sequence d)) (payments d);
  rg_payment_amounts : Forall (fun p => (0 < Payment.amount p)%Q) (payments d)
}.

(** ** Setting the opening balance

    [set_prev_balance] also writes the table [opening_balance_adjustments],
    which the ledger never reads.  The table is kept beside the store; the two
    readings of the wall clock are arguments of the endpoint. *)

Module Adjustment.
Record t := mk {
  id : Z;
  party_id : Z;
  adjustment_date : string;
  old_balance : Q;
  new_balance : Q;
  reason : string;
  created_at : string
}.
End Adjustment.

Record audited := mk_audited {
  store : db;
  opening_balance_adjustments : list Adjustment.t;
  seq_adjustments : Z
}.

(** The field [prevBalance] of the request: absent or [null]; present but
    refused by [float] with a [ValueError]; or a number. *)
Inductive balance_input :=
| NoBalance
| BadBalance
| Balance (value : Q).

Inductive balance_response :=
| BalanceSet (status : Z) (currentPartyBalance : Q)
| BalanceRejected (error : string)
| BalanceFailed.

Definition set_parties (l : list Party.t) (d : db) : db :=
  mk_db l (invoices d) (invoice_items d) (payments d) (stock d) (sqlite_sequence d).

(** [UPDATE parties SET initial_opening_balance = ? WHERE id = ?] *)
Definition update_party_balance (balance : Q) (rowid : Z) : sql unit :=
  modify (fun d =>
    set_parties
      (map (fun p => if Party.id p =? rowid
                     then Party.mk (Party.id p) (Party.name p) (Some balance)
                     else p)
           (parties d)) d).

(** [INSERT INTO opening_balance_adjustments (...) VALUES (...)] *)
Definition insert_adjustment (party_id : Z) (adjustment_date : string)
    (old_balance new_balance : Q) (reason created_at : string)
    (log : list Adjustment.t * Z) : list Adjustment.t * Z :=
  let rowid := snd log + 1 in
  (fst log ++ [Adjustment.mk rowid party_id adjustment_date old_balance new_balance
                             reason created_at],
   rowid).

(** [POST /api/parties/<party_name>/set-prev-balance]; [today] and [now] are
    [datetime.now()] formatted as a date and as a date with time; [reason] is
    [None] when the request has no field [reason] (a field that is present
    holds a text).  The response keeps the status and the balance. *)
Definition set_prev_balance (today now : string) (party_name : string)
    (prevBalance : balance_input) (reason : option string) (a : audited)
    : balance_response * audited :=
  let reason := match reason with Some r => r | None => "No reason provided"%string end in
  if blank party_name
     || match prevBalance with NoBalance => true | _ => false end
  then (BalanceRejected "Missing required data (partyName, prevBalance).", a)
  else
    match prevBalance with
    | NoBalance | BadBalance => (BalanceRejected "Invalid previous balance format.", a)
    | Balance new_initial_balance =>
        let work :=
          party_row <- select_party party_name ;;
          match party_row with
          | None =>
              party_id <- insert_party party_name new_initial_balance ;;
              ret (party_id, 0%Q, false)
          | Some row =>
              let party_id := Party.id row in
              let old_initial_balance := or_zero (Party.initial_opening_balance row) in
              update_party_balance new_initial_balance party_id ;;;
              ret (party_id, old_initial_balance, true)
          end in
        match work (store a) with
        | Done (party_id, old_initial_balance, found) d' =>
            let log :=
              insert_adjustment party_id today old_initial_balance new_initial_balance
                                reason now
                                (opening_balance_adjustments a, seq_adjustments a) in
            (* conn.commit() *)
            match calculate_current_party_balance party_name d' with
            | Done current_party_balance _ =>
                (BalanceSet (if found then 200 else 201) current_party_balance,
                 mk_audited d' (fst log) (snd log))
            | Raised _ => (BalanceFailed, mk_audited d' (fst log) (snd log))
            end
        | Raised _ =>
            (* conn.rollback() *)
            (BalanceFailed, a)
        end
    end.

(** ** Listing the parties

    [get_parties_list], and [get_all_party_ledgers_api], which runs the same
    statements and renames the two fields. *)

(** [SELECT name FROM parties ORDER BY name] *)
Definition select_party_names : sql (list string) :=
  query (fun d => order_by text_leb (map Party.name (parties d))).

(** The loop over [parties_names]; [parties_with_balance] is the list built
    so far. *)
Fixpoint append_balances (parties_names : list string)
    (parties_with_balance : list (string * Q)) : sql (list (string * Q)) :=
  match parties_names with
  | [] => ret parties_with_balance
  | party_name :: rest =>
      current_balance <- calculate_current_party_balance party_name ;;
      append_balances rest (parties_with_balance ++ [(party_name, current_balance)])
  end.

(** [GET /api/parties]: the list of (name, balance) of the 200 response;
    [None] stands for an exception, which the handler does not catch. *)
Definition get_parties_list (d : db) : option (list (string * Q)) :=
  match (parties_names <- select_party_names ;; append_balances parties_names []) d with
  | Done parties_with_balance _ => Some parties_with_balance
  | Raised _ => None
  end.

(** ** Histories with opening-balance adjustments *)

Inductive audited_request :=
| Ledger (r : request)
| SetPrevBalance (today now party_name : string) (prevBalance : balance_input)
                 (reason : option string).

Definition audited_handle (r : audited_request) (a : audited) : audited :=
  match r with
  | Ledger r =>
      mk_audited (snd (handle r (store a))) (opening_balance_adjustments a)
                 (seq_adjustments a)
  | SetPrevBalance today now party_name prevBalance reason =>
      snd (set_prev_balance today now party_name prevBalance reason a)
  end.

Definition audited_serve (rs : list audited_request) (a : audited) : audited :=
  fold_left (fun a r => audited_handle r a) rs a.

Definition empty_audited : audited := mk_audited empty_db [] 0.

(** The opening balance the adjustments give a party: the new balance of the
    last adjustment of the party, 0 when it has none. *)
Definition logged_balance (party_id : Z) (log : list Adjustment.t) : Q :=
  fold_left (fun acc e => if Adjustment.party_id e =? party_id
                          then Adjustment.new_balance e else acc)
            log 0%Q.

(** The adjustments account for the stored opening balances, and each starts
    from where the one before it, for the same party, ended. *)
Record trailed (a : audited) : Prop := {
  tr_opening :
    forall x, In x (parties (store a)) ->
              or_zero (Party.initial_opening_balance x)
              = logged_balance (Party.id x) (opening_balance_adjustments a);
  tr_chain :
    forall n e, nth_error (opening_balance_adjustments a) n = Some e ->
                Adjustment.old_balance e
                = logged_balance (Adjustment.party_id e)
                                 (firstn n (opening_balance_adjustments a));
  tr_party_seq :
    Forall (fun x => Party.id x <= seq_parties (sqlite_sequence (store a)))
           (parties (store a));
  tr_log_seq :
    Forall (fun e => Adjustment.party_id e <= seq_parties (sqlite_sequence (store a)))
           (opening_balance_adjustments a)
}.

(** * Properties *)

(** ** Running statements *)

Lemma bind_done {A B} (m : sql A) (k : A -> sql B) (d d' : db) (a : A) :
  m d = Done a d' -> bind m k d = k a d'.
Proof. unfold bind; intros ->; reflexivity. Qed.

Lemma bind_raised {A B} (m : sql A) (k : A -> sql B) (d : db) (e : sql_error) :
  m d = Raised e -> bind m k d = Raised e.
Proof. unfold bind; intros ->; reflexivity. Qed.

Lemma bind_query {A B} (f : db -> A) (k : A -> sql B) (d : db) :
  bind (query f) k d = k (f d) d.
Proof. reflexivity. Qed.

Lemma bind_modify {B} (f : db -> db) (k : unit -> sql B) (d : db) :
  bind (modify f) k d = k tt (f d).
Proof. reflexivity. Qed.

Lemma or_zero_sql_sum (l : list Q) : or_zero (sql_sum l) = fold_left Qplus l 0%Q.
Proof. destruct l; reflexivity. Qed.

Lemma calculate_current_party_balance_run (party_name : string) (d : db) :
  calculate_current_party_balance party_name d = Done (current_balance party_name d) d.
Proof.
  unfold calculate_current_party_balance, select_party.
  rewrite !bind_query. unfold ret, current_balance.
  rewrite !or_zero_sql_sum. reflexivity.
Qed.


(** ** The worked example *)

(** C1.  In the worked example (Acme, invoice 30 of 100 on 2024-01-01, invoice
    31 of 50 on 2024-01-02, payment of 60 on 2024-01-03), both invoices are
    stamped as expected before the update; once invoice 30 is re-totalled to
    120 the recalculation stamps invoice 31 with previous balance 0 and grand
    total 50, not 120 and 170; the computed current balance is 110. *)
Theorem acme_update_restamps_invoice_31_from_zero :
  option_map Invoice.previous_balance (invoice_row "31" acme_before_update) = Some 100%Q
  /\ option_map Invoice.grand_total (invoice_row "31" acme_before_update) = Some 150%Q
  /\ fst (update_invoice_api "30" "Acme" "2024-01-01" [item 120] acme_before_update)
     = InvoiceUpdated (Some 120%Q) "Acme"
  /\ option_map Invoice.grand_total (invoice_row "30" acme_after_update) = Some 120%Q
  /\ option_map Invoice.previous_balance (invoice_row "31" acme_after_update) = Some 0%Q
  /\ option_map Invoice.grand_total (invoice_row "31" acme_after_update) = Some 50%Q
  /\ calculate_current_party_balance "Acme" acme_after_update
     = Done 110%Q acme_after_update.
Proof. vm_compute. repeat split. Qed.

(** ** Payments *)

Lemma delete_payment_run (payment_id : Z) (d : db) :
  delete_payment payment_id d
  = match find (fun p => Payment.id p =? payment_id) (payments d) with
    | Some p =>
        let d' :=
          set_payments (filter (fun p => negb (Payment.id p =? payment_id)) (payments d)) d in
        (PaymentDeleted (Payment.party_name p) (current_balance (Payment.party_name p) d'), d')
    | None => (NotFound "Payment to delete not found", d)
    end.
Proof.
  unfold delete_payment, select_payment, query.
  destruct (find _ (payments d)) as [p|]; [| reflexivity].
  unfold delete_payment_row, modify.
  rewrite calculate_current_party_balance_run. reflexivity.
Qed.

(** C4, refuted as stated.  After a payment of 60 dated before invoice 31 is
    deleted, invoice 31 still carries the balances it was stamped with: they
    were not raised by the deleted amount. *)
Lemma delete_payment_leaves_later_invoice_stale :
  exists p before after,
    find (fun p => Payment.id p =? 1) (payments paid_store) = Some p
    /\ invoice_row "31" paid_store = Some before
    /\ invoice_row "31" (snd (delete_payment 1 paid_store)) = Some after
    /\ Invoice.party_name before = Payment.party_name p
    /\ text_ltb (Payment.date p) (Invoice.date before) = true
    /\ ~ restamped_without p before after.
Proof.
  eexists; eexists; eexists.
  split; [vm_compute; reflexivity |].
  split; [vm_compute; reflexivity |].
  split; [vm_compute; reflexivity |].
  split; [reflexivity |].
  split; [reflexivity |].
  intros [H _]. vm_compute in H. discriminate H.
Qed.

(** C4, as the code has it.  Deleting a payment removes the payment row and
    nothing else: every invoice row, and so every stored previous balance and
    grand total, is exactly as before; only the balance computed afterwards,
    which the response reports, no longer subtracts the payment. *)
Theorem delete_payment_touches_no_invoice :
  forall (payment_id : Z) (d : db),
    let d' := snd (delete_payment payment_id d) in
    invoices d' = invoices d
    /\ parties d' = parties d
    /\ invoice_items d' = invoice_items d
    /\ stock d' = stock d
    /\ match find (fun p => Payment.id p =? payment_id) (payments d) with
       | Some p =>
           payments d' = filter (fun p => negb (Payment.id p =? payment_id)) (payments d)
           /\ fst (delete_payment payment_id d)
              = PaymentDeleted (Payment.party_name p)
                  (round2 (opening_balance (Payment.party_name p) d
                           + invoices_total (Payment.party_name p) d
                           - payments_total (Payment.party_name p) d'))
       | None =>
           d' = d /\ fst (delete_payment payment_id d) = NotFound "Payment to delete not found"
       end.
Proof.
  intros payment_id d d'. subst d'. rewrite delete_payment_run.
  destruct (find _ (payments d)) as [p|]; cbn; repeat split; reflexivity.
Qed.

(** ** Duplicate invoice numbers *)

Lemma ensure_party_run (party_name : string) (d : db) :
  exists d', ensure_party party_name d = Done tt d'
             /\ invoices d' = invoices d
             /\ invoice_items d' = invoice_items d
             /\ payments d' = payments d
             /\ stock d' = stock d.
Proof.
  unfold ensure_party, select_party. rewrite bind_query.
  destruct (find _ (parties d)) as [p|] eqn:Hfind.
  - exists d. repeat split; reflexivity.
  - unfold bind, insert_party.
    assert (Hex : existsb (fun p => String.eqb (Party.name p) party_name) (parties d) = false).
    { destruct (existsb _ (parties d)) eqn:Hex; [| reflexivity].
      apply existsb_exists in Hex. destruct Hex as [x [Hin Hx]].
      apply (find_none _ _ Hfind) in Hin. congruence. }
    rewrite Hex. eexists. split; [reflexivity |]. repeat split; reflexivity.
Qed.

Lemma invoice_row_existsb (invoice_number : string) (d : db) :
  invoice_row invoice_number d <> None ->
  existsb (fun i => String.eqb (Invoice.invoice_number i) invoice_number) (invoices d) = true.
Proof.
  unfold invoice_row. intros H.
  destruct (find _ (invoices d)) as [i|] eqn:Hfind; [| congruence].
  apply find_some in Hfind. apply existsb_exists. exists i. exact Hfind.
Qed.

(** C9.  When the invoice number is already stored, for whichever party,
    [create_invoice_api] answers with an error status and the committed store
    is the one it started from: no invoice row, no item row and no party row
    is added; on a request that passes the field checks the error is the
    duplicate-number conflict (409). *)
Theorem create_invoice_duplicate_number_rejected :
  forall (party_name invoice_date invoice_number : string) (items : list Item.t) (d : db),
    invoice_row invoice_number d <> None ->
    snd (create_invoice_api party_name invoice_date invoice_number items d) = d
    /\ status_code (fst (create_invoice_api party_name invoice_date invoice_number items d))
       <> 201
    /\ (well_formed_invoice_request party_name invoice_date invoice_number items ->
        fst (create_invoice_api party_name invoice_date invoice_number items d)
        = InvoiceNumberExists invoice_number).
Proof.
  intros party_name invoice_date invoice_number items d Hdup.
  apply invoice_row_existsb in Hdup.
  assert (Hwork : create_invoice_work party_name invoice_date invoice_number items d
                  = Raised (IntegrityError "UNIQUE constraint failed: invoices.invoice_number")).
  { unfold create_invoice_work.
    destruct (ensure_party_run party_name d) as [d1 [Hrun [Hinv _]]].
    rewrite (bind_done _ _ _ _ _ Hrun).
    rewrite (bind_done _ _ _ _ _ (calculate_current_party_balance_run party_name d1)).
    apply bind_raised. unfold insert_invoice. rewrite Hinv, Hdup. reflexivity. }
  unfold create_invoice_api.
  destruct (blank party_name || blank invoice_date || blank invoice_number) eqn:Hblank.
  - cbn. repeat split; [discriminate |].
    intros [H1 [H2 [H3 _]]]. rewrite H1, H2, H3 in Hblank. discriminate.
  - destruct items as [| it items'].
    + cbn. repeat split; [discriminate |]. intros [_ [_ [_ H]]]. congruence.
    + rewrite Hwork. cbn. repeat split. discriminate.
Qed.

Lemma create_invoice_duplicate_number_rejected_witness :
  snd (create_invoice_api "Zenith" "2024-02-01" "30" [item 10] acme_before_update)
  = acme_before_update
  /\ fst (create_invoice_api "Zenith" "2024-02-01" "30" [item 10] acme_before_update)
     = InvoiceNumberExists "30".
Proof.
  assert (H : invoice_row "30" acme_before_update <> None)
    by (vm_compute; discriminate).
  destruct (create_invoice_duplicate_number_rejected
              "Zenith" "2024-02-01" "30" [item 10] acme_before_update H)
    as [Hstore [_ Hresp]].
  split; [exact Hstore |].
  apply Hresp. repeat split; discriminate.
Defined.

(** ** Ordering *)

Lemma insert_by_perm {A} (leb : A -> A -> bool) (x : A) (l : list A) :
  Permutation (insert_by leb x l) (x :: l).
Proof.
  induction l as [| y l IH]; cbn; [reflexivity |].
  destruct (leb x y); [reflexivity |].
  rewrite IH. apply perm_swap.
Qed.

Lemma order_by_perm {A} (leb : A -> A -> bool) (l : list A) :
  Permutation (order_by leb l) l.
Proof.
  induction l as [| x l IH]; cbn; [reflexivity |].
  rewrite insert_by_perm. constructor. exact IH.
Qed.

Section Sorting.
Context {A : Type} (leb : A -> A -> bool).
Hypothesis leb_total : forall a b, leb a b = false -> leb b a = true.

Let le (a b : A) : Prop := leb a b = true.

Lemma insert_by_sorted (x : A) (l : list A) :
  Sorted le l -> Sorted le (insert_by leb x l).
Proof.
  induction 1 as [| y l Hs IH Hd]; cbn.
  - repeat constructor.
  - destruct (leb x y) eqn:Hxy.
    + constructor; [constructor; assumption | constructor; exact Hxy].
    + constructor; [exact IH |].
      destruct l as [| z l]; cbn.
      * constructor. apply leb_total, Hxy.
      * destruct (leb x z); constructor.
        -- apply leb_total, Hxy.
        -- inversion Hd; assumption.
Qed.

Lemma order_by_sorted (l : list A) : Sorted le (order_by leb l).
Proof.
  induction l as [| x l IH]; cbn; [constructor |].
  apply insert_by_sorted, IH.
Qed.
End Sorting.



Lemma subsequent_perm (p sd sn : string) (d : db) :
  Permutation (subsequent p sd sn d)
              (filter (after_cutoff sd sn) (party_invoices p d)).
Proof. apply order_by_perm. Qed.

Lemma subsequent_incl (p sd sn : string) (d : db) (i : Invoice.t) :
  In i (subsequent p sd sn d) ->
  In i (invoices d) /\ Invoice.party_name i = p /\ after_cutoff sd sn i = true.
Proof.
  intros H. apply (Permutation_in _ (subsequent_perm p sd sn d)) in H.
  apply filter_In in H. destruct H as [H Hafter].
  apply filter_In in H. destruct H as [H Hp].
  apply String.eqb_eq in Hp. auto.
Qed.

(** ** Rows found by rowid *)

Lemma NoDup_map_inj {A B} (f : A -> B) (l : list A) (x y : A) :
  NoDup (map f l) -> In x l -> In y l -> f x = f y -> x = y.
Proof.
  induction l as [| a l IH]; cbn; [contradiction |].
  intros Hnd Hx Hy Hf. inversion Hnd as [| ? ? Hnotin Hnd']; subst.
  destruct Hx as [-> | Hx], Hy as [-> | Hy]; auto.
  - exfalso. apply Hnotin. rewrite Hf. apply in_map, Hy.
  - exfalso. apply Hnotin. rewrite <- Hf. apply in_map, Hx.
Qed.

Lemma find_unique {A} (key : A -> Z) (l : list A) (x : A) :
  NoDup (map key l) -> In x l -> find (fun y => key y =? key x) l = Some x.
Proof.
  induction l as [| a l IH]; cbn; [contradiction |].
  intros Hnd Hin. inversion Hnd as [| ? ? Hnotin Hnd']; subst.
  destruct Hin as [-> | Hin].
  - rewrite Z.eqb_refl. reflexivity.
  - destruct (key a =? key x) eqn:Heq.
    + apply Z.eqb_eq in Heq. exfalso. apply Hnotin. rewrite Heq. apply in_map, Hin.
    + apply IH; assumption.
Qed.

Lemma perm_NoDup_map {A B} (f : A -> B) (l l' : list A) :
  Permutation l l' -> NoDup (map f l') -> NoDup (map f l).
Proof.
  intros Hp Hnd. apply (Permutation_NoDup (l := map f l')); [| exact Hnd].
  apply Permutation_map, Permutation_sym, Hp.
Qed.

Lemma NoDup_map_filter {A B} (f : A -> B) (P : A -> bool) (l : list A) :
  NoDup (map f l) -> NoDup (map f (filter P l)).
Proof.
  induction l as [| a l IH]; cbn; [trivial |].
  intros Hnd. inversion Hnd as [| ? ? Hnotin Hnd']; subst.
  destruct (P a); cbn; [constructor |]; auto.
  intros Hin. apply Hnotin. apply in_map_iff in Hin. destruct Hin as [x [Hx Hin]].
  apply filter_In in Hin. rewrite <- Hx. apply in_map. tauto.
Qed.

Lemma subsequent_ids (p sd sn : string) (d : db) :
  NoDup (map Invoice.id (invoices d)) ->
  NoDup (map Invoice.id (subsequent p sd sn d)).
Proof.
  intros Hnd. apply (perm_NoDup_map _ _ _ (subsequent_perm p sd sn d)).
  unfold party_invoices. apply NoDup_map_filter, NoDup_map_filter, Hnd.
Qed.

(** ** The forward recalculation *)

Lemma set_invoices_same (d : db) : set_invoices (invoices d) d = d.
Proof. destruct d; reflexivity. Qed.

Lemma assoc_stamps_none (l : list Invoice.t) (running : Q) (k : Z) :
  ~ In k (map Invoice.id l) -> assoc k (stamps l running) = None.
Proof.
  revert running. induction l as [| i l IH]; intros running Hnotin; cbn; [reflexivity |].
  destruct (Invoice.id i =? k) eqn:Heq.
  - apply Z.eqb_eq in Heq. exfalso. apply Hnotin. left. exact Heq.
  - apply IH. intros Hin. apply Hnotin. right. exact Hin.
Qed.

Lemma assoc_stamps_nth (l : list Invoice.t) (running : Q) (k : nat) (i : Invoice.t) :
  NoDup (map Invoice.id l) ->
  nth_error l k = Some i ->
  assoc (Invoice.id i) (stamps l running)
  = Some (running_after l running k,
          (running_after l running k + Invoice.total_amount i)%Q).
Proof.
  revert running k. induction l as [| j l IH]; intros running k Hnd Hnth.
  - destruct k; discriminate.
  - inversion Hnd as [| ? ? Hnotin Hnd']; subst.
    destruct k as [| k]; cbn in Hnth.
    + injection Hnth as ->. cbn. rewrite Z.eqb_refl. reflexivity.
    + cbn [stamps assoc].
      destruct (Invoice.id j =? Invoice.id i) eqn:Heq.
      * apply Z.eqb_eq in Heq. exfalso. apply Hnotin. rewrite Heq.
        apply in_map. eapply nth_error_In. exact Hnth.
      * rewrite (IH _ k Hnd' Hnth). reflexivity.
Qed.

Lemma restamp_run (l : list Invoice.t) (running : Q) (d : db) :
  NoDup (map Invoice.id l) ->
  restamp l running d
  = Done tt (set_invoices (map (stamp_row (stamps l running)) (invoices d)) d).
Proof.
  revert running d. induction l as [| i l IH]; intros running d Hnd.
  - cbn. unfold ret. f_equal.
    rewrite (map_ext _ (fun r => r)) by reflexivity.
    rewrite map_id. symmetry. apply set_invoices_same.
  - inversion Hnd as [| ? ? Hnotin Hnd']; subst.
    cbn [restamp]. unfold update_invoice_balances. rewrite bind_modify.
    rewrite (IH _ _ Hnd'). f_equal. cbn [set_invoices invoices].
    unfold set_invoices. cbn. f_equal.
    rewrite map_map. apply map_ext. intros r.
    unfold stamp_row at 2. cbn [stamps assoc].
    rewrite (Z.eqb_sym (Invoice.id i) (Invoice.id r)).
    destruct (Invoice.id r =? Invoice.id i) eqn:Heq.
    + unfold stamp_row. cbn. apply Z.eqb_eq in Heq.
      rewrite assoc_stamps_none by (rewrite Heq; exact Hnotin). reflexivity.
    + reflexivity.
Qed.

Lemma update_subsequent_invoice_balances_run (p sd sn : string) (d : db) :
  NoDup (map Invoice.id (invoices d)) ->
  update_subsequent_invoice_balances p sd sn d
  = Done tt
      (set_invoices
         (map (stamp_row (stamps (subsequent p sd sn d) (balance_before p sd sn d)))
              (invoices d)) d).
Proof.
  intros Hnd. unfold update_subsequent_invoice_balances, select_party.
  rewrite !bind_query. rewrite !or_zero_sql_sum.
  apply restamp_run. apply subsequent_ids, Hnd.
Qed.

Lemma stamp_row_restamped (l : list Invoice.t) (start : Q) (rows : list Invoice.t) :
  NoDup (map Invoice.id rows) -> incl l rows -> NoDup (map Invoice.id l) ->
  Forall2 (restamped l start) rows (map (stamp_row (stamps l start)) rows).
Proof.
  intros Hrows Hincl Hl.
  assert (H : forall r, In r rows -> restamped l start r (stamp_row (stamps l start) r)).
  { intros r Hr. unfold stamp_row.
    destruct (in_dec Z.eq_dec (Invoice.id r) (map Invoice.id l)) as [Hin | Hnotin].
    - apply in_map_iff in Hin. destruct Hin as [i [Hid Hi]].
      assert (i = r) by (apply (NoDup_map_inj Invoice.id rows i r Hrows (Hincl i Hi) Hr Hid)).
      subst i.
      destruct (In_nth_error _ _ Hi) as [k Hk].
      rewrite (assoc_stamps_nth _ _ _ _ Hl Hk). right. exists k. auto.
    - rewrite assoc_stamps_none by exact Hnotin. left. split; [| reflexivity].
      intros Hi. apply Hnotin. apply in_map, Hi. }
  clear Hrows Hincl. induction rows as [| r rows IH]; cbn; constructor.
  - apply H. left. reflexivity.
  - apply IH. intros r' Hr'. apply H. right. exact Hr'.
Qed.



(** ** A small program logic for statements *)

Lemma hoare_bind {A B} (P : db -> Prop) (Q : A -> db -> Prop) (R : B -> db -> Prop)
    (m : sql A) (k : A -> sql B) :
  hoare P m Q -> (forall a, hoare (Q a) (k a) R) -> hoare P (bind m k) R.
Proof.
  intros Hm Hk d HP. unfold bind. specialize (Hm d HP).
  destruct (m d) as [a d' |]; [| exact I]. apply (Hk a d' Hm).
Qed.

Lemma hoare_ret {A} (P : db -> Prop) (a : A) :
  hoare P (ret a) (fun a' d => a' = a /\ P d).
Proof. intros d HP. cbn. auto. Qed.

Lemma hoare_query {A} (P : db -> Prop) (f : db -> A) :
  hoare P (query f) (fun a d => a = f d /\ P d).
Proof. intros d HP. cbn. auto. Qed.

Lemma hoare_modify (P : db -> Prop) (Q : unit -> db -> Prop) (f : db -> db) :
  (forall d, P d -> Q tt (f d)) -> hoare P (modify f) Q.
Proof. intros H d HP. cbn. auto. Qed.

Lemma hoare_conseq {A} (P P' : db -> Prop) (Q Q' : A -> db -> Prop) (m : sql A) :
  hoare P' m Q' -> (forall d, P d -> P' d) -> (forall a d, Q' a d -> Q a d) ->
  hoare P m Q.
Proof.
  intros Hm Hpre Hpost d HP. specialize (Hm d (Hpre d HP)).
  destruct (m d); auto.
Qed.

Lemma hoare_for_each {A} (P : db -> Prop) (xs : list A) (body : A -> sql unit) :
  (forall x, hoare P (body x) (fun _ => P)) ->
  hoare P (for_each xs body) (fun _ => P).
Proof.
  intros Hbody. induction xs as [| x xs IH]; cbn [for_each].
  - intros d HP. exact HP.
  - eapply hoare_bind; [apply Hbody |]. intros u. exact IH.
Qed.

(** ** Statements keep the store consistent *)

Lemma has_party_app (party_name : string) (d : db) (l : list Party.t) (d' : db) :
  parties d' = parties d ++ l -> has_party party_name d -> has_party party_name d'.
Proof.
  unfold has_party. intros Hp H. rewrite Hp, existsb_app, H. reflexivity.
Qed.

Lemma referenced_parties_app (d d' : db) (l : list Party.t) :
  parties d' = parties d ++ l -> invoices d' = invoices d -> payments d' = payments d ->
  referenced d -> referenced d'.
Proof.
  intros Hp Hi Hy [H1 H2]. split; [rewrite Hi | rewrite Hy].
  - eapply Forall_impl; [| exact H1]. intros i. apply (has_party_app _ d l d' Hp).
  - eapply Forall_impl; [| exact H2]. intros i. apply (has_party_app _ d l d' Hp).
Qed.

Lemma well_formed_frame (d d' : db) :
  invoices d' = invoices d -> stock d' = stock d ->
  seq_invoices (sqlite_sequence d') = seq_invoices (sqlite_sequence d) ->
  seq_stock (sqlite_sequence d') = seq_stock (sqlite_sequence d) ->
  well_formed d -> well_formed d'.
Proof.
  intros Hi Hs Hqi Hqs [H1 H2 H3 H4 H5].
  constructor; rewrite ?Hi, ?Hs, ?Hqi, ?Hqs; assumption.
Qed.

Lemma consistent_frame (d d' : db) :
  parties d' = parties d -> invoices d' = invoices d -> payments d' = payments d ->
  stock d' = stock d ->
  seq_invoices (sqlite_sequence d') = seq_invoices (sqlite_sequence d) ->
  seq_stock (sqlite_sequence d') = seq_stock (sqlite_sequence d) ->
  consistent d -> consistent d'.
Proof.
  intros Hp Hi Hy Hs Hqi Hqs [Hwf [Hbal Href]]. split; [| split].
  - apply (well_formed_frame d d'); assumption.
  - unfold balanced. rewrite Hi. exact Hbal.
  - apply (referenced_parties_app d d' []); try assumption.
    rewrite app_nil_r. exact Hp.
Qed.

Lemma find_none_existsb {A} (f : A -> bool) (l : list A) :
  find f l = None -> existsb f l = false.
Proof.
  intros Hfind. destruct (existsb f l) eqn:Hex; [| reflexivity].
  apply existsb_exists in Hex. destruct Hex as [x [Hin Hx]].
  apply (find_none _ _ Hfind) in Hin. congruence.
Qed.

Lemma find_some_existsb {A} (f : A -> bool) (l : list A) (x : A) :
  find f l = Some x -> existsb f l = true.
Proof.
  intros Hfind. apply find_some in Hfind. apply existsb_exists. exists x. exact Hfind.
Qed.

Lemma ensure_party_hoare (P : db -> Prop) (party_name : string) :
  (forall d d' l, parties d' = parties d ++ l -> invoices d' = invoices d ->
                  invoice_items d' = invoice_items d ->
                  payments d' = payments d -> stock d' = stock d ->
                  seq_invoices (sqlite_sequence d') = seq_invoices (sqlite_sequence d) ->
                  seq_stock (sqlite_sequence d') = seq_stock (sqlite_sequence d) ->
                  P d -> P d') ->
  hoare P (ensure_party party_name) (fun _ d => P d /\ has_party party_name d).
Proof.
  intros Hframe d HP. unfold ensure_party, select_party. rewrite bind_query.
  destruct (find _ (parties d)) as [p|] eqn:Hfind.
  - cbn. split; [exact HP |]. apply (find_some_existsb _ _ _ Hfind).
  - unfold bind, insert_party. rewrite (find_none_existsb _ _ Hfind). cbn. split.
    + eapply Hframe; [ | | | | | | | exact HP]; reflexivity.
    + unfold has_party. cbn. rewrite existsb_app. cbn.
      rewrite String.eqb_refl. apply orb_true_r.
Qed.

Lemma consistent_parties_app (d d' : db) (l : list Party.t) :
  parties d' = parties d ++ l -> invoices d' = invoices d ->
  invoice_items d' = invoice_items d ->
  payments d' = payments d -> stock d' = stock d ->
  seq_invoices (sqlite_sequence d') = seq_invoices (sqlite_sequence d) ->
  seq_stock (sqlite_sequence d') = seq_stock (sqlite_sequence d) ->
  consistent d -> consistent d'.
Proof.
  intros Hp Hi _ Hy Hs Hqi Hqs [Hwf [Hbal Href]]. split; [| split].
  - apply (well_formed_frame d d'); assumption.
  - unfold balanced. rewrite Hi. exact Hbal.
  - apply (referenced_parties_app d d' l); assumption.
Qed.

Lemma calculate_current_party_balance_hoare (P : db -> Prop) (party_name : string) :
  hoare P (calculate_current_party_balance party_name)
        (fun a d => a = current_balance party_name d /\ P d).
Proof.
  intros d HP. rewrite calculate_current_party_balance_run. auto.
Qed.

Lemma insert_invoice_item_consistent (invoice_id : Z) (product_name : string) (qty : Q)
    (packing : string) (unit_price amount : Q) :
  hoare consistent
        (insert_invoice_item invoice_id product_name qty packing unit_price amount)
        (fun _ => consistent).
Proof.
  apply hoare_modify. intros d. apply consistent_frame; reflexivity.
Qed.

Lemma insert_items_consistent (invoice_id : Z) (items : list Item.t) :
  hoare consistent (insert_items invoice_id items) (fun _ => consistent).
Proof.
  apply hoare_for_each. intros x. apply insert_invoice_item_consistent.
Qed.

Lemma delete_invoice_items_consistent (invoice_id : Z) :
  hoare consistent (delete_invoice_items invoice_id) (fun _ => consistent).
Proof.
  apply hoare_modify. intros d. apply consistent_frame; reflexivity.
Qed.

Lemma NoDup_snoc {A} (l : list A) (x : A) :
  NoDup l -> ~ In x l -> NoDup (l ++ [x]).
Proof.
  intros Hnd Hnotin.
  apply (Permutation_NoDup (l := x :: l)).
  - apply Permutation_cons_append.
  - constructor; assumption.
Qed.

Lemma insert_invoice_consistent (invoice_number party_name date : string)
    (total_amount previous_balance : Q) :
  hoare (fun d => consistent d /\ has_party party_name d)
        (insert_invoice invoice_number party_name date total_amount previous_balance
                        (previous_balance + total_amount)%Q)
        (fun _ => consistent).
Proof.
  intros d [[[H1 H2 H3 H4 H5] [Hbal [Hri Hrp]]] Hparty]. unfold insert_invoice.
  destruct (existsb _ (invoices d)) eqn:Hex; [exact I |].
  split; [constructor | split]; cbn.
  - rewrite map_app. apply NoDup_snoc; [exact H1 |]. cbn.
    intros Hin. apply in_map_iff in Hin. destruct Hin as [i [Hid Hin]].
    rewrite Forall_forall in H3. specialize (H3 i Hin). lia.
  - rewrite map_app. apply NoDup_snoc; [exact H2 |]. cbn.
    intros Hin. apply in_map_iff in Hin. destruct Hin as [i [Hnum Hin]].
    assert (Hex' : existsb (fun i => String.eqb (Invoice.invoice_number i) invoice_number)
                           (invoices d) = true).
    { apply existsb_exists. exists i. split; [exact Hin |]. apply String.eqb_eq, Hnum. }
    congruence.
  - apply Forall_app. split.
    + eapply Forall_impl; [| exact H3]. cbn. intros. lia.
    + repeat constructor. cbn. lia.
  - exact H4.
  - exact H5.
  - unfold balanced. cbn. apply Forall_app. split; [exact Hbal |].
    repeat constructor.
  - split; cbn.
    + apply Forall_app. split; [exact Hri |]. repeat constructor. exact Hparty.
    + exact Hrp.
Qed.

(** A rewriting of rows that keeps rowid and invoice number. *)
Lemma well_formed_map_invoices (f : Invoice.t -> Invoice.t) (d : db) :
  (forall r, Invoice.id (f r) = Invoice.id r) ->
  (forall r, Invoice.invoice_number (f r) = Invoice.invoice_number r) ->
  well_formed d -> well_formed (set_invoices (map f (invoices d)) d).
Proof.
  intros Hid Hnum [H1 H2 H3 H4 H5]. constructor; cbn.
  - rewrite map_map. rewrite (map_ext _ Invoice.id) by exact Hid. exact H1.
  - rewrite map_map. rewrite (map_ext _ Invoice.invoice_number) by exact Hnum. exact H2.
  - apply Forall_map. eapply Forall_impl; [| exact H3]. cbn. intros r. rewrite Hid. trivial.
  - exact H4.
  - exact H5.
Qed.

Lemma referenced_map_invoices (f : Invoice.t -> Invoice.t) (d : db) :
  (forall r, In r (invoices d) -> has_party (Invoice.party_name r) d ->
             has_party (Invoice.party_name (f r)) d) ->
  referenced d -> referenced (set_invoices (map f (invoices d)) d).
Proof.
  intros Hf [Hri Hrp]. split; cbn; [| exact Hrp].
  apply Forall_map. rewrite Forall_forall in *. intros r Hr.
  apply (Hf r Hr (Hri r Hr)).
Qed.

Lemma update_invoice_details_consistent (original : Invoice.t) (party_name date : string)
    (total_amount : Q) :
  hoare (fun d => consistent d /\ In original (invoices d) /\ has_party party_name d)
        (update_invoice_details party_name date total_amount
           (Invoice.previous_balance original + total_amount)%Q (Invoice.id original))
        (fun _ => consistent).
Proof.
  apply hoare_modify. intros d [[Hwf [Hbal Href]] [Hin Hparty]]. split; [| split].
  - apply well_formed_map_invoices; [| | exact Hwf];
      intros r; destruct (Invoice.id r =? Invoice.id original); reflexivity.
  - unfold balanced in *. cbn. apply Forall_map. rewrite Forall_forall in *.
    intros r Hr. destruct (Invoice.id r =? Invoice.id original) eqn:Heq.
    + apply Z.eqb_eq in Heq.
      assert (r = original)
        by (apply (NoDup_map_inj Invoice.id (invoices d) r original
                     (wf_invoice_ids d Hwf) Hr Hin Heq)).
      subst r. reflexivity.
    + apply Hbal, Hr.
  - apply referenced_map_invoices; [| exact Href].
    intros r Hr Hhas. destruct (Invoice.id r =? Invoice.id original); [exact Hparty | exact Hhas].
Qed.

Lemma Forall_filter {A} (P : A -> Prop) (f : A -> bool) (l : list A) :
  Forall P l -> Forall P (filter f l).
Proof.
  rewrite !Forall_forall. intros H x Hx. apply filter_In in Hx. apply H, Hx.
Qed.

Lemma delete_invoice_row_consistent (rowid : Z) :
  hoare consistent (delete_invoice_row rowid) (fun _ => consistent).
Proof.
  apply hoare_modify. intros d [[H1 H2 H3 H4 H5] [Hbal [Hri Hrp]]].
  split; [constructor | split]; cbn.
  - apply NoDup_map_filter, H1.
  - apply NoDup_map_filter, H2.
  - apply Forall_filter, H3.
  - exact H4.
  - exact H5.
  - apply Forall_filter, Hbal.
  - split; cbn; [apply Forall_filter, Hri | exact Hrp].
Qed.

Lemma stamp_row_keys (plan : list (Z * (Q * Q))) (r : Invoice.t) :
  Invoice.id (stamp_row plan r) = Invoice.id r
  /\ Invoice.invoice_number (stamp_row plan r) = Invoice.invoice_number r
  /\ Invoice.party_name (stamp_row plan r) = Invoice.party_name r
  /\ Invoice.date (stamp_row plan r) = Invoice.date r
  /\ Invoice.total_amount (stamp_row plan r) = Invoice.total_amount r.
Proof.
  unfold stamp_row. destruct (assoc _ plan) as [[pb gt] |]; repeat split; reflexivity.
Qed.

Lemma restamped_balanced (l : list Invoice.t) (start : Q) (r r' : Invoice.t) :
  restamped l start r r' ->
  Invoice.grand_total r = (Invoice.previous_balance r + Invoice.total_amount r)%Q ->
  Invoice.grand_total r' = (Invoice.previous_balance r' + Invoice.total_amount r')%Q.
Proof.
  intros [[_ ->] | [k [_ ->]]] H; [exact H | reflexivity].
Qed.

Lemma update_subsequent_invoice_balances_consistent (p sd sn : string) :
  hoare consistent (update_subsequent_invoice_balances p sd sn) (fun _ => consistent).
Proof.
  intros d [Hwf [Hbal Href]].
  rewrite (update_subsequent_invoice_balances_run p sd sn d (wf_invoice_ids d Hwf)).
  split; [| split].
  - apply well_formed_map_invoices; [| | exact Hwf]; intros r; apply stamp_row_keys.
  - assert (HF : Forall2 (restamped (subsequent p sd sn d) (balance_before p sd sn d))
                   (invoices d)
                   (map (stamp_row (stamps (subsequent p sd sn d)
                                           (balance_before p sd sn d))) (invoices d))).
    { apply stamp_row_restamped.
      - apply (wf_invoice_ids d Hwf).
      - intros i Hi. apply subsequent_incl in Hi. tauto.
      - apply subsequent_ids, (wf_invoice_ids d Hwf). }
    unfold balanced in *. cbn [invoices set_invoices].
    induction HF as [| r r' rows rows' Hr HF IH]; [constructor |].
    inversion Hbal; subst. constructor; [| apply IH; assumption].
    eapply restamped_balanced; eassumption.
  - apply referenced_map_invoices; [| exact Href].
    intros r _ Hhas. destruct (stamp_row_keys (stamps (subsequent p sd sn d)
                                                 (balance_before p sd sn d)) r)
      as [_ [_ [Hparty _]]].
    rewrite Hparty. exact Hhas.
Qed.

(** ** Endpoints keep the store consistent *)

Lemma hoare_run {A} (P : db -> Prop) (Q : A -> db -> Prop) (m : sql A) (d : db) :
  hoare P m Q -> P d ->
  match m d with Done a d' => Q a d' | Raised _ => True end.
Proof. intros H. apply H. Qed.

Lemma create_invoice_work_consistent (party_name invoice_date invoice_number : string)
    (items : list Item.t) :
  hoare consistent
        (create_invoice_work party_name invoice_date invoice_number items)
        (fun _ => consistent).
Proof.
  unfold create_invoice_work.
  eapply hoare_bind; [apply ensure_party_hoare, consistent_parties_app |].
  intros u. cbv beta.
  eapply hoare_bind; [apply calculate_current_party_balance_hoare |].
  intros previous_balance. cbv beta.
  eapply hoare_bind.
  { eapply hoare_conseq; [apply insert_invoice_consistent | |].
    - intros d [_ H]. exact H.
    - intros a d H. exact H. }
  intros invoice_id. cbv beta.
  eapply hoare_bind; [apply insert_items_consistent |].
  intros u'. eapply hoare_conseq; [apply hoare_ret | |].
  - intros d H. exact H.
  - intros a d [_ H]. exact H.
Qed.

Lemma create_invoice_api_consistent (party_name invoice_date invoice_number : string)
    (items : list Item.t) (d : db) :
  consistent d ->
  consistent (snd (create_invoice_api party_name invoice_date invoice_number items d)).
Proof.
  intros Hc. unfold create_invoice_api.
  destruct (blank party_name || blank invoice_date || blank invoice_number);
    [exact Hc |].
  destruct items as [| it items]; [exact Hc |].
  pose proof (create_invoice_work_consistent
                party_name invoice_date invoice_number (it :: items) d Hc) as H.
  destruct (create_invoice_work _ _ _ _ d) as [gt d' | [e]]; cbn.
  - exact H.
  - destruct (contains _ e); exact Hc.
Qed.

Lemma recalc_after_update_consistent (original : Invoice.t)
    (invoice_number_to_update party_name date : string) (changed : bool) :
  hoare consistent
    (if changed
     then
       (if negb (String.eqb (Invoice.party_name original) party_name)
        then update_subsequent_invoice_balances
               (Invoice.party_name original) (Invoice.date original)
               (Invoice.invoice_number original)
        else ret tt) ;;;
       update_subsequent_invoice_balances party_name date invoice_number_to_update
     else ret tt)
    (fun _ => consistent).
Proof.
  destruct changed.
  - eapply hoare_bind with (Q := fun _ => consistent).
    + destruct (negb _).
      * apply update_subsequent_invoice_balances_consistent.
      * intros d H. exact H.
    + intros u. apply update_subsequent_invoice_balances_consistent.
  - intros d H. exact H.
Qed.

Lemma update_invoice_work_consistent (original : Invoice.t)
    (invoice_number_to_update party_name date : string) (items : list Item.t) :
  hoare (fun d => consistent d /\ In original (invoices d))
        (update_invoice_work original invoice_number_to_update party_name date items)
        (fun _ => consistent).
Proof.
  unfold update_invoice_work.
  eapply hoare_bind
    with (Q := fun _ d => consistent d /\ In original (invoices d)
                          /\ has_party party_name d).
  - destruct (String.eqb (Invoice.party_name original) party_name) eqn:Hsame.
    + intros d [Hc Hin]. cbn. split; [exact Hc | split; [exact Hin |]].
      apply String.eqb_eq in Hsame. subst party_name.
      destruct Hc as [_ [_ [Hri _]]]. rewrite Forall_forall in Hri. apply Hri, Hin.
    + eapply hoare_conseq.
      * apply (ensure_party_hoare
                 (fun d => consistent d /\ In original (invoices d))).
        intros d d' l Hp Hi Hit Hy Hs Hqi Hqs [Hc Hin]. split.
        -- apply (consistent_parties_app d d' l); assumption.
        -- rewrite Hi. exact Hin.
      * intros d H. exact H.
      * intros a d [[Hc Hin] Hp]. auto.
  - intros u d [Hc [Hin Hparty]].
    unfold select_invoice_by_id. rewrite bind_query.
    rewrite (find_unique Invoice.id (invoices d) original
               (wf_invoice_ids d (proj1 Hc)) Hin).
    refine (hoare_run
              (fun d => consistent d /\ In original (invoices d)
                        /\ has_party party_name d)
              (fun _ => consistent) _ d _ (conj Hc (conj Hin Hparty))).
    eapply hoare_bind; [apply update_invoice_details_consistent |].
    intros u1. eapply hoare_bind; [apply delete_invoice_items_consistent |].
    intros u2. eapply hoare_bind; [apply insert_items_consistent |].
    intros u3. apply recalc_after_update_consistent.
Qed.

Lemma update_invoice_api_consistent (invoice_number_to_update party_name date : string)
    (items : list Item.t) (d : db) :
  consistent d ->
  consistent (snd (update_invoice_api invoice_number_to_update party_name date items d)).
Proof.
  intros Hc. unfold update_invoice_api.
  destruct (blank party_name || blank date); [exact Hc |].
  destruct items as [| it items]; [exact Hc |].
  unfold select_invoice, query.
  destruct (find _ (invoices d)) as [original |] eqn:Hfind; [| exact Hc].
  apply find_some in Hfind. destruct Hfind as [Hin _].
  pose proof (update_invoice_work_consistent original invoice_number_to_update
                party_name date (it :: items) d (conj Hc Hin)) as H.
  destruct (update_invoice_work _ _ _ _ _ d) as [u d' | e]; cbn; [exact H | exact Hc].
Qed.

Lemma delete_invoice_consistent (invoice_number_to_delete : string) (d : db) :
  consistent d -> consistent (snd (delete_invoice invoice_number_to_delete d)).
Proof.
  intros Hc. unfold delete_invoice, select_invoice, query.
  destruct (find _ (invoices d)) as [row |]; [| exact Hc].
  match goal with
  | |- context [match ?work d with _ => _ end] =>
      assert (H : hoare consistent work (fun _ => consistent))
  end.
  { eapply hoare_bind; [apply delete_invoice_items_consistent |].
    intros u1. eapply hoare_bind; [apply delete_invoice_row_consistent |].
    intros u2. apply update_subsequent_invoice_balances_consistent. }
  specialize (H d Hc). cbv zeta.
  match goal with
  | |- context [match ?work d with _ => _ end] => destruct (work d) as [u d' | e]
  end; [| exact Hc].
  rewrite calculate_current_party_balance_run. exact H.
Qed.

Lemma insert_payment_consistent (party_name : string) (amount : Q) (date remarks : string) :
  hoare (fun d => consistent d /\ has_party party_name d)
        (insert_payment party_name amount date remarks)
        (fun _ => consistent).
Proof.
  intros d [[Hwf [Hbal [Hri Hrp]]] Hparty]. unfold insert_payment.
  split; [| split].
  - apply (well_formed_frame d); try reflexivity. exact Hwf.
  - exact Hbal.
  - split; cbn; [exact Hri |].
    apply Forall_app. split; [exact Hrp |]. repeat constructor. exact Hparty.
Qed.

Lemma record_payment_api_consistent (party_name : string) (amount : Q)
    (date remarks : string) (d : db) :
  consistent d -> consistent (snd (record_payment_api party_name amount date remarks d)).
Proof.
  intros Hc. unfold record_payment_api.
  destruct (blank party_name || blank date); [exact Hc |].
  destruct (Qle_bool amount 0); [exact Hc |].
  match goal with
  | |- context [match ?work d with _ => _ end] =>
      assert (H : hoare consistent work (fun _ => consistent))
  end.
  { eapply hoare_bind; [apply ensure_party_hoare, consistent_parties_app |].
    intros u. apply insert_payment_consistent. }
  specialize (H d Hc). cbv zeta.
  match goal with
  | |- context [match ?work d with _ => _ end] => destruct (work d) as [u d' | e]
  end; [| exact Hc].
  rewrite calculate_current_party_balance_run. exact H.
Qed.

Lemma delete_payment_consistent (payment_id : Z) (d : db) :
  consistent d -> consistent (snd (delete_payment payment_id d)).
Proof.
  intros Hc. rewrite delete_payment_run.
  destruct (find _ (payments d)) as [p |]; [| exact Hc].
  destruct Hc as [Hwf [Hbal [Hri Hrp]]]. cbn. split; [| split].
  - apply (well_formed_frame d); try reflexivity. exact Hwf.
  - exact Hbal.
  - split; cbn; [exact Hri | apply Forall_filter, Hrp].
Qed.

(** *** Stock statements *)

Lemma consistent_set_stock (d : db) (l : list Stock.t) :
  NoDup (map Stock.id l) ->
  Forall (fun b => Stock.id b <= seq_stock (sqlite_sequence d)) l ->
  consistent d -> consistent (set_stock l d).
Proof.
  intros Hnd Hseq [[H1 H2 H3 H4 H5] [Hbal Href]]. split; [constructor | split]; cbn;
    assumption.
Qed.

Lemma insert_stock_consistent (product_name batch_no date : string) (quantity : Q) :
  hoare consistent (insert_stock product_name batch_no date quantity)
        (fun _ => consistent).
Proof.
  apply hoare_modify. intros d [[H1 H2 H3 H4 H5] [Hbal Href]].
  split; [constructor | split]; cbn; try assumption.
  - rewrite map_app. apply NoDup_snoc; [exact H4 |]. cbn.
    intros Hin. apply in_map_iff in Hin. destruct Hin as [b [Hid Hin]].
    rewrite Forall_forall in H5. specialize (H5 b Hin). lia.
  - apply Forall_app. split.
    + eapply Forall_impl; [| exact H5]. cbn. intros. lia.
    + repeat constructor. cbn. lia.
Qed.

Lemma update_stock_quantity_consistent (new_quantity : Q) (rowid : Z) :
  hoare consistent (update_stock_quantity new_quantity rowid) (fun _ => consistent).
Proof.
  apply hoare_modify. intros d Hc. apply consistent_set_stock; [| | exact Hc].
  - rewrite map_map. rewrite (map_ext _ Stock.id).
    + apply (wf_stock_ids d (proj1 Hc)).
    + intros b. destruct (Stock.id b =? rowid); reflexivity.
  - apply Forall_map. eapply Forall_impl; [| apply (wf_stock_seq d (proj1 Hc))].
    cbn. intros b Hb. destruct (Stock.id b =? rowid); exact Hb.
Qed.

Lemma add_stock_batch_work_consistent (items_to_add : list StockItem.t) :
  hoare consistent (add_stock_batch_work items_to_add) (fun _ => consistent).
Proof.
  unfold add_stock_batch_work.
  assert (H : forall acc : sql nat,
             hoare consistent acc (fun _ => consistent) ->
             hoare consistent
               (fold_left
                  (fun (acc : sql nat) item =>
                     processed_count <- acc ;;
                     let product_name := StockItem.productName item in
                     let quantity := StockItem.quantity item in
                     if blank product_name || blank (StockItem.date item)
                        || Qle_bool quantity 0
                     then ret processed_count
                     else
                       insert_stock product_name (StockItem.batchNo item)
                                    (StockItem.date item) quantity ;;;
                       ret (S processed_count))
                  items_to_add acc)
               (fun _ => consistent)).
  { induction items_to_add as [| x xs IH]; intros acc Hacc; cbn [fold_left].
    - exact Hacc.
    - apply IH. eapply hoare_bind; [exact Hacc |]. intros n. cbv zeta beta.
      destruct (blank _ || blank _ || Qle_bool _ 0).
      + intros d Hd. exact Hd.
      + eapply hoare_bind; [apply insert_stock_consistent |].
        intros u d Hd. exact Hd. }
  apply H. intros d Hd. exact Hd.
Qed.

Lemma add_stock_batch_api_consistent (items_to_add : list StockItem.t) (d : db) :
  consistent d -> consistent (snd (add_stock_batch_api items_to_add d)).
Proof.
  intros Hc. unfold add_stock_batch_api.
  destruct items_to_add as [| x xs]; [exact Hc |].
  pose proof (add_stock_batch_work_consistent (x :: xs) d Hc) as H.
  destruct (add_stock_batch_work (x :: xs) d); cbn; [exact H | exact Hc].
Qed.

Lemma take_from_batches_consistent (available_batches : list Stock.t)
    (remaining_to_deduct : Q) :
  hoare consistent (take_from_batches available_batches remaining_to_deduct)
        (fun _ => consistent).
Proof.
  revert remaining_to_deduct.
  induction available_batches as [| batch rest IH]; intros remaining; cbn [take_from_batches].
  - intros d Hd. exact Hd.
  - destruct (Qle_bool remaining 0).
    + intros d Hd. exact Hd.
    + eapply hoare_bind; [apply update_stock_quantity_consistent |].
      intros u. apply IH.
Qed.

Lemma deduct_items_consistent (items_to_deduct : list Deduction.t)
    (errors : list shortage) :
  hoare consistent (deduct_items items_to_deduct errors) (fun _ => consistent).
Proof.
  revert errors.
  induction items_to_deduct as [| x rest IH]; intros errors; cbn [deduct_items].
  - intros d Hd. exact Hd.
  - cbv zeta. destruct (blank _ || Qle_bool _ 0); [apply IH |].
    eapply hoare_bind; [apply hoare_query |].
    intros total. cbv beta.
    destruct (Qltb _ _).
    + eapply hoare_conseq; [apply IH | | ]; [intros d [_ H]; exact H | auto].
    + eapply hoare_bind; [apply hoare_query |].
      intros batches. cbv beta.
      eapply hoare_bind.
      * eapply hoare_conseq; [apply take_from_batches_consistent | |].
        -- intros d [_ [_ H]]. exact H.
        -- intros a d H. exact H.
      * intros u. apply IH.
Qed.

Lemma deduct_stock_api_consistent (items_to_deduct : list Deduction.t) (d : db) :
  consistent d -> consistent (snd (deduct_stock_api items_to_deduct d)).
Proof.
  intros Hc. unfold deduct_stock_api.
  destruct items_to_deduct as [| x xs]; [exact Hc |].
  pose proof (deduct_items_consistent (x :: xs) [] d Hc) as H.
  destruct (deduct_items (x :: xs) [] d) as [[| e errors] d' | e]; cbn;
    [exact H | exact Hc | exact Hc].
Qed.

(** ** Histories *)

Lemma handle_consistent (r : request) (d : db) :
  consistent d -> consistent (snd (handle r d)).
Proof.
  destruct r; cbn [handle].
  - apply create_invoice_api_consistent.
  - apply update_invoice_api_consistent.
  - apply delete_invoice_consistent.
  - apply record_payment_api_consistent.
  - apply delete_payment_consistent.
  - apply add_stock_batch_api_consistent.
  - apply deduct_stock_api_consistent.
Qed.

Lemma empty_db_consistent : consistent empty_db.
Proof.
  split; [constructor | split; [| split]]; cbn; constructor.
Qed.

Lemma serve_consistent (history : list request) (d : db) :
  consistent d -> consistent (serve history d).
Proof.
  revert d. induction history as [| r rs IH]; intros d Hc; cbn.
  - exact Hc.
  - apply IH, handle_consistent, Hc.
Qed.

(** ** The balance chain *)

(** C2, refuted as stated.  After invoice 1 dated 2024-02-01 and then invoice
    2 dated 2024-01-01 are created, with no payment at all, invoice 2 comes
    first chronologically with grand total 150 while invoice 1 keeps the
    previous balance 0 it was stamped with. *)
Lemma backdated_invoice_breaks_chain :
  ~ chained (serve backdated_history empty_db).
Proof.
  intros H.
  specialize (H "Acme"%string
                (Invoice.mk 2 "2" "Acme" "2024-01-01" 50 100 150)
                (Invoice.mk 1 "1" "Acme" "2024-02-01" 100 0 100)).
  assert (Hn : neighbours "Acme" (serve backdated_history empty_db)
                 (Invoice.mk 2 "2" "Acme" "2024-01-01" 50 100 150)
                 (Invoice.mk 1 "1" "Acme" "2024-02-01" 100 0 100)).
  { exists [], []. vm_compute. reflexivity. }
  assert (Hp : ~ payment_between "Acme" (serve backdated_history empty_db)
                 (Invoice.mk 2 "2" "Acme" "2024-01-01" 50 100 150)
                 (Invoice.mk 1 "1" "Acme" "2024-02-01" 100 0 100)).
  { intros [p [Hin _]]. vm_compute in Hin. exact Hin. }
  specialize (H Hn Hp). vm_compute in H. discriminate H.
Qed.

Lemma find_map_keys {A} (key : A -> Z) (f : A -> A) (k : Z) (l : list A) :
  (forall x, key (f x) = key x) ->
  find (fun x => key x =? k) (map f l) = option_map f (find (fun x => key x =? k) l).
Proof.
  intros Hkey. induction l as [| x l IH]; cbn; [reflexivity |].
  rewrite Hkey. destruct (key x =? k); [reflexivity | exact IH].
Qed.

Lemma running_after_S (l : list Invoice.t) (start : Q) (k : nat) (a : Invoice.t) :
  nth_error l k = Some a ->
  running_after l start (S k) = (running_after l start k + Invoice.total_amount a)%Q.
Proof.
  revert l start. induction k as [| k IH]; intros [| x l] start Hnth; try discriminate.
  - cbn in Hnth. injection Hnth as ->. reflexivity.
  - cbn in Hnth. unfold running_after in *.
    change (firstn (S (S k)) (x :: l)) with (x :: firstn (S k) l).
    change (firstn (S k) (x :: l)) with (x :: firstn k l).
    cbn [map fold_left]. apply IH, Hnth.
Qed.

Lemma stored_after_pass (p sd sn : string) (d : db) (k : nat) (a : Invoice.t) :
  NoDup (map Invoice.id (invoices d)) ->
  nth_error (subsequent p sd sn d) k = Some a ->
  stored (Invoice.id a)
         (set_invoices
            (map (stamp_row (stamps (subsequent p sd sn d) (balance_before p sd sn d)))
                 (invoices d)) d)
  = Some (Invoice.set_balances
            (running_after (subsequent p sd sn d) (balance_before p sd sn d) k)
            (running_after (subsequent p sd sn d) (balance_before p sd sn d) k
             + Invoice.total_amount a)%Q a).
Proof.
  intros Hnd Hnth. unfold stored. cbn [invoices set_invoices].
  rewrite (find_map_keys Invoice.id) by (intros r; apply stamp_row_keys).
  assert (Hin : In a (invoices d)).
  { apply nth_error_In in Hnth. apply subsequent_incl in Hnth. tauto. }
  rewrite (find_unique Invoice.id _ a Hnd Hin). cbn [option_map].
  unfold stamp_row.
  rewrite (assoc_stamps_nth _ _ _ _ (subsequent_ids p sd sn d Hnd) Hnth).
  reflexivity.
Qed.

(** C2, as the code has it.  After any history of requests every stored
    invoice has grand total = previous balance + total amount.  The chain
    between neighbours is what a forward recalculation writes: run on such a
    store, it leaves each invoice it visits with the grand total of the
    invoice visited just before it as previous balance. *)
Theorem invoices_balanced_and_pass_chains :
  forall history : list request,
    Forall (fun i => Invoice.grand_total i
                     = (Invoice.previous_balance i + Invoice.total_amount i)%Q)
           (invoices (serve history empty_db))
    /\ forall party_name starting_date starting_invoice_number : string,
         exists d' : db,
           update_subsequent_invoice_balances
             party_name starting_date starting_invoice_number
             (serve history empty_db) = Done tt d'
           /\ forall (k : nat) (a b : Invoice.t),
                nth_error (subsequent party_name starting_date starting_invoice_number
                                      (serve history empty_db)) k = Some a ->
                nth_error (subsequent party_name starting_date starting_invoice_number
                                      (serve history empty_db)) (S k) = Some b ->
                exists a' b' : Invoice.t,
                  stored (Invoice.id a) d' = Some a'
                  /\ stored (Invoice.id b) d' = Some b'
                  /\ Invoice.previous_balance b' = Invoice.grand_total a'.
Proof.
  intros history.
  destruct (serve_consistent history empty_db empty_db_consistent) as [Hwf [Hbal _]].
  split; [exact Hbal |].
  intros p sd sn. eexists.
  split; [apply update_subsequent_invoice_balances_run, (wf_invoice_ids _ Hwf) |].
  intros k a b Ha Hb.
  rewrite (stored_after_pass p sd sn _ k a (wf_invoice_ids _ Hwf) Ha).
  rewrite (stored_after_pass p sd sn _ (S k) b (wf_invoice_ids _ Hwf) Hb).
  eexists. eexists. split; [reflexivity |]. split; [reflexivity |].
  cbn. apply running_after_S, Ha.
Qed.

Lemma invoices_balanced_and_pass_chains_witness :
  exists (d' : db) (a' b' : Invoice.t),
    update_subsequent_invoice_balances "Acme" "2023-12-31" "0" acme_before_update
    = Done tt d'
    /\ stored 1 d' = Some a' /\ stored 2 d' = Some b'
    /\ Invoice.previous_balance b' = Invoice.grand_total a'.
Proof.
  destruct (invoices_balanced_and_pass_chains acme_history) as [_ H].
  destruct (H "Acme" "2023-12-31" "0")%string as [d' [Hrun Hchain]].
  destruct (Hchain 0%nat
              (Invoice.mk 1 "30" "Acme" "2024-01-01" 100 0 100)
              (Invoice.mk 2 "31" "Acme" "2024-01-02" 50 100 150))
    as [a' [b' [Ha [Hb Hab]]]].
  - vm_compute. reflexivity.
  - vm_compute. reflexivity.
  - exists d', a', b'. repeat split; assumption.
Defined.

(** ** Deleting and re-creating an invoice *)


Lemma filter_nil {A} (f : A -> bool) (l : list A) :
  (forall x, In x l -> f x = false) -> filter f l = [].
Proof.
  induction l as [| x l IH]; intros H; cbn; [reflexivity |].
  rewrite (H x (or_introl eq_refl)). apply IH. intros y Hy. apply H. right. exact Hy.
Qed.

Lemma find_app_list {A} (f : A -> bool) (l l' : list A) :
  find f (l ++ l') = match find f l with Some x => Some x | None => find f l' end.
Proof.
  induction l as [| x l IH]; cbn; [reflexivity |].
  destruct (f x); [reflexivity | exact IH].
Qed.

Lemma find_filter_other {A} (f g : A -> bool) (l : list A) :
  (forall x, In x l -> g x = false -> f x = false) ->
  find f (filter g l) = find f l.
Proof.
  induction l as [| x l IH]; intros H; cbn; [reflexivity |].
  assert (IH' : find f (filter g l) = find f l)
    by (apply IH; intros y Hy; apply H; right; exact Hy).
  destruct (g x) eqn:Hg; cbn.
  - destruct (f x); [reflexivity | exact IH'].
  - rewrite (H x (or_introl eq_refl) Hg). exact IH'.
Qed.








(** ** A party that was never stored *)

Lemma unreferenced_party_has_no_rows (party_name : string) (d : db) :
  referenced d ->
  find (fun p => String.eqb (Party.name p) party_name) (parties d) = None ->
  party_invoices party_name d = [] /\ party_payments party_name d = [].
Proof.
  intros [Hri Hrp] Hfind. apply find_none_existsb in Hfind.
  rewrite Forall_forall in Hri, Hrp.
  split; apply filter_nil; intros x Hx;
    destruct (String.eqb _ party_name) eqn:Heq; try reflexivity;
    apply String.eqb_eq in Heq.
  - specialize (Hri x Hx). unfold has_party in Hri. rewrite Heq in Hri. congruence.
  - specialize (Hrp x Hx). unfold has_party in Hrp. rewrite Heq in Hrp. congruence.
Qed.

(** C10.  For a name with no party row, [calculate_current_party_balance]
    does not fail: it takes the opening balance as 0 and returns the (rounded)
    sum of the invoices minus the sum of the payments stored under that name,
    0 when there are none, which is always the case on a store reached by a
    history of requests; the party-balance query answers with that value and
    an initial opening balance of 0. *)
Theorem balance_of_unknown_party_is_zero_based :
  forall (party_name : string) (d : db),
    find (fun p => String.eqb (Party.name p) party_name) (parties d) = None ->
    calculate_current_party_balance party_name d
    = Done (round2 (0 + Qsum (map Invoice.total_amount (party_invoices party_name d))
                    - Qsum (map Payment.amount (party_payments party_name d)))) d
    /\ (party_invoices party_name d = [] -> party_payments party_name d = [] ->
        calculate_current_party_balance party_name d = Done 0%Q d)
    /\ (blank party_name = false ->
        get_party_balance_for_invoice party_name d
        = (PartyBalance
             (round2 (0 + Qsum (map Invoice.total_amount (party_invoices party_name d))
                      - Qsum (map Payment.amount (party_payments party_name d))))
             0%Q, d))
    /\ (forall history : list request,
          d = serve history empty_db ->
          calculate_current_party_balance party_name d = Done 0%Q d
          /\ get_party_balance_for_invoice party_name d
             = (if blank party_name then BadRequest "Party name is required"
                else PartyBalance 0%Q 0%Q, d)).
Proof.
  intros party_name d Hfind.
  assert (Hbal : current_balance party_name d
                 = round2 (0 + Qsum (map Invoice.total_amount (party_invoices party_name d))
                           - Qsum (map Payment.amount (party_payments party_name d)))).
  { unfold current_balance, opening_balance. rewrite Hfind. reflexivity. }
  assert (Hquery : get_party_balance_for_invoice party_name d
                   = (if blank party_name then BadRequest "Party name is required"
                      else PartyBalance (current_balance party_name d) 0%Q, d)).
  { unfold get_party_balance_for_invoice. destruct (blank party_name); [reflexivity |].
    unfold select_party. rewrite bind_query.
    rewrite (bind_done _ _ _ _ _ (calculate_current_party_balance_run party_name d)).
    rewrite Hfind. reflexivity. }
  assert (Hzero : party_invoices party_name d = [] -> party_payments party_name d = [] ->
                  current_balance party_name d = 0%Q).
  { intros Hi Hp. rewrite Hbal, Hi, Hp. reflexivity. }
  rewrite calculate_current_party_balance_run, Hquery.
  split; [rewrite Hbal; reflexivity |].
  split; [intros Hi Hp; rewrite (Hzero Hi Hp); reflexivity |].
  split; [intros ->; rewrite Hbal; reflexivity |].
  intros history Hd.
  assert (Href : referenced d).
  { rewrite Hd. apply (serve_consistent history empty_db empty_db_consistent). }
  destruct (unreferenced_party_has_no_rows party_name d Href Hfind) as [Hi Hp].
  rewrite (Hzero Hi Hp). split; reflexivity.
Qed.

Lemma balance_of_unknown_party_is_zero_based_witness :
  calculate_current_party_balance "Zenith" acme_before_update
  = Done 0%Q acme_before_update
  /\ get_party_balance_for_invoice "Zenith" acme_before_update
     = (PartyBalance 0%Q 0%Q, acme_before_update).
Proof.
  assert (Hfind : find (fun p => String.eqb (Party.name p) "Zenith")
                       (parties acme_before_update) = None)
    by (vm_compute; reflexivity).
  destruct (balance_of_unknown_party_is_zero_based "Zenith" acme_before_update Hfind)
    as [_ [_ [_ H]]].
  apply (H acme_history). reflexivity.
Defined.

(** ** Arithmetic on quantities *)

Lemma Qltb_true (x y : Q) : Qltb x y = true <-> (x < y)%Q.
Proof.
  unfold Qltb. rewrite negb_true_iff. split.
  - intros H. apply Qnot_le_lt. intros Hle. apply Qle_bool_iff in Hle. congruence.
  - intros H. destruct (Qle_bool y x) eqn:Hle; [| reflexivity].
    apply Qle_bool_iff in Hle. exfalso. apply (Qlt_not_le _ _ H Hle).
Qed.

Lemma Qltb_false (x y : Q) : Qltb x y = false <-> (y <= x)%Q.
Proof.
  unfold Qltb. rewrite negb_false_iff. apply Qle_bool_iff.
Qed.

Lemma Qle_bool_false (x y : Q) : Qle_bool x y = false <-> (y < x)%Q.
Proof.
  split.
  - intros H. apply Qnot_le_lt. intros Hle. apply Qle_bool_iff in Hle. congruence.
  - intros H. destruct (Qle_bool x y) eqn:Hle; [| reflexivity].
    apply Qle_bool_iff in Hle. exfalso. apply (Qlt_not_le _ _ H Hle).
Qed.

Lemma fold_left_Qplus (l : list Q) (a : Q) :
  (fold_left Qplus l a == a + Qsum l)%Q.
Proof.
  unfold Qsum. revert a. induction l as [| x l IH]; intros a; cbn.
  - lra.
  - rewrite (IH (a + x)%Q), (IH (0 + x)%Q). lra.
Qed.

Lemma Qsum_cons (x : Q) (l : list Q) : (Qsum (x :: l) == x + Qsum l)%Q.
Proof.
  unfold Qsum at 1. cbn. rewrite fold_left_Qplus. lra.
Qed.

Lemma Qsum_perm (l l' : list Q) : Permutation l l' -> (Qsum l == Qsum l')%Q.
Proof.
  induction 1 as [| x l l' _ IH | x y l | l l' l'' _ IH1 _ IH2].
  - reflexivity.
  - rewrite !Qsum_cons, IH. reflexivity.
  - rewrite !Qsum_cons. lra.
  - rewrite IH1. exact IH2.
Qed.

Lemma py_min_cases (a b : Q) :
  (py_min a b = b /\ (b < a)%Q) \/ (py_min a b = a /\ (a <= b)%Q).
Proof.
  unfold py_min. destruct (Qltb b a) eqn:H.
  - left. split; [reflexivity | apply Qltb_true, H].
  - right. split; [reflexivity | apply Qltb_false, H].
Qed.

(** ** One first-in first-out deduction *)

Lemma set_stock_same (d : db) : set_stock (stock d) d = d.
Proof. destruct d; reflexivity. Qed.

Lemma assoc_draws_none (l : list Stock.t) (rem : Q) (k : Z) :
  ~ In k (map Stock.id l) -> assoc k (draws l rem) = None.
Proof.
  revert rem. induction l as [| b l IH]; intros rem Hnotin; cbn; [reflexivity |].
  destruct (Qle_bool rem 0); [reflexivity |]. cbn.
  destruct (Stock.id b =? k) eqn:Heq.
  - apply Z.eqb_eq in Heq. exfalso. apply Hnotin. left. exact Heq.
  - apply IH. intros Hin. apply Hnotin. right. exact Hin.
Qed.

Lemma take_from_batches_run (l : list Stock.t) (rem : Q) (d : db) :
  NoDup (map Stock.id l) ->
  take_from_batches l rem d
  = Done tt (set_stock (map (draw_row (draws l rem)) (stock d)) d).
Proof.
  assert (Hnone : forall d : db,
             Done tt d = Done tt (set_stock (map (draw_row []) (stock d)) d)).
  { intros d0. f_equal. rewrite (map_ext _ (fun b => b)) by reflexivity.
    rewrite map_id. symmetry. apply set_stock_same. }
  revert rem d. induction l as [| b l IH]; intros rem d Hnd; cbn [take_from_batches draws].
  - apply Hnone.
  - inversion Hnd as [| ? ? Hnotin Hnd']; subst.
    destruct (Qle_bool rem 0); [apply Hnone |].
    cbv zeta. unfold update_stock_quantity. rewrite bind_modify.
    rewrite (IH _ _ Hnd'). f_equal. unfold set_stock. cbn. f_equal.
    rewrite map_map. apply map_ext. intros r.
    unfold draw_row at 2. cbn [assoc].
    rewrite (Z.eqb_sym (Stock.id b) (Stock.id r)).
    destruct (Stock.id r =? Stock.id b) eqn:Heq.
    + unfold draw_row. cbn. apply Z.eqb_eq in Heq.
      rewrite assoc_draws_none by (rewrite Heq; exact Hnotin). reflexivity.
    + reflexivity.
Qed.

Lemma draw_row_same_batch (plan : list (Z * Q)) (b : Stock.t) :
  same_batch b (draw_row plan b).
Proof.
  unfold draw_row, same_batch. destruct (assoc _ plan); repeat split; reflexivity.
Qed.




Lemma Qsum_zero (l : list Q) : Forall (fun x => (x == 0)%Q) l -> (Qsum l == 0)%Q.
Proof.
  induction 1 as [| x l Hx _ IH]; [reflexivity |].
  rewrite Qsum_cons, Hx, IH. lra.
Qed.

Lemma Qsum_nonneg (l : list Q) : Forall (fun x => (0 <= x)%Q) l -> (0 <= Qsum l)%Q.
Proof.
  induction 1 as [| x l Hx _ IH]; [cbn; lra |].
  rewrite Qsum_cons. lra.
Qed.

Lemma Qsum_map_ext {A} (f g : A -> Q) (l : list A) :
  (forall x, In x l -> (f x == g x)%Q) -> (Qsum (map f l) == Qsum (map g l))%Q.
Proof.
  induction l as [| x l IH]; intros H; [reflexivity |].
  cbn [map]. rewrite !Qsum_cons, (H x (or_introl eq_refl)), IH; [reflexivity |].
  intros y Hy. apply H. right. exact Hy.
Qed.

(** Exactly the requested quantity is taken when the batches hold that much. *)
Lemma draws_amount (l : list Stock.t) (rem : Q) :
  NoDup (map Stock.id l) ->
  Forall (fun b => in_stock b = true) l ->
  (0 <= rem <= Qsum (map Stock.quantity l))%Q ->
  (Qsum (map (taken_from (draws l rem)) l) == rem)%Q.
Proof.
  revert rem. induction l as [| c l IH]; intros rem Hnd Hpos Hrem.
  - cbn in *. lra.
  - inversion Hnd as [| ? ? Hnotin Hnd']; subst.
    inversion Hpos as [| ? ? Hc Hpos']; subst.
    assert (Hl : (0 <= Qsum (map Stock.quantity l))%Q).
    { apply Qsum_nonneg. apply Forall_map. eapply Forall_impl; [| exact Hpos'].
      cbn. intros b Hb. apply Qltb_true in Hb. lra. }
    cbn [map] in Hrem. rewrite Qsum_cons in Hrem. apply Qltb_true in Hc.
    cbn [draws]. destruct (Qle_bool rem 0) eqn:Hle.
    + apply Qle_bool_iff in Hle. rewrite Qsum_zero; [lra |].
      apply Forall_map. apply Forall_forall. intros b _.
      unfold taken_from, draw_row. cbn. lra.
    + apply Qle_bool_false in Hle. cbv zeta. cbn [map]. rewrite Qsum_cons.
      set (m := py_min (Stock.quantity c) rem).
      assert (Hm : (0 <= m <= rem /\ m <= Stock.quantity c
                    /\ (rem - m <= Qsum (map Stock.quantity l)))%Q).
      { subst m. destruct (py_min_cases (Stock.quantity c) rem) as [[Hm ?] | [Hm ?]];
          rewrite Hm; repeat split; lra. }
      assert (Hhead : (taken_from ((Stock.id c, (Stock.quantity c - m)%Q)
                                     :: draws l (rem - m)) c == m)%Q).
      { unfold taken_from, draw_row. cbn [assoc]. rewrite Z.eqb_refl. cbn. lra. }
      rewrite Hhead.
      rewrite (Qsum_map_ext _ (taken_from (draws l (rem - m))) l).
      * rewrite IH; [lra | exact Hnd' | exact Hpos' | lra].
      * intros b Hb. unfold taken_from, draw_row. cbn [assoc].
        destruct (Stock.id c =? Stock.id b) eqn:Heq; [| reflexivity].
        apply Z.eqb_eq in Heq. exfalso. apply Hnotin. rewrite Heq. apply in_map, Hb.
Qed.

Lemma filter_map_keys {A} (P : A -> bool) (f : A -> A) (l : list A) :
  (forall x, P (f x) = P x) -> filter P (map f l) = map f (filter P l).
Proof.
  intros H. induction l as [| x l IH]; cbn; [reflexivity |].
  rewrite H. destruct (P x); cbn; rewrite IH; reflexivity.
Qed.

Lemma drawable_perm (p : string) (w : db) :
  Permutation (drawable p w) (filter in_stock (product_batches p w)).
Proof. apply order_by_perm. Qed.



Lemma drawable_In (p : string) (w : db) (b : Stock.t) :
  In b (drawable p w) <->
  In b (stock w) /\ Stock.product_name b = p /\ in_stock b = true.
Proof.
  split.
  - intros H. apply (Permutation_in _ (drawable_perm p w)) in H.
    apply filter_In in H. destruct H as [H Hpos].
    apply filter_In in H. destruct H as [H Hp]. apply String.eqb_eq in Hp. auto.
  - intros [H [Hp Hpos]].
    apply (Permutation_in _ (Permutation_sym (drawable_perm p w))).
    apply filter_In. split; [| exact Hpos].
    apply filter_In. split; [exact H | apply String.eqb_eq, Hp].
Qed.

Lemma drawable_ids (p : string) (w : db) :
  NoDup (map Stock.id (stock w)) -> NoDup (map Stock.id (drawable p w)).
Proof.
  intros Hnd. apply (perm_NoDup_map _ _ _ (drawable_perm p w)).
  unfold product_batches. apply NoDup_map_filter, NoDup_map_filter, Hnd.
Qed.

Lemma draw_row_outside (p : string) (q : Q) (w : db) (b : Stock.t) :
  NoDup (map Stock.id (stock w)) ->
  In b (stock w) -> ~ In b (drawable p w) ->
  draw_row (draws (drawable p w) q) b = b.
Proof.
  intros Hnd Hb Hout. unfold draw_row. rewrite assoc_draws_none; [reflexivity |].
  intros Hin. apply in_map_iff in Hin. destruct Hin as [c [Hid Hc]].
  assert (c = b).
  { apply (NoDup_map_inj Stock.id (stock w) c b Hnd); [| exact Hb | exact Hid].
    apply drawable_In in Hc. tauto. }
  subst c. exact (Hout Hc).
Qed.


Lemma Qsum_filter_in_stock (l : list Stock.t) :
  (Qsum (map Stock.quantity l) <= Qsum (map Stock.quantity (filter in_stock l)))%Q.
Proof.
  induction l as [| b l IH]; cbn [map filter]; [lra |].
  destruct (in_stock b) eqn:Hb; cbn [map]; rewrite !Qsum_cons; [lra |].
  apply Qltb_false in Hb. lra.
Qed.

Lemma Qsum_filter_zero {A} (f : A -> Q) (P : A -> bool) (l : list A) :
  (forall x, In x l -> P x = false -> (f x == 0)%Q) ->
  (Qsum (map f l) == Qsum (map f (filter P l)))%Q.
Proof.
  induction l as [| x l IH]; intros H; [reflexivity |].
  assert (IH' : (Qsum (map f l) == Qsum (map f (filter P l)))%Q)
    by (apply IH; intros y Hy; apply H; right; exact Hy).
  cbn [map filter]. destruct (P x) eqn:HP; cbn [map]; rewrite !Qsum_cons, IH'.
  - reflexivity.
  - rewrite (H x (or_introl eq_refl) HP). lra.
Qed.

Lemma Qsum_after_taken (plan : list (Z * Q)) (l : list Stock.t) :
  (Qsum (map (fun b => Stock.quantity (draw_row plan b)) l)
   == Qsum (map Stock.quantity l) - Qsum (map (taken_from plan) l))%Q.
Proof.
  induction l as [| b l IH]; cbn [map]; [cbn; lra |].
  rewrite !Qsum_cons, IH. unfold taken_from. lra.
Qed.

Lemma available_after_draw (p : string) (q : Q) (w : db) :
  NoDup (map Stock.id (stock w)) ->
  (0 <= q <= available p w)%Q ->
  (available p (set_stock (map (draw_row (draws (drawable p w) q)) (stock w)) w)
   == available p w - q)%Q.
Proof.
  intros Hnd Hq. unfold available in *. unfold product_batches at 1.
  cbn [stock set_stock].
  rewrite (filter_map_keys (fun b => String.eqb (Stock.product_name b) p))
    by (intros b; destruct (draw_row_same_batch (draws (drawable p w) q) b)
                    as [_ [Hp _]]; rewrite Hp; reflexivity).
  fold (product_batches p w). rewrite map_map.
  set (plan := draws (drawable p w) q).
  assert (Htaken : (Qsum (map (taken_from plan) (product_batches p w)) == q)%Q).
  { assert (Hin : forall b, In b (product_batches p w) ->
                            In b (stock w) /\ Stock.product_name b = p).
    { intros b Hb. apply filter_In in Hb. destruct Hb as [Hb Hp].
      apply String.eqb_eq in Hp. auto. }
    assert (Hfilter : (Qsum (map (taken_from plan) (product_batches p w))
                       == Qsum (map (taken_from plan)
                                    (filter in_stock (product_batches p w))))%Q).
    { apply Qsum_filter_zero. intros b Hb Hout.
      unfold taken_from. subst plan. rewrite (draw_row_outside p q w b Hnd).
      - lra.
      - apply Hin, Hb.
      - intros Hd. apply drawable_In in Hd. destruct Hd as [_ [_ Hd]]. congruence. }
    rewrite Hfilter.
    rewrite <- (Qsum_perm _ _ (Permutation_map (taken_from plan) (drawable_perm p w))).
    subst plan. apply draws_amount.
    - apply drawable_ids, Hnd.
    - apply Forall_forall. intros b Hb. apply drawable_In in Hb. tauto.
    - split; [tauto |].
      rewrite (Qsum_perm _ _ (Permutation_map Stock.quantity (drawable_perm p w))).
      pose proof (Qsum_filter_in_stock (product_batches p w)). lra. }
  rewrite <- Htaken. apply Qsum_after_taken.
Qed.

Lemma other_product_after_draw (p p' : string) (q : Q) (w : db) :
  NoDup (map Stock.id (stock w)) -> p' <> p ->
  product_batches p' (set_stock (map (draw_row (draws (drawable p w) q)) (stock w)) w)
  = product_batches p' w.
Proof.
  intros Hnd Hne. unfold product_batches. cbn [stock set_stock].
  rewrite (filter_map_keys (fun b => String.eqb (Stock.product_name b) p'))
    by (intros b; destruct (draw_row_same_batch (draws (drawable p w) q) b)
                    as [_ [Hp _]]; rewrite Hp; reflexivity).
  rewrite <- (map_id (filter _ (stock w))) at 2.
  apply map_ext_in. intros b Hb. apply filter_In in Hb. destruct Hb as [Hb Hp].
  apply String.eqb_eq in Hp. apply (draw_row_outside p q w b Hnd Hb).
  intros Hd. apply drawable_In in Hd. destruct Hd as [_ [Hd _]]. congruence.
Qed.

Lemma stock_ids_after_draw (plan : list (Z * Q)) (w : db) :
  map Stock.id (stock (set_stock (map (draw_row plan) (stock w)) w))
  = map Stock.id (stock w).
Proof.
  cbn [stock set_stock]. rewrite map_map. apply map_ext.
  intros b. apply draw_row_same_batch.
Qed.



(** ** A whole deduction call *)

Lemma total_available_eq (l : list Q) : (truthy_or_zero (sql_sum l) == Qsum l)%Q.
Proof.
  destruct l as [| x l]; [reflexivity |]. cbn [sql_sum truthy_or_zero].
  fold (Qsum (x :: l)). destruct (Qeq_bool (Qsum (x :: l)) 0) eqn:H; [| reflexivity].
  apply Qeq_bool_iff in H. rewrite H. reflexivity.
Qed.

Lemma Qltb_comp (x x' y y' : Q) :
  (x == x')%Q -> (y == y')%Q -> Qltb x y = Qltb x' y'.
Proof.
  intros Hx Hy. destruct (Qltb x' y') eqn:H.
  - apply Qltb_true. apply Qltb_true in H. lra.
  - apply Qltb_false. apply Qltb_false in H. lra.
Qed.

Lemma is_request_guard (r : Deduction.t) :
  blank (Deduction.productName r) || Qle_bool (Deduction.qty r) 0 = negb (is_request r).
Proof. unfold is_request. rewrite negb_involutive. reflexivity. Qed.

Lemma is_request_positive (r : Deduction.t) :
  is_request r = true -> (0 < Deduction.qty r)%Q.
Proof.
  unfold is_request. rewrite negb_true_iff, orb_false_iff. intros [_ H].
  apply Qle_bool_false, H.
Qed.

Lemma requested_nonneg (p : string) (items : list Deduction.t) :
  (0 <= requested p items)%Q.
Proof.
  unfold requested. apply Qsum_nonneg. apply Forall_map. apply Forall_forall.
  intros r Hr. apply filter_In in Hr. destruct Hr as [_ Hr].
  apply andb_true_iff in Hr. destruct Hr as [Hr _].
  apply is_request_positive in Hr. lra.
Qed.

Lemma requested_cons (p : string) (r : Deduction.t) (rest : list Deduction.t) :
  (requested p (r :: rest)
   == (if is_request r && String.eqb (Deduction.productName r) p
       then Deduction.qty r else 0) + requested p rest)%Q.
Proof.
  unfold requested. cbn [filter].
  destruct (is_request r && String.eqb (Deduction.productName r) p).
  - cbn [map]. apply Qsum_cons.
  - lra.
Qed.

(** The statements run for one request that passes the guard and the
    availability check. *)
Lemma serve_request_run (r : Deduction.t) (rest : list Deduction.t)
    (errors : list shortage) (w : db) :
  NoDup (map Stock.id (stock w)) ->
  is_request r = true ->
  (Deduction.qty r <= available (Deduction.productName r) w)%Q ->
  deduct_items (r :: rest) errors w
  = deduct_items rest errors
      (set_stock (map (draw_row (draws (drawable (Deduction.productName r) w)
                                       (Deduction.qty r)))
                      (stock w)) w).
Proof.
  intros Hnd Hr Hq. cbn [deduct_items]. cbv zeta.
  rewrite is_request_guard, Hr. cbn [negb]. rewrite bind_query.
  assert (Hcheck : Qltb (truthy_or_zero
                           (sql_sum (map Stock.quantity
                                         (product_batches (Deduction.productName r) w))))
                        (Deduction.qty r) = false).
  { apply Qltb_false. rewrite total_available_eq. exact Hq. }
  rewrite Hcheck. rewrite bind_query.
  fold in_stock. fold (drawable (Deduction.productName r) w).
  rewrite (bind_done _ _ _ _ _
             (take_from_batches_run _ (Deduction.qty r) w
                (drawable_ids (Deduction.productName r) w Hnd))).
  reflexivity.
Qed.

Lemma skip_request_run (r : Deduction.t) (rest : list Deduction.t)
    (errors : list shortage) (w : db) :
  is_request r = false ->
  deduct_items (r :: rest) errors w = deduct_items rest errors w.
Proof.
  intros Hr. cbn [deduct_items]. cbv zeta. rewrite is_request_guard, Hr. reflexivity.
Qed.

Lemma available_other_product (p p' : string) (q : Q) (w : db) :
  NoDup (map Stock.id (stock w)) -> p' <> p ->
  available p' (set_stock (map (draw_row (draws (drawable p w) q)) (stock w)) w)
  = available p' w.
Proof.
  intros Hnd Hne. unfold available.
  rewrite (other_product_after_draw p p' q w Hnd Hne). reflexivity.
Qed.





(** ** A call that runs short *)

(** The report of the loop is the one read off the availability per product. *)
Lemma deduct_items_report (items : list Deduction.t) (errors : list shortage)
    (w : db) (avail : string -> Q) :
  NoDup (map Stock.id (stock w)) ->
  (forall p, (avail p == available p w)%Q) ->
  exists (found : list shortage) (w' : db),
    deduct_items items errors w = Done (errors ++ found) w'
    /\ Forall2 same_shortage found (shortages avail items).
Proof.
  revert errors w avail. induction items as [| r rest IH]; intros errors w avail Hnd Hav.
  - exists [], w. rewrite app_nil_r. split; [reflexivity | constructor].
  - cbn [shortages]. cbv zeta. destruct (is_request r) eqn:Hr.
    + destruct (Qltb (avail (Deduction.productName r)) (Deduction.qty r)) eqn:Hshort.
      * cbn [deduct_items]. cbv zeta. rewrite is_request_guard, Hr. cbn [negb].
        rewrite bind_query.
        rewrite (Qltb_comp _ (avail (Deduction.productName r)) _ (Deduction.qty r))
          by (rewrite ?total_available_eq, ?Hav; reflexivity).
        rewrite Hshort.
        destruct (IH (errors ++ [mk_shortage (Deduction.productName r)
                                   (truthy_or_zero
                                      (sql_sum (map Stock.quantity
                                                    (product_batches
                                                       (Deduction.productName r) w))))
                                   (Deduction.qty r)])
                     w avail Hnd Hav) as [found [w' [Hrun Hsame]]].
        eexists (_ :: found), w'. rewrite Hrun, <- app_assoc. split; [reflexivity |].
        constructor; [| exact Hsame].
        repeat split; cbn. rewrite total_available_eq, Hav. reflexivity.
      * apply Qltb_false in Hshort. rewrite Hav in Hshort.
        rewrite (serve_request_run r rest errors w Hnd Hr Hshort).
        apply IH.
        -- rewrite stock_ids_after_draw. exact Hnd.
        -- intros p. destruct (String.eqb p (Deduction.productName r)) eqn:Heq.
           ++ apply String.eqb_eq in Heq. subst p.
              rewrite available_after_draw, Hav; [reflexivity | exact Hnd |].
              pose proof (is_request_positive r Hr). lra.
           ++ apply String.eqb_neq in Heq.
              rewrite available_other_product by assumption. apply Hav.
    + rewrite (skip_request_run r rest errors w Hr). apply IH; assumption.
Qed.

(** A request that exceeds what the product had at the start of the call is
    in the report, with at most that quantity as available. *)
Lemma shortages_cover (items : list Deduction.t) (avail avail0 : string -> Q)
    (r : Deduction.t) :
  (forall p, (avail p <= avail0 p)%Q) ->
  In r items -> is_request r = true ->
  (avail0 (Deduction.productName r) < Deduction.qty r)%Q ->
  exists e, In e (shortages avail items)
            /\ short_product e = Deduction.productName r
            /\ short_required e = Deduction.qty r
            /\ (short_available e <= avail0 (Deduction.productName r))%Q.
Proof.
  revert avail. induction items as [| r0 rest IH]; intros avail Hle Hin Hr Hshort;
    [contradiction |].
  cbn [shortages]. cbv zeta. destruct Hin as [-> | Hin].
  - rewrite Hr.
    assert (H : Qltb (avail (Deduction.productName r)) (Deduction.qty r) = true).
    { apply Qltb_true. specialize (Hle (Deduction.productName r)). lra. }
    rewrite H. eexists. split; [left; reflexivity |]. cbn. repeat split. apply Hle.
  - destruct (is_request r0) eqn:Hr0; [| apply IH; assumption].
    destruct (Qltb _ _).
    + destruct (IH avail Hle Hin Hr Hshort) as [e [He H]].
      exists e. split; [right; exact He | exact H].
    + apply IH; try assumption.
      intros p. specialize (Hle p). pose proof (is_request_positive r0 Hr0).
      destruct (String.eqb p (Deduction.productName r0)); lra.
Qed.

(** A request for a product that no earlier request of the call names is
    reported with the stored total of the product. *)
Lemma shortages_first_request (earlier later : list Deduction.t)
    (avail avail0 : string -> Q) (r : Deduction.t) :
  (avail (Deduction.productName r) == avail0 (Deduction.productName r))%Q ->
  (forall r', In r' earlier -> Deduction.productName r' <> Deduction.productName r) ->
  is_request r = true ->
  (avail0 (Deduction.productName r) < Deduction.qty r)%Q ->
  exists e, In e (shortages avail (earlier ++ r :: later))
            /\ short_product e = Deduction.productName r
            /\ short_required e = Deduction.qty r
            /\ (short_available e == avail0 (Deduction.productName r))%Q.
Proof.
  revert avail. induction earlier as [| r0 earlier IH]; intros avail Heq Hother Hr Hshort.
  - cbn [app shortages]. cbv zeta. rewrite Hr.
    assert (H : Qltb (avail (Deduction.productName r)) (Deduction.qty r) = true).
    { apply Qltb_true. lra. }
    rewrite H. eexists. split; [left; reflexivity |]. cbn. repeat split. exact Heq.
  - cbn [app shortages]. cbv zeta.
    assert (Hrest : forall r', In r' earlier ->
                               Deduction.productName r' <> Deduction.productName r).
    { intros r' Hr'. apply Hother. right. exact Hr'. }
    destruct (is_request r0); [| apply IH; assumption].
    destruct (Qltb _ _).
    + destruct (IH avail Heq Hrest Hr Hshort) as [e [He H]].
      exists e. split; [right; exact He | exact H].
    + apply IH; try assumption.
      assert (Hne : String.eqb (Deduction.productName r) (Deduction.productName r0)
                    = false).
      { apply String.eqb_neq. intros H. apply (Hother r0 (or_introl eq_refl)).
        symmetry. exact H. }
      rewrite Hne. exact Heq.
Qed.

Lemma Forall2_In_r {A B} (R : A -> B -> Prop) (l : list A) (l' : list B) (y : B) :
  Forall2 R l l' -> In y l' -> exists x, In x l /\ R x y.
Proof.
  induction 1 as [| a b l l' Hab _ IH]; intros Hy; [contradiction |].
  destruct Hy as [<- | Hy].
  - exists a. split; [left; reflexivity | exact Hab].
  - destruct (IH Hy) as [x [Hx HR]]. exists x. split; [right; exact Hx | exact HR].
Qed.

(** C7, refuted as stated.  With 5 units of product A in stock, a call asking
    for 3 and then for 9 units of A is rejected and changes nothing, but the
    failure it reports for the second request gives 2 as available quantity,
    not the 5 that are stored. *)
Lemma shortage_reports_what_is_left_in_the_call :
  exists errors : list shortage,
    deduct_stock_api [Deduction.mk "A" 3; Deduction.mk "A" 9] one_batch_store
    = (NotEnoughStock errors, one_batch_store)
    /\ ~ reports_stored_totals [Deduction.mk "A" 3; Deduction.mk "A" 9]
                               one_batch_store errors.
Proof.
  exists [mk_shortage "A" 2 9]. split; [vm_compute; reflexivity |].
  intros H.
  destruct (H (Deduction.mk "A" 9)) as [e [He [_ [Hav _]]]].
  - right. left. reflexivity.
  - reflexivity.
  - vm_compute. reflexivity.
  - destruct He as [<- | []]. vm_compute in Hav. discriminate Hav.
Qed.

(** C7, as the code has it.  When some request asks for more than the stored
    total of its product, the call is rejected and the committed store is the
    one it started from, batches of sufficiently stocked products included.
    The failure lists, in request order, every request found short when it is
    examined, with its product, the quantity required and the quantity
    available at that point: the stored total less what the covered requests
    earlier in the same call asked of that product.  Every request exceeding
    the stored total is listed, with at most the stored total as available,
    and with exactly the stored total when no earlier request of the call
    names its product. *)
Theorem insufficient_stock_rejects_whole_call :
  forall (items : list Deduction.t) (d : db),
    NoDup (map Stock.id (stock d)) ->
    (exists r, In r items /\ is_request r = true
               /\ (available (Deduction.productName r) d < Deduction.qty r)%Q) ->
    exists errors : list shortage,
      deduct_stock_api items d = (NotEnoughStock errors, d)
      /\ Forall2 same_shortage errors (shortages (fun p => available p d) items)
      /\ (forall r, In r items -> is_request r = true ->
                    (available (Deduction.productName r) d < Deduction.qty r)%Q ->
                    exists e, In e errors
                              /\ short_product e = Deduction.productName r
                              /\ short_required e = Deduction.qty r
                              /\ (short_available e
                                  <= available (Deduction.productName r) d)%Q)
      /\ (forall earlier r later,
            items = earlier ++ r :: later ->
            (forall r', In r' earlier ->
                        Deduction.productName r' <> Deduction.productName r) ->
            is_request r = true ->
            (available (Deduction.productName r) d < Deduction.qty r)%Q ->
            exists e, In e errors
                      /\ short_product e = Deduction.productName r
                      /\ short_required e = Deduction.qty r
                      /\ (short_available e
                          == available (Deduction.productName r) d)%Q).
Proof.
  intros items d Hnd [r [Hin [Hr Hshort]]].
  destruct (deduct_items_report items [] d (fun p => available p d) Hnd)
    as [errors [w' [Hrun Hsame]]]; [reflexivity |].
  cbn [app] in Hrun.
  assert (Hlisted : forall r, In r items -> is_request r = true ->
                      (available (Deduction.productName r) d < Deduction.qty r)%Q ->
                      exists e, In e errors
                                /\ short_product e = Deduction.productName r
                                /\ short_required e = Deduction.qty r
                                /\ (short_available e
                                    <= available (Deduction.productName r) d)%Q).
  { intros r1 Hin1 Hr1 Hshort1.
    destruct (shortages_cover items (fun p => available p d) (fun p => available p d) r1)
      as [e' [He' [Hp [Hq Ha]]]]; try assumption; [intros p; lra |].
    destruct (Forall2_In_r _ _ _ _ Hsame He') as [e [He [Hsp [Hsa Hsr]]]].
    exists e. split; [exact He |]. rewrite Hsp, Hsr, Hsa. auto. }
  exists errors. split; [| split; [exact Hsame | split; [exact Hlisted |]]].
  - destruct (Hlisted r Hin Hr Hshort) as [e [He _]].
    unfold deduct_stock_api. destruct items as [| r0 rest]; [contradiction |].
    rewrite Hrun. destruct errors as [| e0 errors]; [contradiction | reflexivity].
  - intros earlier r1 later -> Hother Hr1 Hshort1.
    destruct (shortages_first_request earlier later (fun p => available p d)
                (fun p => available p d) r1) as [e' [He' [Hp [Hq Ha]]]];
      try assumption; [reflexivity |].
    destruct (Forall2_In_r _ _ _ _ Hsame He') as [e [He [Hsp [Hsa Hsr]]]].
    exists e. split; [exact He |]. rewrite Hsp, Hsr, Hsa. auto.
Qed.

Lemma insufficient_stock_rejects_whole_call_witness :
  exists errors : list shortage,
    deduct_stock_api [Deduction.mk "A" 3; Deduction.mk "A" 9] one_batch_store
    = (NotEnoughStock errors, one_batch_store)
    /\ errors <> [].
Proof.
  assert (Hnd : NoDup (map Stock.id (stock one_batch_store))).
  { vm_compute. repeat constructor; cbn; intuition discriminate. }
  assert (Hshort : exists r, In r [Deduction.mk "A" 3; Deduction.mk "A" 9]
                             /\ is_request r = true
                             /\ (available (Deduction.productName r) one_batch_store
                                 < Deduction.qty r)%Q).
  { exists (Deduction.mk "A" 9). split; [right; left; reflexivity |].
    split; [reflexivity | vm_compute; reflexivity]. }
  destruct (insufficient_stock_rejects_whole_call
              [Deduction.mk "A" 3; Deduction.mk "A" 9] one_batch_store Hnd Hshort)
    as [errors [Hrun [_ [Hlisted _]]]].
  exists errors. split; [exact Hrun |].
  destruct Hshort as [r [Hin [Hr Hlt]]].
  destruct (Hlisted r Hin Hr Hlt) as [e [He _]].
  intros ->. exact He.
Defined.

(** * Further properties of the endpoints *)

(** ** The ledger and the stock do not touch each other *)

Lemma keeps_bind {A B C} (F : db -> A) (m : sql B) (k : B -> sql C) :
  keeps F m -> (forall b, keeps F (k b)) -> keeps F (bind m k).
Proof.
  intros Hm Hk d. unfold bind. specialize (Hm d).
  destruct (m d) as [b d1 |]; [| exact I].
  specialize (Hk b d1). destruct (k b d1); [congruence | exact I].
Qed.

Lemma keeps_ret {A B} (F : db -> A) (b : B) : keeps F (ret b).
Proof. intros d. reflexivity. Qed.

Lemma keeps_query {A B} (F : db -> A) (f : db -> B) : keeps F (query f).
Proof. intros d. reflexivity. Qed.

Lemma keeps_raise {A B} (F : db -> A) (e : sql_error) : keeps F (@raise B e).
Proof. intros d. exact I. Qed.

Lemma keeps_modify {A} (F : db -> A) (f : db -> db) :
  (forall d, F (f d) = F d) -> keeps F (modify f).
Proof. intros H d. apply H. Qed.

Lemma keeps_for_each {A B} (F : db -> A) (xs : list B) (body : B -> sql unit) :
  (forall x, keeps F (body x)) -> keeps F (for_each xs body).
Proof.
  intros H. induction xs as [| x xs IH]; cbn [for_each].
  - apply keeps_ret.
  - apply keeps_bind; [apply H | intros _; exact IH].
Qed.

Lemma keeps_commit {A B} (F : db -> A) (m : sql B) (d : db) :
  keeps F m ->
  F (match m d with Done _ d' => d' | Raised _ => d end) = F d.
Proof. intros H. specialize (H d). destruct (m d); [exact H | reflexivity]. Qed.

Ltac keeps_step :=
  first
    [ apply keeps_ret
    | apply keeps_query
    | apply keeps_raise
    | apply keeps_modify; intros; reflexivity
    | apply keeps_for_each; intros
    | apply keeps_bind; [| intros] ].

Lemma calculate_current_party_balance_keeps {A} (F : db -> A) (p : string) :
  keeps F (calculate_current_party_balance p).
Proof. intros d. rewrite calculate_current_party_balance_run. reflexivity. Qed.

Lemma ensure_party_keeps_stock (p : string) : keeps stock_side (ensure_party p).
Proof.
  intros d. unfold ensure_party, select_party. rewrite bind_query.
  destruct (find _ (parties d)); [reflexivity |].
  unfold bind, insert_party. destruct (existsb _ (parties d)); [exact I | reflexivity].
Qed.

Lemma insert_invoice_keeps_stock (n p dt : string) (ta pb gt : Q) :
  keeps stock_side (insert_invoice n p dt ta pb gt).
Proof.
  intros d. unfold insert_invoice. destruct (existsb _ (invoices d)); [exact I | reflexivity].
Qed.

Lemma insert_items_keeps_stock (i : Z) (items : list Item.t) :
  keeps stock_side (insert_items i items).
Proof. unfold insert_items, insert_invoice_item. repeat keeps_step. Qed.

Lemma restamp_keeps_stock (l : list Invoice.t) (running : Q) :
  keeps stock_side (restamp l running).
Proof.
  revert running. induction l as [| i l IH]; intros running; cbn [restamp].
  - apply keeps_ret.
  - apply keeps_bind; [unfold update_invoice_balances; keeps_step | intros _; apply IH].
Qed.

Lemma update_subsequent_invoice_balances_keeps_stock (p sd sn : string) :
  keeps stock_side (update_subsequent_invoice_balances p sd sn).
Proof.
  unfold update_subsequent_invoice_balances, select_party.
  repeat (apply keeps_bind; [apply keeps_query | intros]).
  apply restamp_keeps_stock.
Qed.

Lemma create_invoice_api_keeps_stock (p dt n : string) (items : list Item.t) (d : db) :
  stock_side (snd (create_invoice_api p dt n items d)) = stock_side d.
Proof.
  unfold create_invoice_api.
  destruct (blank p || blank dt || blank n); [reflexivity |].
  destruct items as [| it items]; [reflexivity |].
  assert (H : keeps stock_side (create_invoice_work p dt n (it :: items))).
  { unfold create_invoice_work.
    apply keeps_bind; [apply ensure_party_keeps_stock | intros].
    apply keeps_bind; [apply calculate_current_party_balance_keeps | intros].
    apply keeps_bind; [apply insert_invoice_keeps_stock | intros].
    apply keeps_bind; [apply insert_items_keeps_stock | intros]. apply keeps_ret. }
  specialize (H d).
  destruct (create_invoice_work p dt n (it :: items) d) as [gt d' | [e]]; cbn.
  - exact H.
  - destruct (contains _ e); reflexivity.
Qed.

Lemma update_invoice_work_keeps_stock (original : Invoice.t) (n p dt : string)
    (items : list Item.t) :
  keeps stock_side (update_invoice_work original n p dt items).
Proof.
  unfold update_invoice_work. cbv zeta.
  apply keeps_bind.
  { destruct (String.eqb _ p); [apply keeps_ret | apply ensure_party_keeps_stock]. }
  intros _. apply keeps_bind; [unfold select_invoice_by_id; apply keeps_query |].
  intros [row |]; [| apply keeps_raise].
  apply keeps_bind; [unfold update_invoice_details; keeps_step |]. intros _.
  apply keeps_bind; [unfold delete_invoice_items; keeps_step |]. intros _.
  apply keeps_bind; [apply insert_items_keeps_stock |]. intros _.
  destruct (negb _ || negb _); [| apply keeps_ret].
  apply keeps_bind.
  - destruct (negb _); [apply update_subsequent_invoice_balances_keeps_stock
                       | apply keeps_ret].
  - intros _. apply update_subsequent_invoice_balances_keeps_stock.
Qed.

Lemma update_invoice_api_keeps_stock (n p dt : string) (items : list Item.t) (d : db) :
  stock_side (snd (update_invoice_api n p dt items d)) = stock_side d.
Proof.
  unfold update_invoice_api.
  destruct (blank p || blank dt); [reflexivity |].
  destruct items as [| it items]; [reflexivity |].
  unfold select_invoice, query.
  destruct (find _ (invoices d)) as [original |]; [| reflexivity].
  pose proof (update_invoice_work_keeps_stock original n p dt (it :: items) d) as H.
  destruct (update_invoice_work original n p dt (it :: items) d); cbn;
    [exact H | reflexivity].
Qed.

Lemma delete_invoice_keeps_stock (n : string) (d : db) :
  stock_side (snd (delete_invoice n d)) = stock_side d.
Proof.
  unfold delete_invoice, select_invoice, query.
  destruct (find _ (invoices d)) as [row |]; [| reflexivity]. cbv zeta.
  match goal with
  | |- context [match ?work d with _ => _ end] =>
      assert (H : keeps stock_side work)
  end.
  { apply keeps_bind; [unfold delete_invoice_items; keeps_step |]. intros _.
    apply keeps_bind; [unfold delete_invoice_row; keeps_step |]. intros _.
    apply update_subsequent_invoice_balances_keeps_stock. }
  specialize (H d).
  match goal with
  | |- context [match ?work d with _ => _ end] => destruct (work d) as [u d' | e]
  end; [| reflexivity].
  rewrite calculate_current_party_balance_run. exact H.
Qed.

Lemma record_payment_api_keeps_stock (p : string) (a : Q) (dt rm : string) (d : db) :
  stock_side (snd (record_payment_api p a dt rm d)) = stock_side d.
Proof.
  unfold record_payment_api.
  destruct (blank p || blank dt); [reflexivity |].
  destruct (Qle_bool a 0); [reflexivity |]. cbv zeta.
  match goal with
  | |- context [match ?work d with _ => _ end] =>
      assert (H : keeps stock_side work)
  end.
  { apply keeps_bind; [apply ensure_party_keeps_stock |]. intros _.
    intros d0. reflexivity. }
  specialize (H d).
  match goal with
  | |- context [match ?work d with _ => _ end] => destruct (work d) as [u d' | e]
  end; [| reflexivity].
  rewrite calculate_current_party_balance_run. exact H.
Qed.

Lemma delete_payment_keeps_stock (i : Z) (d : db) :
  stock_side (snd (delete_payment i d)) = stock_side d.
Proof.
  rewrite delete_payment_run. destruct (find _ (payments d)); reflexivity.
Qed.

Lemma take_from_batches_keeps_ledger (l : list Stock.t) (rem : Q) :
  keeps ledger_side (take_from_batches l rem).
Proof.
  revert rem. induction l as [| b l IH]; intros rem; cbn [take_from_batches].
  - apply keeps_ret.
  - destruct (Qle_bool rem 0); [apply keeps_ret |]. cbv zeta.
    apply keeps_bind; [unfold update_stock_quantity; keeps_step | intros _; apply IH].
Qed.

Lemma deduct_items_keeps_ledger (items : list Deduction.t) (errors : list shortage) :
  keeps ledger_side (deduct_items items errors).
Proof.
  revert errors. induction items as [| r rest IH]; intros errors; cbn [deduct_items].
  - apply keeps_ret.
  - cbv zeta. destruct (blank _ || Qle_bool _ 0); [apply IH |].
    apply keeps_bind; [apply keeps_query |]. intros total.
    destruct (Qltb _ _); [apply IH |].
    apply keeps_bind; [apply keeps_query |]. intros batches.
    apply keeps_bind; [apply take_from_batches_keeps_ledger | intros _; apply IH].
Qed.

Lemma deduct_stock_api_keeps_ledger (items : list Deduction.t) (d : db) :
  ledger_side (snd (deduct_stock_api items d)) = ledger_side d.
Proof.
  unfold deduct_stock_api. destruct items as [| r rest]; [reflexivity |].
  pose proof (deduct_items_keeps_ledger (r :: rest) [] d) as H.
  destruct (deduct_items (r :: rest) [] d) as [[| e errors] d' | e]; cbn;
    [exact H | reflexivity | reflexivity].
Qed.

Lemma add_stock_batch_work_keeps_ledger (items : list StockItem.t) :
  keeps ledger_side (add_stock_batch_work items).
Proof.
  unfold add_stock_batch_work.
  assert (H : forall acc : sql nat,
             keeps ledger_side acc ->
             keeps ledger_side
               (fold_left
                  (fun (acc : sql nat) item =>
                     processed_count <- acc ;;
                     let product_name := StockItem.productName item in
                     let quantity := StockItem.quantity item in
                     if blank product_name || blank (StockItem.date item)
                        || Qle_bool quantity 0
                     then ret processed_count
                     else
                       insert_stock product_name (StockItem.batchNo item)
                                    (StockItem.date item) quantity ;;;
                       ret (S processed_count))
                  items acc)).
  { induction items as [| x xs IH]; intros acc Hacc; cbn [fold_left]; [exact Hacc |].
    apply IH. apply keeps_bind; [exact Hacc |]. intros n. cbv zeta.
    destruct (blank _ || blank _ || Qle_bool _ 0); [apply keeps_ret |].
    apply keeps_bind; [unfold insert_stock; keeps_step | intros _; apply keeps_ret]. }
  apply H, keeps_ret.
Qed.

Lemma add_stock_batch_api_keeps_ledger (items : list StockItem.t) (d : db) :
  ledger_side (snd (add_stock_batch_api items d)) = ledger_side d.
Proof.
  unfold add_stock_batch_api. destruct items as [| x xs]; [reflexivity |].
  pose proof (add_stock_batch_work_keeps_ledger (x :: xs) d) as H.
  destruct (add_stock_batch_work (x :: xs) d); cbn; [exact H | reflexivity].
Qed.

Lemma ledger_request_keeps_stock (r : request) (d : db) :
  is_stock_request r = false -> stock_side (snd (handle r d)) = stock_side d.
Proof.
  intros Hr. destruct r; try discriminate Hr; cbn [handle].
  - apply create_invoice_api_keeps_stock.
  - apply update_invoice_api_keeps_stock.
  - apply delete_invoice_keeps_stock.
  - apply record_payment_api_keeps_stock.
  - apply delete_payment_keeps_stock.
Qed.

Lemma stock_request_keeps_ledger (r : request) (d : db) :
  is_stock_request r = true -> ledger_side (snd (handle r d)) = ledger_side d.
Proof.
  intros Hr. destruct r; try discriminate Hr; cbn [handle].
  - apply add_stock_batch_api_keeps_ledger.
  - apply deduct_stock_api_keeps_ledger.
Qed.

(** X1.  A ledger request (creating, updating or deleting an invoice,
    recording or deleting a payment) leaves every stock batch and the stock
    rowid counter as they were, whatever its outcome; a stock request (adding
    batches, deducting) leaves parties, invoices, invoice items, payments and
    their rowid counters as they were, and so every party balance. *)
Theorem ledger_and_stock_are_independent :
  forall (r : request) (d : db),
    (is_stock_request r = false ->
     stock (snd (handle r d)) = stock d
     /\ seq_stock (sqlite_sequence (snd (handle r d))) = seq_stock (sqlite_sequence d))
    /\ (is_stock_request r = true ->
        parties (snd (handle r d)) = parties d
        /\ invoices (snd (handle r d)) = invoices d
        /\ invoice_items (snd (handle r d)) = invoice_items d
        /\ payments (snd (handle r d)) = payments d
        /\ forall party_name : string,
             calculate_current_party_balance party_name (snd (handle r d))
             = Done (current_balance party_name d) (snd (handle r d))).
Proof.
  intros r d. split; intros Hr.
  - pose proof (ledger_request_keeps_stock r d Hr) as H.
    unfold stock_side in H. injection H as H1 H2. auto.
  - pose proof (stock_request_keeps_ledger r d Hr) as H.
    unfold ledger_side in H. injection H as H1 H2 H3 H4 _.
    repeat split; try assumption.
    intros party_name. rewrite calculate_current_party_balance_run.
    unfold current_balance, opening_balance, invoices_total, payments_total,
      party_invoices, party_payments. rewrite H1, H2, H4. reflexivity.
Qed.

Lemma ledger_and_stock_are_independent_witness :
  stock (snd (handle (DeleteInvoice "30") acme_before_update))
  = stock acme_before_update
  /\ invoices (snd (handle (DeductStock [Deduction.mk "A" 3]) acme_before_update))
     = invoices acme_before_update.
Proof.
  split.
  - apply (ledger_and_stock_are_independent (DeleteInvoice "30") acme_before_update).
    reflexivity.
  - apply (ledger_and_stock_are_independent
             (DeductStock [Deduction.mk "A" 3]) acme_before_update).
    reflexivity.
Defined.

(** ** Stock quantities never go below zero *)

Lemma py_min_le (a b : Q) : (py_min a b <= a)%Q.
Proof.
  destruct (py_min_cases a b) as [[-> H] | [-> H]]; lra.
Qed.

Lemma take_from_batches_nonneg (l : list Stock.t) (rem : Q) :
  hoare stock_nonneg (take_from_batches l rem) (fun _ => stock_nonneg).
Proof.
  revert rem. induction l as [| b l IH]; intros rem; cbn [take_from_batches].
  - intros d H. exact H.
  - destruct (Qle_bool rem 0); [intros d H; exact H |]. cbv zeta.
    eapply hoare_bind; [| intros u; apply IH].
    apply hoare_modify. intros d H c Hc. cbn in Hc.
    apply in_map_iff in Hc. destruct Hc as [c0 [Hc0 Hin]].
    destruct (Stock.id c0 =? Stock.id b).
    + subst c. cbn. pose proof (py_min_le (Stock.quantity b) rem). lra.
    + subst c. apply H, Hin.
Qed.

Lemma deduct_items_nonneg (items : list Deduction.t) (errors : list shortage) :
  hoare stock_nonneg (deduct_items items errors) (fun _ => stock_nonneg).
Proof.
  revert errors. induction items as [| r rest IH]; intros errors; cbn [deduct_items].
  - intros d H. exact H.
  - cbv zeta. destruct (blank _ || Qle_bool _ 0); [apply IH |].
    eapply hoare_bind; [apply hoare_query |]. intros total. cbv beta.
    destruct (Qltb _ _).
    + eapply hoare_conseq; [apply IH | intros d [_ H]; exact H | auto].
    + eapply hoare_bind; [apply hoare_query |]. intros batches. cbv beta.
      eapply hoare_bind; [| intros u; apply IH].
      eapply hoare_conseq; [apply take_from_batches_nonneg | | ].
      * intros d [_ [_ H]]. exact H.
      * intros a d H. exact H.
Qed.

Lemma add_stock_batch_work_nonneg (items : list StockItem.t) :
  hoare stock_nonneg (add_stock_batch_work items) (fun _ => stock_nonneg).
Proof.
  unfold add_stock_batch_work.
  assert (H : forall acc : sql nat,
             hoare stock_nonneg acc (fun _ => stock_nonneg) ->
             hoare stock_nonneg
               (fold_left
                  (fun (acc : sql nat) item =>
                     processed_count <- acc ;;
                     let product_name := StockItem.productName item in
                     let quantity := StockItem.quantity item in
                     if blank product_name || blank (StockItem.date item)
                        || Qle_bool quantity 0
                     then ret processed_count
                     else
                       insert_stock product_name (StockItem.batchNo item)
                                    (StockItem.date item) quantity ;;;
                       ret (S processed_count))
                  items acc)
               (fun _ => stock_nonneg)).
  { induction items as [| x xs IH]; intros acc Hacc; cbn [fold_left]; [exact Hacc |].
    apply IH. eapply hoare_bind; [exact Hacc |]. intros n. cbv zeta beta.
    destruct (blank (StockItem.productName x) || blank (StockItem.date x)) eqn:Hb;
      cbn [orb]; [intros d Hd; exact Hd |].
    destruct (Qle_bool (StockItem.quantity x) 0) eqn:Hq; [intros d Hd; exact Hd |].
    eapply hoare_bind with (Q := fun _ => stock_nonneg);
      [| intros u d Hd; exact Hd].
    apply hoare_modify. intros d Hd b Hb'. cbn in Hb'.
    apply in_app_iff in Hb'. destruct Hb' as [Hb' | [<- | []]]; [apply Hd, Hb' |].
    cbn. apply Qle_bool_false in Hq. lra. }
  apply H. intros d Hd. exact Hd.
Qed.

Lemma handle_stock_nonneg (r : request) (d : db) :
  stock_nonneg d -> stock_nonneg (snd (handle r d)).
Proof.
  intros H. destruct (is_stock_request r) eqn:Hr.
  - destruct r; try discriminate Hr; cbn [handle].
    + unfold add_stock_batch_api. destruct items_to_add as [| x xs]; [exact H |].
      pose proof (add_stock_batch_work_nonneg (x :: xs) d H) as Hw.
      destruct (add_stock_batch_work (x :: xs) d); cbn; [exact Hw | exact H].
    + unfold deduct_stock_api. destruct items_to_deduct as [| x xs]; [exact H |].
      pose proof (deduct_items_nonneg (x :: xs) [] d H) as Hw.
      destruct (deduct_items (x :: xs) [] d) as [[| e errors] d' | e]; cbn;
        [exact Hw | exact H | exact H].
  - pose proof (ledger_request_keeps_stock r d Hr) as Hs.
    unfold stock_side in Hs. injection Hs as Hstock _.
    unfold stock_nonneg. rewrite Hstock. exact H.
Qed.

(** X2.  No request ever leaves a batch with a negative quantity: from a store
    whose batch quantities are all non-negative (the empty store in
    particular), every history of requests leads to such a store. *)
Theorem stock_quantities_stay_non_negative :
  forall (history : list request) (d : db),
    (forall b, In b (stock d) -> (0 <= Stock.quantity b)%Q) ->
    forall b, In b (stock (serve history d)) -> (0 <= Stock.quantity b)%Q.
Proof.
  intros history. induction history as [| r rs IH]; intros d H; cbn.
  - exact H.
  - apply IH. apply handle_stock_nonneg. exact H.
Qed.

Lemma stock_quantities_stay_non_negative_witness :
  Forall (fun b => (0 <= Stock.quantity b)%Q)
         (stock (serve [DeductStock [Deduction.mk "A" 7]] two_batch_store)).
Proof.
  apply Forall_forall.
  apply (stock_quantities_stay_non_negative
           [DeductStock [Deduction.mk "A" 7]] two_batch_store).
  intros b Hb. vm_compute in Hb.
  destruct Hb as [<- | [<- | []]]; vm_compute; discriminate.
Defined.
(** ** Creating an invoice *)

Lemma existsb_find_some {A} (f : A -> bool) (l : list A) :
  existsb f l = true -> exists x, find f l = Some x.
Proof.
  intros H. destruct (find f l) as [x |] eqn:Hf; [exists x; reflexivity |].
  rewrite (find_none_existsb _ _ Hf) in H. discriminate H.
Qed.

Lemma ensure_party_exact (p : string) (d : db) :
  ensure_party p d = Done tt (with_party p d).
Proof.
  unfold ensure_party, select_party, with_party. rewrite bind_query.
  destruct (find _ (parties d)) as [x |] eqn:Hf.
  - rewrite (find_some_existsb _ _ _ Hf). reflexivity.
  - unfold bind, insert_party. rewrite (find_none_existsb _ _ Hf). reflexivity.
Qed.

Lemma with_party_tables (p : string) (d : db) :
  invoices (with_party p d) = invoices d
  /\ invoice_items (with_party p d) = invoice_items d
  /\ payments (with_party p d) = payments d
  /\ stock (with_party p d) = stock d
  /\ seq_invoices (sqlite_sequence (with_party p d)) = seq_invoices (sqlite_sequence d)
  /\ seq_invoice_items (sqlite_sequence (with_party p d))
     = seq_invoice_items (sqlite_sequence d)
  /\ seq_payments (sqlite_sequence (with_party p d)) = seq_payments (sqlite_sequence d).
Proof.
  unfold with_party. destruct (existsb _ (parties d)); repeat split; reflexivity.
Qed.

Lemma opening_balance_with_party (p p' : string) (d : db) :
  opening_balance p' (with_party p d) = opening_balance p' d.
Proof.
  unfold with_party, opening_balance.
  destruct (existsb _ (parties d)) eqn:Hex; [reflexivity |]. cbn [parties].
  rewrite find_app_list.
  destruct (find (fun q => String.eqb (Party.name q) p') (parties d)) as [x |] eqn:Hf;
    [reflexivity |].
  cbn. destruct (String.eqb p p'); reflexivity.
Qed.

Lemma raw_balance_with_party (p p' : string) (d : db) :
  raw_balance p' (with_party p d) = raw_balance p' d.
Proof.
  unfold raw_balance, invoices_total, payments_total, party_invoices, party_payments.
  rewrite opening_balance_with_party.
  destruct (with_party_tables p d) as [-> [_ [-> _]]]. reflexivity.
Qed.

Lemma current_balance_with_party (p p' : string) (d : db) :
  current_balance p' (with_party p d) = current_balance p' d.
Proof. apply (f_equal round2 (raw_balance_with_party p p' d)). Qed.

Lemma with_party_has_party (p : string) (d : db) : has_party p (with_party p d).
Proof.
  unfold has_party, with_party.
  destruct (existsb _ (parties d)) eqn:Hex; [exact Hex |]. cbn.
  rewrite existsb_app. cbn. rewrite String.eqb_refl. apply orb_true_r.
Qed.

Lemma insert_items_exact (i : Z) (items : list Item.t) (d : db) :
  insert_items i items d = Done tt (with_items i items d).
Proof.
  unfold insert_items. revert d. induction items as [| it rest IH]; intros d;
    cbn [for_each].
  - unfold ret, with_items. cbn. rewrite app_nil_r, Z.add_0_r.
    destruct d as [? ? ? ? ? []]. reflexivity.
  - unfold insert_invoice_item at 1. rewrite bind_modify, IH.
    unfold with_items. cbn [parties invoices invoice_items payments stock
                            sqlite_sequence seq_parties seq_invoices
                            seq_invoice_items seq_payments seq_stock
                            item_rows List.length].
    rewrite <- app_assoc. cbn [app]. do 3 f_equal. lia.
Qed.

Lemma invoice_row_none_existsb (n : string) (d : db) :
  invoice_row n d = None ->
  existsb (fun i => String.eqb (Invoice.invoice_number i) n) (invoices d) = false.
Proof. apply find_none_existsb. Qed.

(** The store an accepted creation commits. *)
Lemma create_invoice_work_exact (p dt n : string) (items : list Item.t) (d : db) :
  invoice_row n d = None ->
  create_invoice_work p dt n items d
  = Done (current_balance p d + items_total items)%Q
      (with_items (seq_invoices (sqlite_sequence d) + 1) items
         (mk_db (parties (with_party p d))
                (invoices d ++ [created_row p dt n items d])
                (invoice_items d) (payments d) (stock d)
                (mk_sequence (seq_parties (sqlite_sequence (with_party p d)))
                             (seq_invoices (sqlite_sequence d) + 1)
                             (seq_invoice_items (sqlite_sequence d))
                             (seq_payments (sqlite_sequence d))
                             (seq_stock (sqlite_sequence d))))).
Proof.
  intros Hfree. apply invoice_row_none_existsb in Hfree.
  unfold create_invoice_work.
  rewrite (bind_done _ _ _ _ _ (ensure_party_exact p d)).
  rewrite (bind_done _ _ _ _ _ (calculate_current_party_balance_run p (with_party p d))).
  rewrite current_balance_with_party.
  unfold bind at 1. unfold insert_invoice.
  destruct (with_party_tables p d) as [Hi [Hit [Hpay [Hst [Hsi [Hsit Hsp]]]]]].
  rewrite Hi, Hfree.
  rewrite (bind_done _ _ _ _ _ (insert_items_exact _ _ _)).
  unfold ret, created_row. rewrite Hit, Hpay, Hst, Hsi, Hsit, Hsp.
  assert (Hss : seq_stock (sqlite_sequence (with_party p d))
                = seq_stock (sqlite_sequence d)).
  { unfold with_party. destruct (existsb _ (parties d)); reflexivity. }
  rewrite Hss. reflexivity.
Qed.

Lemma create_invoice_work_duplicate (p dt n : string) (items : list Item.t) (d : db) :
  invoice_row n d <> None ->
  create_invoice_work p dt n items d
  = Raised (IntegrityError "UNIQUE constraint failed: invoices.invoice_number").
Proof.
  intros Hdup. unfold create_invoice_work.
  rewrite (bind_done _ _ _ _ _ (ensure_party_exact p d)).
  rewrite (bind_done _ _ _ _ _ (calculate_current_party_balance_run p (with_party p d))).
  apply bind_raised. unfold insert_invoice.
  destruct (with_party_tables p d) as [Hi _]. rewrite Hi.
  rewrite (invoice_row_existsb n d Hdup). reflexivity.
Qed.



Lemma get_party_balance_for_invoice_exact (p : string) (d : db) :
  get_party_balance_for_invoice p d
  = (if blank p then BadRequest "Party name is required"
     else PartyBalance (current_balance p d) (opening_balance p d), d).
Proof.
  unfold get_party_balance_for_invoice. destruct (blank p); [reflexivity |].
  unfold select_party. rewrite bind_query.
  rewrite (bind_done _ _ _ _ _ (calculate_current_party_balance_run p d)).
  reflexivity.
Qed.

(** X4.  The balance the party-balance query returns for a party is the
    previous balance the next invoice created for that party is stamped with,
    also when the party does not exist yet: after an accepted creation the row
    stored under the new number carries exactly that balance, and its grand
    total is that balance plus the invoice total. *)
Theorem queried_balance_is_next_previous_balance :
  forall (p dt n : string) (items : list Item.t) (d : db),
    well_formed_invoice_request p dt n items -> invoice_row n d = None ->
    exists (balance opening : Q) (row : Invoice.t),
      get_party_balance_for_invoice p d = (PartyBalance balance opening, d)
      /\ invoice_row n (snd (create_invoice_api p dt n items d)) = Some row
      /\ Invoice.previous_balance row = balance
      /\ Invoice.grand_total row = (balance + items_total items)%Q
      /\ Invoice.party_name row = p /\ Invoice.date row = dt.
Proof.
  intros p dt n items d Hwf Hfree.
  exists (current_balance p d), (opening_balance p d), (created_row p dt n items d).
  split.
  - rewrite get_party_balance_for_invoice_exact.
    destruct Hwf as [-> _]. reflexivity.
  - destruct Hwf as [H1 [H2 [H3 H4]]]. unfold create_invoice_api.
    rewrite H1, H2, H3. cbn [orb]. destruct items as [| it items]; [congruence |].
    rewrite (create_invoice_work_exact p dt n (it :: items) d Hfree). cbn [snd].
    split; [| repeat split; reflexivity].
    unfold invoice_row in *. cbn [invoices with_items]. rewrite find_app_list, Hfree.
    cbn. rewrite String.eqb_refl. reflexivity.
Qed.

Lemma queried_balance_is_next_previous_balance_witness :
  exists row : Invoice.t,
    get_party_balance_for_invoice "Acme" acme_before_update
    = (PartyBalance 90 0, acme_before_update)
    /\ invoice_row "32" (snd (create_invoice_api "Acme" "2024-01-05" "32" [item 10]
                                acme_before_update)) = Some row
    /\ Invoice.previous_balance row = 90%Q.
Proof.
  destruct (queried_balance_is_next_previous_balance
              "Acme" "2024-01-05" "32" [item 10] acme_before_update)
    as [balance [opening [row [Hq [Hrow [Hprev _]]]]]].
  - repeat split; discriminate.
  - vm_compute. reflexivity.
  - exists row.
    assert (Hq' : get_party_balance_for_invoice "Acme" acme_before_update
                  = (PartyBalance 90 0, acme_before_update))
      by (vm_compute; reflexivity).
    rewrite Hq' in Hq. injection Hq as Hb Ho.
    split; [exact Hq' |]. split; [exact Hrow |]. rewrite Hprev. symmetry. exact Hb.
Defined.

(** ** How requests move the balances *)

Lemma Qsum_snoc (l : list Q) (x : Q) : Qsum (l ++ [x]) = (Qsum l + x)%Q.
Proof. unfold Qsum. rewrite fold_left_app. reflexivity. Qed.

Lemma opening_balance_parties (p : string) (d d' : db) :
  parties d' = parties d -> opening_balance p d' = opening_balance p d.
Proof. unfold opening_balance. intros ->. reflexivity. Qed.

(** X5.  An accepted creation raises the balance of the invoice's party,
    before rounding, by exactly the invoice total, and leaves the balance of
    every other party as it was. *)
Theorem create_invoice_moves_one_balance :
  forall (p dt n : string) (items : list Item.t) (d : db),
    well_formed_invoice_request p dt n items -> invoice_row n d = None ->
    (raw_balance p (snd (create_invoice_api p dt n items d))
     == raw_balance p d + items_total items)%Q
    /\ forall p', p' <> p ->
         raw_balance p' (snd (create_invoice_api p dt n items d)) = raw_balance p' d
         /\ calculate_current_party_balance p' (snd (create_invoice_api p dt n items d))
            = Done (current_balance p' d) (snd (create_invoice_api p dt n items d)).
Proof.
  intros p dt n items d [H1 [H2 [H3 H4]]] Hfree. unfold create_invoice_api.
  rewrite H1, H2, H3. cbn [orb]. destruct items as [| it items]; [congruence |].
  rewrite (create_invoice_work_exact p dt n (it :: items) d Hfree). cbn [snd].
  set (d' := with_items _ _ _).
  assert (Hopen : forall q, opening_balance q d' = opening_balance q d).
  { intros q. rewrite <- (opening_balance_with_party p q d).
    apply opening_balance_parties. reflexivity. }
  assert (Hpay : forall q, payments_total q d' = payments_total q d) by reflexivity.
  assert (Hinv : forall q,
             invoices_total q d'
             = if String.eqb p q
               then (invoices_total q d + items_total (it :: items))%Q
               else invoices_total q d).
  { intros q. unfold invoices_total, party_invoices. subst d'.
    cbn [invoices with_items]. unfold created_row. rewrite filter_app.
    cbn [filter Invoice.party_name].
    destruct (String.eqb p q).
    - rewrite map_app. cbn [map]. rewrite Qsum_snoc. reflexivity.
    - rewrite app_nil_r. reflexivity. }
  split.
  - unfold raw_balance. rewrite Hopen, Hpay, Hinv, String.eqb_refl. lra.
  - intros p' Hne.
    assert (Hraw : raw_balance p' d' = raw_balance p' d).
    { unfold raw_balance. rewrite Hopen, Hpay, Hinv.
      assert (Hf : String.eqb p p' = false) by (apply String.eqb_neq; congruence).
      rewrite Hf. reflexivity. }
    split; [exact Hraw |].
    rewrite calculate_current_party_balance_run.
    unfold current_balance. fold (raw_balance p' d'). fold (raw_balance p' d).
    rewrite Hraw. reflexivity.
Qed.

Lemma create_invoice_moves_one_balance_witness :
  (raw_balance "Acme" (snd (create_invoice_api "Acme" "2024-01-05" "32" [item 10]
                              acme_before_update))
   == raw_balance "Acme" acme_before_update + items_total [item 10])%Q.
Proof.
  apply (create_invoice_moves_one_balance
           "Acme" "2024-01-05" "32" [item 10] acme_before_update).
  - repeat split; discriminate.
  - vm_compute. reflexivity.
Defined.
Lemma filter_comm {A} (P Q : A -> bool) (l : list A) :
  filter P (filter Q l) = filter Q (filter P l).
Proof.
  induction l as [| x l IH]; cbn; [reflexivity |].
  destruct (P x) eqn:HP, (Q x) eqn:HQ; cbn; rewrite ?HP, ?HQ, IH; reflexivity.
Qed.

Lemma filter_all {A} (Q : A -> bool) (l : list A) :
  (forall x, In x l -> Q x = true) -> filter Q l = l.
Proof.
  induction l as [| x l IH]; intros H; cbn; [reflexivity |].
  rewrite (H x (or_introl eq_refl)). f_equal. apply IH.
  intros y Hy. apply H. right. exact Hy.
Qed.

(** Taking the row of a key out of a table lowers a sum over the table by the
    row's term. *)
Lemma Qsum_without {A} (key : A -> Z) (f : A -> Q) (l : list A) (r : A) :
  NoDup (map key l) -> In r l ->
  (Qsum (map f (filter (fun x => negb (key x =? key r)) l)) == Qsum (map f l) - f r)%Q.
Proof.
  induction l as [| x l IH]; intros Hnd Hin; [contradiction |].
  inversion Hnd as [| ? ? Hnotin Hnd']; subst. cbn [filter map].
  destruct Hin as [-> | Hin].
  - rewrite Z.eqb_refl. cbn [negb]. rewrite Qsum_cons.
    rewrite filter_all; [lra |].
    intros y Hy. apply negb_true_iff, Z.eqb_neq. intros Heq.
    apply Hnotin. rewrite <- Heq. apply in_map, Hy.
  - destruct (key x =? key r) eqn:Heq.
    + apply Z.eqb_eq in Heq. exfalso. apply Hnotin. rewrite Heq. apply in_map, Hin.
    + cbn [negb map]. rewrite !Qsum_cons, (IH Hnd' Hin). lra.
Qed.

(** ** Payments *)

Lemma record_payment_api_exact (p : string) (a : Q) (dt rm : string) (d : db) :
  record_payment_api p a dt rm d
  = if blank p || blank dt
    then (BadRequest "Missing required payment data (partyName, amount, date).", d)
    else if Qle_bool a 0
    then (BadRequest "Payment amount must be positive.", d)
    else
      let d1 := with_party p d in
      let s := sqlite_sequence d1 in
      let d' :=
        mk_db (parties d1) (invoices d1) (invoice_items d1)
              (payments d1 ++ [Payment.mk (seq_payments s + 1) p a dt rm]) (stock d1)
              (mk_sequence (seq_parties s) (seq_invoices s) (seq_invoice_items s)
                           (seq_payments s + 1) (seq_stock s)) in
      (PaymentRecorded (seq_payments s + 1) (current_balance p d'), d').
Proof.
  unfold record_payment_api.
  destruct (blank p || blank dt); [reflexivity |].
  destruct (Qle_bool a 0); [reflexivity |]. cbv zeta.
  rewrite (bind_done _ _ _ _ _ (ensure_party_exact p d)).
  unfold insert_payment. rewrite calculate_current_party_balance_run. reflexivity.
Qed.

(** X6.  [record_payment_api] rejects a blank party or date and a
    non-positive amount with 400 and an unchanged store.  Otherwise it appends
    one payment row with the next rowid, touches no invoice row and no invoice
    item, reports the party's balance computed after the insertion, lowers
    that party's balance before rounding by exactly the amount, and leaves
    every other party's balance as it was. *)
Theorem record_payment_outcomes :
  forall (p : string) (a : Q) (dt rm : string) (d : db),
    (blank p = true \/ blank dt = true \/ (a <= 0)%Q ->
     exists msg, record_payment_api p a dt rm d = (BadRequest msg, d))
    /\ (blank p = false -> blank dt = false -> (0 < a)%Q ->
        payments (snd (record_payment_api p a dt rm d))
        = payments d ++ [Payment.mk (seq_payments (sqlite_sequence d) + 1) p a dt rm]
        /\ invoices (snd (record_payment_api p a dt rm d)) = invoices d
        /\ invoice_items (snd (record_payment_api p a dt rm d)) = invoice_items d
        /\ fst (record_payment_api p a dt rm d)
           = PaymentRecorded (seq_payments (sqlite_sequence d) + 1)
               (current_balance p (snd (record_payment_api p a dt rm d)))
        /\ (raw_balance p (snd (record_payment_api p a dt rm d))
            == raw_balance p d - a)%Q
        /\ forall p', p' <> p ->
             raw_balance p' (snd (record_payment_api p a dt rm d)) = raw_balance p' d).
Proof.
  intros p a dt rm d. rewrite record_payment_api_exact. split.
  - intros H. destruct (blank p || blank dt) eqn:Hb; [eexists; reflexivity |].
    destruct (Qle_bool a 0) eqn:Ha; [eexists; reflexivity |].
    exfalso. apply orb_false_iff in Hb. destruct Hb as [H1 H2].
    apply Qle_bool_false in Ha.
    destruct H as [H | [H | H]]; [congruence | congruence | lra].
  - intros H1 H2 Ha. rewrite H1, H2. cbn [orb].
    assert (Hle : Qle_bool a 0 = false) by (apply Qle_bool_false; exact Ha).
    rewrite Hle. cbv zeta. cbn [fst snd].
    destruct (with_party_tables p d) as [Hi [Hit [Hpay [Hst [Hsi [Hsit Hsp]]]]]].
    rewrite Hi, Hit, Hpay, Hsp.
    split; [reflexivity |]. split; [reflexivity |]. split; [reflexivity |].
    split; [reflexivity |].
    set (d' := mk_db _ _ _ _ _ _).
    assert (Hopen : forall q, opening_balance q d' = opening_balance q d).
    { intros q. rewrite <- (opening_balance_with_party p q d).
      apply opening_balance_parties. reflexivity. }
    assert (Hinv : forall q, invoices_total q d' = invoices_total q d) by reflexivity.
    assert (Hpt : forall q,
               payments_total q d'
               = if String.eqb p q then (payments_total q d + a)%Q
                 else payments_total q d).
    { intros q. unfold payments_total, party_payments. subst d'. cbn [payments].
      rewrite filter_app. cbn [filter Payment.party_name].
      destruct (String.eqb p q).
      - rewrite map_app. cbn [map]. rewrite Qsum_snoc. reflexivity.
      - rewrite app_nil_r. reflexivity. }
    split.
    + unfold raw_balance. rewrite Hopen, Hinv, Hpt, String.eqb_refl. lra.
    + intros p' Hne. unfold raw_balance. rewrite Hopen, Hinv, Hpt.
      assert (Hf : String.eqb p p' = false) by (apply String.eqb_neq; congruence).
      rewrite Hf. reflexivity.
Qed.

Lemma record_payment_outcomes_witness :
  (raw_balance "Acme" (snd (record_payment_api "Acme" 25 "2024-01-04" EmptyString
                              acme_before_update))
   == raw_balance "Acme" acme_before_update - 25)%Q
  /\ exists msg,
       record_payment_api "Acme" 0 "2024-01-04" EmptyString acme_before_update
       = (BadRequest msg, acme_before_update).
Proof.
  split.
  - apply (record_payment_outcomes "Acme" 25 "2024-01-04" EmptyString acme_before_update);
      reflexivity.
  - apply (record_payment_outcomes "Acme" 0 "2024-01-04" EmptyString acme_before_update).
    right. right. vm_compute. discriminate.
Defined.

(** X7.  On a payments table with distinct rowids, deleting a stored payment
    removes that row, answers with the party's balance computed afterwards,
    raises that party's balance before rounding by exactly the payment's
    amount and leaves every other party's balance as it was; the rowid is not
    found afterwards. *)
Theorem delete_payment_gives_amount_back :
  forall (i : Z) (pay : Payment.t) (d : db),
    NoDup (map Payment.id (payments d)) ->
    find (fun x => Payment.id x =? i) (payments d) = Some pay ->
    fst (delete_payment i d)
    = PaymentDeleted (Payment.party_name pay)
        (current_balance (Payment.party_name pay) (snd (delete_payment i d)))
    /\ find (fun x => Payment.id x =? i) (payments (snd (delete_payment i d))) = None
    /\ (raw_balance (Payment.party_name pay) (snd (delete_payment i d))
        == raw_balance (Payment.party_name pay) d + Payment.amount pay)%Q
    /\ forall p', p' <> Payment.party_name pay ->
         raw_balance p' (snd (delete_payment i d)) = raw_balance p' d.
Proof.
  intros i pay d Hnd Hfind. rewrite delete_payment_run, Hfind. cbv zeta. cbn [fst snd].
  pose proof (find_some _ _ Hfind) as [Hin Hid]. apply Z.eqb_eq in Hid. subst i.
  split; [reflexivity |]. split.
  - cbn [payments set_payments].
    destruct (find _ (filter _ (payments d))) as [x |] eqn:Hx; [| reflexivity].
    apply find_some in Hx. destruct Hx as [Hx Hxi]. apply filter_In in Hx.
    destruct Hx as [_ Hx]. rewrite Hxi in Hx. discriminate Hx.
  - set (d' := set_payments _ d).
    assert (Hopen : forall q, opening_balance q d' = opening_balance q d) by reflexivity.
    assert (Hinv : forall q, invoices_total q d' = invoices_total q d) by reflexivity.
    split.
    + unfold raw_balance. rewrite Hopen, Hinv.
      unfold payments_total, party_payments. subst d'. cbn [payments set_payments].
      rewrite filter_comm.
      rewrite (Qsum_without Payment.id Payment.amount _ pay).
      * lra.
      * apply NoDup_map_filter, Hnd.
      * apply filter_In. split; [exact Hin | apply String.eqb_refl].
    + intros p' Hne. unfold raw_balance. rewrite Hopen, Hinv.
      unfold payments_total, party_payments. subst d'. cbn [payments set_payments].
      rewrite filter_comm. rewrite filter_all; [reflexivity |].
      intros x Hx. apply filter_In in Hx. destruct Hx as [Hx Hp].
      apply negb_true_iff, Z.eqb_neq. intros Heq.
      assert (x = pay) by (apply (NoDup_map_inj Payment.id (payments d) x pay
                                    Hnd Hx Hin Heq)).
      subst x. apply String.eqb_eq in Hp. congruence.
Qed.

Lemma delete_payment_gives_amount_back_witness :
  (raw_balance "Acme" (snd (delete_payment 1 acme_before_update))
   == raw_balance "Acme" acme_before_update + 60)%Q.
Proof.
  assert (Hnd : NoDup (map Payment.id (payments acme_before_update))).
  { vm_compute. repeat constructor; cbn; intuition discriminate. }
  assert (Hfind : find (fun x => Payment.id x =? 1) (payments acme_before_update)
                  = Some (Payment.mk 1 "Acme" 60 "2024-01-03" EmptyString))
    by (vm_compute; reflexivity).
  apply (delete_payment_gives_amount_back 1 _ acme_before_update Hnd Hfind).
Defined.
(** ** Deleting an invoice *)

Lemma pass_run (q sd sn : string) (d : db) :
  NoDup (map Invoice.id (invoices d)) ->
  update_subsequent_invoice_balances q sd sn d = Done tt (pass q sd sn d).
Proof. apply update_subsequent_invoice_balances_run. Qed.

Lemma find_map_pred {A} (P : A -> bool) (f : A -> A) (l : list A) :
  (forall x, P (f x) = P x) -> find P (map f l) = option_map f (find P l).
Proof.
  intros H. induction l as [| x l IH]; cbn; [reflexivity |].
  rewrite H. destruct (P x); [reflexivity | exact IH].
Qed.

Lemma stamp_row_outside (l rows : list Invoice.t) (start : Q) (i : Invoice.t) :
  NoDup (map Invoice.id rows) -> incl l rows -> In i rows -> ~ In i l ->
  stamp_row (stamps l start) i = i.
Proof.
  intros Hnd Hincl Hi Hout. unfold stamp_row.
  rewrite assoc_stamps_none; [reflexivity |].
  intros Hin. apply in_map_iff in Hin. destruct Hin as [c [Hid Hc]].
  assert (c = i)
    by (apply (NoDup_map_inj Invoice.id rows c i Hnd (Hincl c Hc) Hi Hid)).
  subst c. exact (Hout Hc).
Qed.

(** A pass leaves alone every row of another party and every row that is not
    after the cutoff. *)
Lemma pass_outside (q sd sn : string) (d : db) (i : Invoice.t) :
  NoDup (map Invoice.id (invoices d)) -> In i (invoices d) ->
  Invoice.party_name i <> q \/ after_cutoff sd sn i = false ->
  stamp_row (stamps (subsequent q sd sn d) (balance_before q sd sn d)) i = i.
Proof.
  intros Hnd Hi Hout. apply (stamp_row_outside _ (invoices d)); try assumption.
  - intros c Hc. apply subsequent_incl in Hc. tauto.
  - intros Hc. apply subsequent_incl in Hc. destruct Hc as [_ [Hp Ha]].
    destruct Hout as [Hout | Hout]; congruence.
Qed.

Lemma pass_tables (q sd sn : string) (d : db) :
  parties (pass q sd sn d) = parties d
  /\ invoice_items (pass q sd sn d) = invoice_items d
  /\ payments (pass q sd sn d) = payments d
  /\ map Invoice.id (invoices (pass q sd sn d)) = map Invoice.id (invoices d).
Proof.
  unfold pass. cbn. repeat split. rewrite map_map. apply map_ext.
  intros r. apply stamp_row_keys.
Qed.

Lemma totals_after_stamps (plan : list (Z * (Q * Q))) (q : string) (l : list Invoice.t) :
  map Invoice.total_amount
      (filter (fun i => String.eqb (Invoice.party_name i) q) (map (stamp_row plan) l))
  = map Invoice.total_amount
        (filter (fun i => String.eqb (Invoice.party_name i) q) l).
Proof.
  rewrite (filter_map_keys (fun i => String.eqb (Invoice.party_name i) q)).
  - rewrite map_map. apply map_ext. intros r. apply stamp_row_keys.
  - intros r. destruct (stamp_row_keys plan r) as [_ [_ [Hp _]]]. rewrite Hp. reflexivity.
Qed.

Lemma raw_balance_pass (q sd sn p : string) (d : db) :
  raw_balance p (pass q sd sn d) = raw_balance p d.
Proof.
  unfold raw_balance, invoices_total, party_invoices, pass. cbn [invoices set_invoices].
  rewrite totals_after_stamps. reflexivity.
Qed.

Lemma delete_invoice_exact (n : string) (r : Invoice.t) (d : db) :
  NoDup (map Invoice.id (invoices d)) ->
  invoice_row n d = Some r ->
  delete_invoice n d
  = (InvoiceDeleted (Invoice.party_name r)
       (current_balance (Invoice.party_name r)
          (pass (Invoice.party_name r) (Invoice.date r) (Invoice.invoice_number r)
                (without_invoice r d))),
     pass (Invoice.party_name r) (Invoice.date r) (Invoice.invoice_number r)
          (without_invoice r d)).
Proof.
  intros Hnd Hrow. unfold invoice_row in Hrow.
  unfold delete_invoice, select_invoice, query. rewrite Hrow. cbv zeta.
  unfold delete_invoice_items, delete_invoice_row. rewrite !bind_modify.
  fold (without_invoice r d).
  rewrite pass_run by (cbn; apply NoDup_map_filter, Hnd).
  rewrite calculate_current_party_balance_run. reflexivity.
Qed.

Lemma raw_balance_without_invoice (r : Invoice.t) (d : db) :
  NoDup (map Invoice.id (invoices d)) -> In r (invoices d) ->
  (raw_balance (Invoice.party_name r) (without_invoice r d)
   == raw_balance (Invoice.party_name r) d - Invoice.total_amount r)%Q
  /\ forall p', p' <> Invoice.party_name r ->
       raw_balance p' (without_invoice r d) = raw_balance p' d.
Proof.
  intros Hnd Hin.
  assert (Hopen : forall q, opening_balance q (without_invoice r d) = opening_balance q d)
    by reflexivity.
  assert (Hpay : forall q, payments_total q (without_invoice r d) = payments_total q d)
    by reflexivity.
  split.
  - unfold raw_balance. rewrite Hopen, Hpay.
    unfold invoices_total, party_invoices, without_invoice.
    cbn [invoices set_invoices]. rewrite filter_comm.
    rewrite (Qsum_without Invoice.id Invoice.total_amount _ r).
    + lra.
    + apply NoDup_map_filter, Hnd.
    + apply filter_In. split; [exact Hin | apply String.eqb_refl].
  - intros p' Hne. unfold raw_balance. rewrite Hopen, Hpay.
    unfold invoices_total, party_invoices, without_invoice.
    cbn [invoices set_invoices]. rewrite filter_comm. rewrite filter_all; [reflexivity |].
    intros x Hx. apply filter_In in Hx. destruct Hx as [Hx Hp].
    apply negb_true_iff, Z.eqb_neq. intros Heq.
    assert (x = r) by (apply (NoDup_map_inj Invoice.id (invoices d) x r Hnd Hx Hin Heq)).
    subst x. apply String.eqb_eq in Hp. congruence.
Qed.

(** X8.  On a store reached by any history, deleting a stored invoice removes
    its row and exactly its item rows, frees its number, answers with the
    party's balance computed afterwards, lowers that party's balance before
    rounding by exactly the invoice total, and leaves the balance and every
    invoice row of every other party as they were. *)
Theorem delete_invoice_effects :
  forall (history : list request) (n : string) (r : Invoice.t),
    invoice_row n (serve history empty_db) = Some r ->
    fst (delete_invoice n (serve history empty_db))
    = InvoiceDeleted (Invoice.party_name r)
        (current_balance (Invoice.party_name r)
                         (snd (delete_invoice n (serve history empty_db))))
    /\ invoice_row n (snd (delete_invoice n (serve history empty_db))) = None
    /\ invoice_items (snd (delete_invoice n (serve history empty_db)))
       = filter (fun it => negb (InvoiceItem.invoice_id it =? Invoice.id r))
                (invoice_items (serve history empty_db))
    /\ (raw_balance (Invoice.party_name r) (snd (delete_invoice n (serve history empty_db)))
        == raw_balance (Invoice.party_name r) (serve history empty_db)
           - Invoice.total_amount r)%Q
    /\ (forall p', p' <> Invoice.party_name r ->
          raw_balance p' (snd (delete_invoice n (serve history empty_db)))
          = raw_balance p' (serve history empty_db))
    /\ (forall m i, invoice_row m (serve history empty_db) = Some i ->
                    Invoice.party_name i <> Invoice.party_name r ->
                    invoice_row m (snd (delete_invoice n (serve history empty_db)))
                    = Some i).
Proof.
  intros history n r. set (d := serve history empty_db). intros Hrow.
  destruct (serve_consistent history empty_db empty_db_consistent) as [Hwf _].
  fold d in Hwf. pose proof (wf_invoice_ids d Hwf) as Hnd.
  pose proof (wf_invoice_numbers d Hwf) as Hnum.
  rewrite (delete_invoice_exact n r d Hnd Hrow). cbn [fst snd].
  assert (Hin : In r (invoices d) /\ Invoice.invoice_number r = n).
  { unfold invoice_row in Hrow. apply find_some in Hrow.
    split; [apply Hrow | apply String.eqb_eq, Hrow]. }
  destruct Hin as [Hin Hn].
  assert (Hnd1 : NoDup (map Invoice.id (invoices (without_invoice r d))))
    by (cbn; apply NoDup_map_filter, Hnd).
  split; [reflexivity |]. split; [| split; [| split; [| split]]].
  - unfold invoice_row, pass. cbn [invoices set_invoices].
    rewrite (find_map_pred (fun i => String.eqb (Invoice.invoice_number i) n))
      by (intros x; destruct (stamp_row_keys
                                (stamps (subsequent (Invoice.party_name r)
                                           (Invoice.date r) (Invoice.invoice_number r)
                                           (without_invoice r d))
                                        (balance_before (Invoice.party_name r)
                                           (Invoice.date r) (Invoice.invoice_number r)
                                           (without_invoice r d))) x)
                    as [_ [Hx _]]; rewrite Hx; reflexivity).
    destruct (find _ (invoices (without_invoice r d))) as [x |] eqn:Hx; [| reflexivity].
    apply find_some in Hx. destruct Hx as [Hx Hxn]. cbn in Hx.
    apply filter_In in Hx. destruct Hx as [Hx Hid]. apply String.eqb_eq in Hxn.
    assert (x = r)
      by (apply (NoDup_map_inj Invoice.invoice_number (invoices d) x r Hnum Hx Hin);
          congruence).
    subst x. rewrite Z.eqb_refl in Hid. discriminate Hid.
  - reflexivity.
  - rewrite raw_balance_pass. apply raw_balance_without_invoice; assumption.
  - intros p' Hne. rewrite raw_balance_pass.
    apply raw_balance_without_invoice; assumption.
  - intros m i Hm Hparty. unfold invoice_row in *. unfold pass.
    cbn [invoices set_invoices].
    rewrite (find_map_pred (fun i => String.eqb (Invoice.invoice_number i) m))
      by (intros x; destruct (stamp_row_keys
                                (stamps (subsequent (Invoice.party_name r)
                                           (Invoice.date r) (Invoice.invoice_number r)
                                           (without_invoice r d))
                                        (balance_before (Invoice.party_name r)
                                           (Invoice.date r) (Invoice.invoice_number r)
                                           (without_invoice r d))) x)
                    as [_ [Hx _]]; rewrite Hx; reflexivity).
    assert (Hfind : find (fun i => String.eqb (Invoice.invoice_number i) m)
                         (invoices (without_invoice r d)) = Some i).
    { cbn [invoices without_invoice set_invoices]. rewrite <- Hm.
      apply find_filter_other. intros x Hx Hid.
      apply negb_false_iff, Z.eqb_eq in Hid.
      assert (x = r) by (apply (NoDup_map_inj Invoice.id (invoices d) x r Hnd Hx Hin Hid)).
      subst x. destruct (String.eqb (Invoice.invoice_number r) m) eqn:Hrm; [| reflexivity].
      exfalso. pose proof (find_some _ _ Hm) as [Hi Him].
      apply String.eqb_eq in Hrm, Him.
      assert (i = r)
        by (apply (NoDup_map_inj Invoice.invoice_number (invoices d) i r Hnum Hi Hin);
            congruence).
      subst i. congruence. }
    rewrite Hfind. cbn [option_map]. f_equal.
    apply pass_outside; [exact Hnd1 | | left; exact Hparty].
    apply find_some in Hfind. apply Hfind.
Qed.

Lemma delete_invoice_effects_witness :
  invoice_row "30" (snd (delete_invoice "30" (serve acme_history empty_db))) = None
  /\ (raw_balance "Acme" (snd (delete_invoice "30" (serve acme_history empty_db)))
      == raw_balance "Acme" (serve acme_history empty_db) - 100)%Q.
Proof.
  assert (Hrow : invoice_row "30" (serve acme_history empty_db)
                 = Some (Invoice.mk 1 "30" "Acme" "2024-01-01" 100 0 100))
    by (vm_compute; reflexivity).
  destruct (delete_invoice_effects acme_history "30" _ Hrow)
    as [_ [Hfree [_ [Hraw _]]]].
  split; [exact Hfree | exact Hraw].
Defined.
(** ** Updating an invoice *)

Lemma detail_row_ids (r : Invoice.t) (p dt : string) (ta : Q) (l : list Invoice.t) :
  map Invoice.id (map (detail_row r p dt ta) l) = map Invoice.id l.
Proof.
  rewrite map_map. apply map_ext. intros i. unfold detail_row.
  destruct (Invoice.id i =? Invoice.id r); reflexivity.
Qed.

Lemma update_invoice_work_exact (r : Invoice.t) (n p dt : string)
    (items : list Item.t) (d : db) :
  NoDup (map Invoice.id (invoices d)) -> In r (invoices d) ->
  update_invoice_work r n p dt items d = Done tt (after_update r n p dt items d).
Proof.
  intros Hnd Hin. unfold update_invoice_work, after_update. cbv zeta.
  set (d0 := if String.eqb (Invoice.party_name r) p then d else with_party p d).
  assert (Hfirst : (if String.eqb (Invoice.party_name r) p then ret tt
                    else ensure_party p) d = Done tt d0).
  { subst d0. destruct (String.eqb (Invoice.party_name r) p);
      [reflexivity | apply ensure_party_exact]. }
  rewrite (bind_done _ _ _ _ _ Hfirst).
  assert (Hinv0 : invoices d0 = invoices d).
  { subst d0. destruct (String.eqb (Invoice.party_name r) p); [reflexivity |].
    apply with_party_tables. }
  unfold select_invoice_by_id. rewrite bind_query. rewrite Hinv0.
  rewrite (find_unique Invoice.id (invoices d) r Hnd Hin).
  unfold update_invoice_details, delete_invoice_items. rewrite !bind_modify.
  rewrite (bind_done _ _ _ _ _ (insert_items_exact _ _ _)).
  fold (detail_row r p dt (items_total items)).
  cbn [invoices set_invoices invoice_items set_invoice_items]. rewrite Hinv0.
  set (d2 := with_items _ _ _).
  assert (Hnd2 : NoDup (map Invoice.id (invoices d2))).
  { subst d2. cbn [invoices with_items set_invoice_items set_invoices].
    rewrite detail_row_ids. exact Hnd. }
  destruct (negb (Qeq_bool (items_total items) (Invoice.total_amount r))
            || negb (String.eqb (Invoice.party_name r) p)); [| reflexivity].
  destruct (negb (String.eqb (Invoice.party_name r) p)).
  - rewrite (bind_done _ _ _ _ _ (pass_run _ _ _ d2 Hnd2)).
    apply pass_run. destruct (pass_tables (Invoice.party_name r) (Invoice.date r)
                                (Invoice.invoice_number r) d2) as [_ [_ [_ Hids]]].
    rewrite Hids. exact Hnd2.
  - rewrite bind_done with (a := tt) (d' := d2) by reflexivity.
    apply pass_run, Hnd2.
Qed.



Lemma compare_same (s : string) : String.compare s s = Eq.
Proof.
  destruct (String.compare s s) eqn:H; [reflexivity | |];
    pose proof (String.compare_antisym s s) as Ha; rewrite H in Ha; discriminate Ha.
Qed.

Lemma not_after_own_cutoff (dt n : string) (i : Invoice.t) :
  Invoice.date i = dt -> Invoice.invoice_number i = n -> after_cutoff dt n i = false.
Proof.
  intros Hd Hn. subst dt n. unfold after_cutoff, text_gtb, text_ltb.
  rewrite compare_same, Z.ltb_irrefl, andb_false_r. reflexivity.
Qed.

Lemma find_pass {P : Invoice.t -> bool} (q sd sn : string) (d : db) (x : Invoice.t) :
  (forall plan i, P (stamp_row plan i) = P i) ->
  NoDup (map Invoice.id (invoices d)) ->
  find P (invoices d) = Some x ->
  Invoice.party_name x <> q \/ after_cutoff sd sn x = false ->
  find P (invoices (pass q sd sn d)) = Some x.
Proof.
  intros HP Hnd Hfind Hout. unfold pass. cbn [invoices set_invoices].
  rewrite (find_map_pred P) by (intros i; apply HP). rewrite Hfind. cbn [option_map].
  f_equal. apply pass_outside; [exact Hnd | | exact Hout].
  apply find_some in Hfind. apply Hfind.
Qed.

Lemma number_pred_stamp (m : string) (plan : list (Z * (Q * Q))) (i : Invoice.t) :
  String.eqb (Invoice.invoice_number (stamp_row plan i)) m
  = String.eqb (Invoice.invoice_number i) m.
Proof. destruct (stamp_row_keys plan i) as [_ [H _]]. rewrite H. reflexivity. Qed.

(** The row found after an update by a test that reads only the rowid or only
    the number. *)
Lemma after_update_find (P : Invoice.t -> bool) (r : Invoice.t) (n p dt : string)
    (items : list Item.t) (d : db) :
  (forall plan i, P (stamp_row plan i) = P i) ->
  (forall i, P (detail_row r p dt (items_total items) i) = P i) ->
  NoDup (map Invoice.id (invoices d)) ->
  find P (invoices d) = Some r ->
  Invoice.invoice_number r = n ->
  find P (invoices (after_update r n p dt items d))
  = Some (Invoice.set_details p dt (items_total items)
            (Invoice.previous_balance r + items_total items)%Q r).
Proof.
  intros HPs HPd Hnd Hrow Hn.
  pose proof (find_some _ _ Hrow) as [Hin _].
  unfold after_update. cbv zeta.
  set (d0 := if String.eqb (Invoice.party_name r) p then d else with_party p d).
  assert (Hinv0 : invoices d0 = invoices d).
  { subst d0. destruct (String.eqb (Invoice.party_name r) p); [reflexivity |].
    apply with_party_tables. }
  set (r' := Invoice.set_details p dt (items_total items)
               (Invoice.previous_balance r + items_total items)%Q r).
  set (d2 := with_items _ _ _).
  assert (Hids2 : map Invoice.id (invoices d2) = map Invoice.id (invoices d)).
  { subst d2. cbn [invoices with_items set_invoice_items set_invoices].
    rewrite Hinv0. apply detail_row_ids. }
  assert (H2 : find P (invoices d2) = Some r').
  { subst d2. cbn [invoices with_items set_invoice_items set_invoices]. rewrite Hinv0.
    rewrite (find_map_pred P) by exact HPd.
    rewrite Hrow. cbn [option_map]. unfold detail_row. rewrite Z.eqb_refl. reflexivity. }
  assert (Hnd2 : NoDup (map Invoice.id (invoices d2))) by (rewrite Hids2; exact Hnd).
  assert (Hown : after_cutoff dt n r' = false).
  { apply not_after_own_cutoff; [reflexivity | exact Hn]. }
  destruct (negb (Qeq_bool (items_total items) (Invoice.total_amount r))
            || negb (String.eqb (Invoice.party_name r) p)); [| exact H2].
  destruct (String.eqb (Invoice.party_name r) p) eqn:Hsame; cbn [negb].
  - apply find_pass; auto.
  - apply find_pass; auto.
    + destruct (pass_tables (Invoice.party_name r) (Invoice.date r)
                            (Invoice.invoice_number r) d2) as [_ [_ [_ Hids]]].
      rewrite Hids. exact Hnd2.
    + apply find_pass; auto.
      left. cbn. apply String.eqb_neq in Hsame. congruence.
Qed.


Lemma after_update_tables (r : Invoice.t) (n p dt : string) (items : list Item.t)
    (d : db) :
  payments (after_update r n p dt items d) = payments d
  /\ invoice_items (after_update r n p dt items d)
     = filter (fun it => negb (InvoiceItem.invoice_id it =? Invoice.id r))
              (invoice_items d)
       ++ item_rows (seq_invoice_items (sqlite_sequence d)) (Invoice.id r) items.
Proof.
  unfold after_update. cbv zeta.
  set (d0 := if String.eqb (Invoice.party_name r) p then d else with_party p d).
  assert (H0 : payments d0 = payments d /\ invoice_items d0 = invoice_items d
               /\ seq_invoice_items (sqlite_sequence d0)
                  = seq_invoice_items (sqlite_sequence d)).
  { subst d0. destruct (String.eqb (Invoice.party_name r) p); [auto |].
    destruct (with_party_tables p d) as [_ [H1 [H2 [_ [_ [H3 _]]]]]]. auto. }
  destruct H0 as [Hp [Hi Hs]].
  set (d2 := with_items _ _ _).
  assert (H2 : payments d2 = payments d
               /\ invoice_items d2
                  = filter (fun it => negb (InvoiceItem.invoice_id it =? Invoice.id r))
                           (invoice_items d)
                    ++ item_rows (seq_invoice_items (sqlite_sequence d))
                                 (Invoice.id r) items).
  { subst d2. cbn. rewrite Hp, Hi, Hs. auto. }
  destruct (negb _ || negb _); [| exact H2].
  destruct (negb (String.eqb (Invoice.party_name r) p)); exact H2.
Qed.




(** X10.  An update that changes neither the party nor the rounded total
    triggers no recalculation: on a store reached by any history every other
    invoice row is left exactly as it was, also when the update moves the
    invoice to another date. *)
Theorem update_without_change_of_total_restamps_nothing :
  forall (history : list request) (n dt : string) (items : list Item.t) (r : Invoice.t),
    invoice_row n (serve history empty_db) = Some r ->
    blank (Invoice.party_name r) = false -> blank dt = false -> items <> [] ->
    (items_total items == Invoice.total_amount r)%Q ->
    invoices (snd (update_invoice_api n (Invoice.party_name r) dt items
                     (serve history empty_db)))
    = map (fun i => if Invoice.id i =? Invoice.id r
                    then Invoice.mk (Invoice.id r) (Invoice.invoice_number r)
                                    (Invoice.party_name r) dt (items_total items)
                                    (Invoice.previous_balance r)
                                    (Invoice.previous_balance r + items_total items)%Q
                    else i)
          (invoices (serve history empty_db)).
Proof.
  intros history n dt items r. set (d := serve history empty_db).
  intros Hrow Hp Hdt Hitems Hsame.
  destruct (serve_consistent history empty_db empty_db_consistent) as [Hwf _].
  fold d in Hwf. pose proof (wf_invoice_ids d Hwf) as Hnd.
  unfold invoice_row in Hrow. pose proof (find_some _ _ Hrow) as [Hin _].
  unfold update_invoice_api. rewrite Hp, Hdt. cbn [orb].
  destruct items as [| it items]; [congruence |].
  unfold select_invoice, query. rewrite Hrow.
  rewrite (update_invoice_work_exact r n (Invoice.party_name r) dt (it :: items) d Hnd Hin).
  cbn [snd]. unfold after_update. cbv zeta. rewrite String.eqb_refl.
  apply Qeq_bool_iff in Hsame. rewrite Hsame. cbn [negb orb].
  cbn [invoices with_items set_invoice_items set_invoices].
  apply map_ext_in. intros i Hi. unfold detail_row.
  destruct (Invoice.id i =? Invoice.id r) eqn:Heq; [| reflexivity].
  apply Z.eqb_eq in Heq.
  assert (i = r) by (apply (NoDup_map_inj Invoice.id (invoices d) i r Hnd Hi Hin Heq)).
  subst i. reflexivity.
Qed.

Lemma update_without_change_of_total_restamps_nothing_witness :
  invoices (snd (update_invoice_api "30" "Acme" "2024-03-01" [item 100]
                   (serve acme_history empty_db)))
  = [Invoice.mk 1 "30" "Acme" "2024-03-01" 100 0 100;
     Invoice.mk 2 "31" "Acme" "2024-01-02" 50 100 150].
Proof.
  assert (Hrow : invoice_row "30" (serve acme_history empty_db)
                 = Some (Invoice.mk 1 "30" "Acme" "2024-01-01" 100 0 100))
    by (vm_compute; reflexivity).
  pose proof (update_without_change_of_total_restamps_nothing
                acme_history "30" "2024-03-01" [item 100] _ Hrow) as H.
  cbn [Invoice.party_name] in H.
  rewrite H;
    [vm_compute; reflexivity | reflexivity | reflexivity | discriminate
     | vm_compute; reflexivity].
Defined.

(** ** Acceptance of a deduction call *)

(** A covered call runs to its end and lowers every product by what the call
    asks of it. *)
Lemma deduct_items_net (items : list Deduction.t) (errors : list shortage) (w : db) :
  NoDup (map Stock.id (stock w)) ->
  covered items w ->
  exists w', deduct_items items errors w = Done errors w'
             /\ forall p, (available p w' == available p w - requested p items)%Q.
Proof.
  revert w. induction items as [| r rest IH]; intros w Hnd Hcov.
  - exists w. split; [reflexivity |]. intros p. unfold requested. cbn. lra.
  - destruct (is_request r) eqn:Hr.
    + assert (Hq : (0 < Deduction.qty r <= available (Deduction.productName r) w)%Q).
      { split; [apply is_request_positive, Hr |].
        pose proof (Hcov r (or_introl eq_refl) Hr) as H.
        rewrite requested_cons, Hr, String.eqb_refl in H. cbn in H.
        pose proof (requested_nonneg (Deduction.productName r) rest). lra. }
      rewrite (serve_request_run r rest errors w Hnd Hr (proj2 Hq)).
      set (w1 := set_stock _ w).
      assert (Hav1 : forall p,
                 (available p w1
                  == available p w
                     - (if String.eqb (Deduction.productName r) p
                        then Deduction.qty r else 0))%Q).
      { intros p. destruct (String.eqb (Deduction.productName r) p) eqn:Heq.
        - apply String.eqb_eq in Heq. subst p w1.
          apply available_after_draw; [exact Hnd | lra].
        - apply String.eqb_neq in Heq. subst w1.
          rewrite available_other_product by (auto; congruence). lra. }
      destruct (IH w1) as [w' [Hrun Hnet]].
      * subst w1. rewrite stock_ids_after_draw. exact Hnd.
      * intros r' Hr' Hreq.
        pose proof (Hcov r' (or_intror Hr') Hreq) as H.
        rewrite requested_cons, Hr in H. cbn [andb] in H.
        rewrite Hav1. lra.
      * exists w'. split; [exact Hrun |]. intros p.
        rewrite Hnet, Hav1, requested_cons, Hr. cbn [andb]. lra.
    + rewrite (skip_request_run r rest errors w Hr).
      destruct (IH w Hnd) as [w' [Hrun Hnet]].
      * intros r' Hr' Hreq. pose proof (Hcov r' (or_intror Hr') Hreq) as H.
        rewrite requested_cons, Hr in H. cbn [andb] in H. lra.
      * exists w'. split; [exact Hrun |]. intros p.
        rewrite Hnet, requested_cons, Hr. cbn [andb]. lra.
Qed.

Lemma requested_member (r : Deduction.t) (items : list Deduction.t) :
  In r items -> is_request r = true ->
  (Deduction.qty r <= requested (Deduction.productName r) items)%Q.
Proof.
  induction items as [| r0 rest IH]; intros Hin Hr; [contradiction |].
  rewrite requested_cons. destruct Hin as [-> | Hin].
  - rewrite Hr, String.eqb_refl. cbn [andb].
    pose proof (requested_nonneg (Deduction.productName r) rest). lra.
  - specialize (IH Hin Hr).
    destruct (is_request r0 && String.eqb (Deduction.productName r0) (Deduction.productName r))
      eqn:H; [| lra].
    apply andb_true_iff in H. destruct H as [H _]. apply is_request_positive in H. lra.
Qed.

(** A call that reports no shortage asks of no product more than it has. *)
Lemma shortages_none (items : list Deduction.t) (avail : string -> Q) :
  shortages avail items = [] ->
  forall p, (requested p items == 0)%Q \/ (requested p items <= avail p)%Q.
Proof.
  revert avail. induction items as [| r rest IH]; intros avail Hnone p.
  - left. reflexivity.
  - cbn [shortages] in Hnone. cbv zeta in Hnone. rewrite requested_cons.
    destruct (is_request r) eqn:Hr; cbn [andb].
    + destruct (Qltb (avail (Deduction.productName r)) (Deduction.qty r)) eqn:Hshort;
        [discriminate |].
      apply Qltb_false in Hshort.
      specialize (IH _ Hnone p). cbv beta in IH.
      destruct (String.eqb (Deduction.productName r) p) eqn:Heq.
      * apply String.eqb_eq in Heq. subst p. rewrite String.eqb_refl in IH.
        right. destruct IH as [IH | IH]; lra.
      * assert (Hsym : String.eqb p (Deduction.productName r) = false).
        { apply String.eqb_neq. apply String.eqb_neq in Heq. congruence. }
        rewrite Hsym in IH. destruct IH as [IH | IH]; [left | right]; lra.
    + destruct (IH _ Hnone p) as [H | H]; [left | right]; lra.
Qed.

(** X11.  On a store reached by any history, a non-empty deduction call is
    accepted exactly when, for every product it asks for, the stored total
    covers the sum of the quantities the call asks of that product (requests
    with a blank product or a non-positive quantity do not count).  An
    accepted call lowers the total of every product by exactly that sum; any
    other call is answered 400 with a non-empty list of shortages and leaves
    the store as it was, also when each request alone would have been
    covered. *)
Theorem deduction_accepted_iff_totals_covered :
  forall (history : list request) (items : list Deduction.t),
    items <> [] ->
    (covered items (serve history empty_db) ->
     fst (deduct_stock_api items (serve history empty_db)) = StockDeducted
     /\ forall p : string,
          (available p (snd (deduct_stock_api items (serve history empty_db)))
           == available p (serve history empty_db) - requested p items)%Q)
    /\ (~ covered items (serve history empty_db) ->
        exists errors : list shortage,
          errors <> []
          /\ deduct_stock_api items (serve history empty_db)
             = (NotEnoughStock errors, serve history empty_db)).
Proof.
  intros history items Hitems. set (d := serve history empty_db).
  destruct (serve_consistent history empty_db empty_db_consistent) as [Hwf _].
  fold d in Hwf. pose proof (wf_stock_ids d Hwf) as Hnd.
  unfold deduct_stock_api. destruct items as [| r rest]; [congruence |].
  split.
  - intros Hcov.
    destruct (deduct_items_net (r :: rest) [] d Hnd Hcov) as [w' [Hrun Hnet]].
    rewrite Hrun. cbn [fst snd]. split; [reflexivity | exact Hnet].
  - intros Hnot.
    destruct (deduct_items_report (r :: rest) [] d (fun p => available p d) Hnd)
      as [found [w' [Hrun Hsame]]]; [reflexivity |].
    cbn [app] in Hrun. rewrite Hrun.
    destruct found as [| e found].
    + exfalso. apply Hnot.
      assert (Hnone : shortages (fun p => available p d) (r :: rest) = []).
      { apply Forall2_length in Hsame. apply length_zero_iff_nil. symmetry. exact Hsame. }
      intros r' Hin Hr'.
      pose proof (requested_member r' (r :: rest) Hin Hr') as Hge.
      pose proof (is_request_positive r' Hr') as Hpos.
      destruct (shortages_none (r :: rest) (fun p => available p d) Hnone
                               (Deduction.productName r')) as [H | H]; lra.
    + exists (e :: found). split; [discriminate | reflexivity].
Qed.

Lemma deduction_accepted_iff_totals_covered_witness :
  (exists errors : list shortage,
     errors <> []
     /\ deduct_stock_api [Deduction.mk "A" 3; Deduction.mk "A" 3] one_batch_store
        = (NotEnoughStock errors, one_batch_store))
  /\ (available "A" (snd (deduct_stock_api [Deduction.mk "A" 3; Deduction.mk "A" 2]
                                           one_batch_store))
      == available "A" one_batch_store
         - requested "A" [Deduction.mk "A" 3; Deduction.mk "A" 2])%Q.
Proof.
  split.
  - apply (deduction_accepted_iff_totals_covered
             [AddStock [StockItem.mk "A" "b1" "2024-01-01" 5]]
             [Deduction.mk "A" 3; Deduction.mk "A" 3]); [discriminate |].
    intros Hcov. specialize (Hcov (Deduction.mk "A" 3) (or_introl eq_refl) eq_refl).
    vm_compute in Hcov. apply Hcov. reflexivity.
  - apply (deduction_accepted_iff_totals_covered
             [AddStock [StockItem.mk "A" "b1" "2024-01-01" 5]]
             [Deduction.mk "A" 3; Deduction.mk "A" 2]); [discriminate |].
    intros r Hin _. destruct Hin as [<- | [<- | []]]; vm_compute; discriminate.
Defined.

(** ** Adding batches *)









(** ** The next invoice number *)

Lemma digits_prefix_acc (u : Decimal.uint) (a : positive) :
  digits_prefix (Z.pos a) (DecimalString.NilEmpty.string_of_uint u)
  = Z.pos (Pos.of_uint_acc u a).
Proof.
  revert a. induction u as [| u IH | u IH | u IH | u IH | u IH | u IH | u IH | u IH
                            | u IH | u IH]; intros a;
    cbn [DecimalString.NilEmpty.string_of_uint digits_prefix Pos.of_uint_acc];
    [reflexivity | ..];
    match goal with
    | |- context [digit_of ?c] =>
        let v := eval vm_compute in (digit_of c) in
        change (digit_of c) with v
    end;
    cbv iota beta;
    match goal with
    | |- digits_prefix ?x _ = Z.pos (Pos.of_uint_acc _ ?b) =>
        replace x with (Z.pos b) by lia
    end;
    apply IH.
Qed.

Lemma digits_prefix_uint (u : Decimal.uint) :
  digits_prefix 0 (DecimalString.NilEmpty.string_of_uint u) = Z.of_N (Pos.of_uint u).
Proof.
  induction u as [| u IH | u IH | u IH | u IH | u IH | u IH | u IH | u IH
                  | u IH | u IH];
    cbn [DecimalString.NilEmpty.string_of_uint digits_prefix Pos.of_uint];
    [reflexivity | exact IH | ..];
    match goal with
    | |- context [digit_of ?c] =>
        let v := eval vm_compute in (digit_of c) in
        change (digit_of c) with v
    end;
    cbv iota beta; cbn [Z.of_N];
    match goal with
    | |- digits_prefix ?x _ = Z.pos (Pos.of_uint_acc _ ?b) =>
        change x with (Z.pos b)
    end;
    apply digits_prefix_acc.
Qed.

Lemma py_str_pos (p : positive) :
  py_str (Z.pos p) = DecimalString.NilEmpty.string_of_uint (Pos.to_uint p).
Proof.
  unfold py_str. cbn [Z.to_int DecimalString.NilZero.string_of_int].
  pose proof (DecimalPos.Unsigned.to_uint_nonnil p) as H.
  destruct (Pos.to_uint p); [congruence | reflexivity ..].
Qed.

Lemma glob_py_str (k : Z) : 0 < k -> glob_digit_star (py_str k) = true.
Proof.
  intros Hk. destruct k as [| p | p]; try lia. rewrite py_str_pos.
  pose proof (DecimalPos.Unsigned.to_uint_nonnil p) as H.
  destruct (Pos.to_uint p); [congruence | reflexivity ..].
Qed.

(** A number written by [str] is read back by [CAST(... AS INTEGER)] as long
    as it fits in 64 bits. *)
Lemma cast_integer_py_str (k : Z) :
  0 < k <= 2 ^ 63 - 1 -> cast_integer (py_str k) = k.
Proof.
  intros Hk. destruct k as [| p | p]; try lia. rewrite py_str_pos.
  pose proof (DecimalPos.Unsigned.to_uint_nonnil p) as Hnil.
  pose proof (digits_prefix_uint (Pos.to_uint p)) as Hd.
  rewrite DecimalPos.Unsigned.of_to in Hd. cbn [Z.of_N] in Hd.
  assert (Hcast : cast_integer (DecimalString.NilEmpty.string_of_uint (Pos.to_uint p))
                  = Z.max (- 2 ^ 63)
                          (Z.min (2 ^ 63 - 1)
                             (digits_prefix 0
                                (DecimalString.NilEmpty.string_of_uint (Pos.to_uint p))))).
  { destruct (Pos.to_uint p); [congruence | reflexivity ..]. }
  rewrite Hcast, Hd. lia.
Qed.

Lemma fold_max_bounds (l : list Z) (a : Z) :
  a <= fold_left Z.max l a /\ forall x, In x l -> x <= fold_left Z.max l a.
Proof.
  revert a. induction l as [| y l IH]; intros a; cbn [fold_left].
  - split; [lia | contradiction].
  - destruct (IH (Z.max a y)) as [H1 H2]. split; [lia |].
    intros x [<- | Hx]; [lia | apply H2, Hx].
Qed.

Lemma fold_max_member (l : list Z) (a : Z) :
  fold_left Z.max l a = a \/ In (fold_left Z.max l a) l.
Proof.
  revert a. induction l as [| y l IH]; intros a; cbn [fold_left]; [left; reflexivity |].
  destruct (IH (Z.max a y)) as [H | H].
  - rewrite H. destruct (Z.max_spec a y) as [[_ ->] | [_ ->]]; [right; left | left];
      reflexivity.
  - right. right. exact H.
Qed.

Lemma sql_max_bound (l : list Z) (m x : Z) :
  sql_max l = Some m -> In x l -> x <= m.
Proof.
  destruct l as [| a l]; [discriminate |]. cbn [sql_max]. intros [= <-] Hx.
  destruct (fold_max_bounds l a) as [H1 H2].
  destruct Hx as [<- | Hx]; [exact H1 | apply H2, Hx].
Qed.

Lemma sql_max_member (l : list Z) (m : Z) : sql_max l = Some m -> In m l.
Proof.
  destruct l as [| a l]; [discriminate |]. cbn [sql_max]. intros [= <-].
  destruct (fold_max_member l a) as [-> | H]; [left; reflexivity | right; exact H].
Qed.

Lemma sql_max_snoc (l : list Z) (k : Z) :
  (forall x, In x l -> x <= k) -> sql_max (l ++ [k]) = Some k.
Proof.
  intros Hle. destruct l as [| a l]; [reflexivity |].
  cbn [app sql_max]. f_equal. rewrite fold_left_app. cbn [fold_left].
  destruct (fold_max_member l a) as [H | H].
  - rewrite H. specialize (Hle a (or_introl eq_refl)). lia.
  - specialize (Hle _ (or_intror H)). lia.
Qed.

Lemma next_num_val_above (d : db) :
  INITIAL_INVOICE_NUMBER <= next_num_val d
  /\ forall i, In i (invoices d) ->
               glob_digit_star (Invoice.invoice_number i) = true ->
               cast_integer (Invoice.invoice_number i) < next_num_val d.
Proof.
  unfold next_num_val. cbv zeta. split; [lia |].
  intros i Hi Hg.
  destruct (sql_max _) as [m |] eqn:Hmax.
  - assert (H : cast_integer (Invoice.invoice_number i) <= m).
    { apply (sql_max_bound _ _ _ Hmax).
      apply (in_map (fun i => cast_integer (Invoice.invoice_number i))).
      apply filter_In. auto. }
    lia.
  - exfalso.
    assert (H : In i (filter (fun i => glob_digit_star (Invoice.invoice_number i))
                             (invoices d))) by (apply filter_In; auto).
    destruct (filter _ (invoices d)); [contradiction | discriminate].
Qed.

Lemma next_num_val_fits (d : db) :
  (forall i, In i (invoices d) ->
             glob_digit_star (Invoice.invoice_number i) = true ->
             cast_integer (Invoice.invoice_number i) < 2 ^ 63 - 1) ->
  next_num_val d <= 2 ^ 63 - 1.
Proof.
  intros Hfit. unfold next_num_val, INITIAL_INVOICE_NUMBER. cbv zeta.
  destruct (sql_max _) as [m |] eqn:Hmax; [| lia].
  apply sql_max_member in Hmax. apply in_map_iff in Hmax.
  destruct Hmax as [i [<- Hi]]. apply filter_In in Hi. destruct Hi as [Hi Hg].
  specialize (Hfit i Hi Hg). lia.
Qed.

Lemma next_invoice_number_unused (d : db) :
  next_num_val d <= 2 ^ 63 - 1 ->
  invoice_row (get_next_invoice_number_api d) d = None.
Proof.
  intros Hfit. destruct (next_num_val_above d) as [H30 Habove].
  unfold INITIAL_INVOICE_NUMBER in H30.
  unfold invoice_row, get_next_invoice_number_api.
  destruct (find _ (invoices d)) as [i |] eqn:Hfind; [| reflexivity].
  exfalso. apply find_some in Hfind. destruct Hfind as [Hi Hn].
  apply String.eqb_eq in Hn.
  assert (Hg : glob_digit_star (Invoice.invoice_number i) = true)
    by (rewrite Hn; apply glob_py_str; lia).
  specialize (Habove i Hi Hg). rewrite Hn, cast_integer_py_str in Habove; lia.
Qed.

(** X13.  The number proposed by [get_next_invoice_number_api] is the decimal
    writing of an integer that is at least 30 and above the integer value of
    every stored invoice number that starts with a digit; numbers that start
    otherwise are ignored.  As long as no such stored number reads as
    2^63 - 1 or more, the proposed number is not stored, a creation request
    that uses it is accepted, and the number proposed after that creation is
    the next integer. *)
Theorem next_invoice_number_is_free :
  forall d : db,
    get_next_invoice_number_api d = py_str (next_num_val d)
    /\ 30 <= next_num_val d
    /\ (forall i, In i (invoices d) ->
                  glob_digit_star (Invoice.invoice_number i) = true ->
                  cast_integer (Invoice.invoice_number i) < next_num_val d)
    /\ ((forall i, In i (invoices d) ->
                   glob_digit_star (Invoice.invoice_number i) = true ->
                   cast_integer (Invoice.invoice_number i) < 2 ^ 63 - 1) ->
        invoice_row (get_next_invoice_number_api d) d = None
        /\ forall (p dt : string) (items : list Item.t),
             blank p = false -> blank dt = false -> items <> [] ->
             fst (create_invoice_api p dt (get_next_invoice_number_api d) items d)
             = InvoiceCreated (get_next_invoice_number_api d)
                              (current_balance p d + items_total items)%Q
             /\ get_next_invoice_number_api
                  (snd (create_invoice_api p dt (get_next_invoice_number_api d) items d))
                = py_str (next_num_val d + 1)).
Proof.
  intros d. destruct (next_num_val_above d) as [H30 Habove].
  unfold INITIAL_INVOICE_NUMBER in H30.
  split; [reflexivity |]. split; [exact H30 |]. split; [exact Habove |].
  intros Hfit. pose proof (next_num_val_fits d Hfit) as Hk.
  pose proof (next_invoice_number_unused d Hk) as Hfree.
  split; [exact Hfree |].
  intros p dt items Hp Hdt Hitems.
  assert (Hg : glob_digit_star (get_next_invoice_number_api d) = true)
    by (apply glob_py_str; lia).
  assert (Hn : blank (get_next_invoice_number_api d) = false).
  { destruct (get_next_invoice_number_api d); [discriminate Hg | reflexivity]. }
  unfold create_invoice_api. rewrite Hp, Hdt, Hn. cbn [orb].
  destruct items as [| it items]; [congruence |].
  rewrite (create_invoice_work_exact p dt _ (it :: items) d Hfree).
  cbn [fst snd]. split; [reflexivity |].
  unfold get_next_invoice_number_api at 1. f_equal.
  unfold next_num_val at 1. cbv zeta.
  cbn [invoices with_items]. rewrite filter_app. cbn [filter].
  unfold created_row at 1. cbn [Invoice.invoice_number]. rewrite Hg.
  rewrite map_app. cbn [map]. unfold created_row. cbn [Invoice.invoice_number].
  unfold get_next_invoice_number_api at 1.
  rewrite cast_integer_py_str by lia.
  rewrite sql_max_snoc.
  - unfold INITIAL_INVOICE_NUMBER. lia.
  - intros x Hx. apply in_map_iff in Hx. destruct Hx as [i [<- Hi]].
    apply filter_In in Hi. destruct Hi as [Hi Hgi].
    specialize (Habove i Hi Hgi). lia.
Qed.

Lemma next_invoice_number_is_free_witness :
  get_next_invoice_number_api (serve acme_history empty_db) = "32"%string
  /\ invoice_row "32" (serve acme_history empty_db) = None
  /\ get_next_invoice_number_api
       (snd (create_invoice_api "Acme" "2024-02-01" "32" [item 10]
                                (serve acme_history empty_db)))
     = "33"%string.
Proof.
  destruct (next_invoice_number_is_free (serve acme_history empty_db))
    as [_ [_ [_ H]]].
  assert (Hnext : get_next_invoice_number_api (serve acme_history empty_db) = "32"%string)
    by (vm_compute; reflexivity).
  destruct H as [Hfree Hcreate].
  - intros i Hi _.
    assert (Hrows : map Invoice.invoice_number (invoices (serve acme_history empty_db))
                    = ["30"; "31"]%string) by (vm_compute; reflexivity).
    apply (in_map Invoice.invoice_number) in Hi. rewrite Hrows in Hi.
    destruct Hi as [<- | [<- | []]]; vm_compute; reflexivity.
  - rewrite Hnext in Hfree, Hcreate. split; [exact Hnext |]. split; [exact Hfree |].
    destruct (Hcreate "Acme" "2024-02-01" [item 10])%string as [_ Hafter];
      [reflexivity | reflexivity | discriminate |].
    rewrite Hafter. vm_compute. reflexivity.
Defined.

(** ** Item rows over histories *)

Lemma item_rows_amounts (last k : Z) (items : list Item.t) :
  map InvoiceItem.amount (item_rows last k items) = map Item.amount items.
Proof.
  revert last. induction items as [| it rest IH]; intros last; [reflexivity |].
  cbn [item_rows map InvoiceItem.amount]. rewrite IH. reflexivity.
Qed.

Lemma item_rows_back (last k : Z) (items : list Item.t) :
  map item_of_row (item_rows last k items) = items.
Proof.
  revert last. induction items as [| it rest IH]; intros last; [reflexivity |].
  cbn [item_rows map]. rewrite IH. destruct it. reflexivity.
Qed.

Lemma item_rows_owner (last k : Z) (items : list Item.t) :
  Forall (fun it => InvoiceItem.invoice_id it = k) (item_rows last k items).
Proof.
  revert last. induction items as [| it rest IH]; intros last; cbn [item_rows];
    constructor; [reflexivity | apply IH].
Qed.

Lemma item_rows_ids (last k : Z) (items : list Item.t) :
  StronglySorted Z.lt (map InvoiceItem.id (item_rows last k items))
  /\ Forall (fun it => last < InvoiceItem.id it
                       <= last + Z.of_nat (List.length items))
            (item_rows last k items).
Proof.
  revert last. induction items as [| it rest IH]; intros last; cbn [item_rows map].
  - split; constructor.
  - destruct (IH (last + 1)) as [Hs Hb]. split.
    + constructor; [exact Hs |]. apply Forall_map.
      eapply Forall_impl; [| exact Hb]. cbn. intros a Ha. lia.
    + constructor.
      * cbn [InvoiceItem.id List.length]. lia.
      * eapply Forall_impl; [| exact Hb]. cbn [List.length]. intros a Ha. lia.
Qed.

Lemma item_rows_nonempty (last k : Z) (items : list Item.t) :
  items <> [] -> item_rows last k items <> [].
Proof. destruct items; [congruence | discriminate]. Qed.

Lemma filter_owner_all (k : Z) (rows : list InvoiceItem.t) :
  Forall (fun it => InvoiceItem.invoice_id it = k) rows ->
  filter (fun it => InvoiceItem.invoice_id it =? k) rows = rows.
Proof.
  induction 1 as [| it rows Hit _ IH]; [reflexivity |].
  cbn [filter]. rewrite Hit, Z.eqb_refl, IH. reflexivity.
Qed.

Lemma filter_owner_none (k k' : Z) (rows : list InvoiceItem.t) :
  k' <> k ->
  Forall (fun it => InvoiceItem.invoice_id it = k) rows ->
  filter (fun it => InvoiceItem.invoice_id it =? k') rows = [].
Proof.
  intros Hne. induction 1 as [| it rows Hit _ IH]; [reflexivity |].
  cbn [filter]. rewrite Hit.
  destruct (k =? k') eqn:H; [apply Z.eqb_eq in H; congruence | exact IH].
Qed.

Lemma filter_owner_unlisted (k : Z) (ks : list (Z * Q)) (rows : list InvoiceItem.t) :
  (forall it, In it rows -> In (InvoiceItem.invoice_id it) (map fst ks)) ->
  ~ In k (map fst ks) ->
  filter (fun it => InvoiceItem.invoice_id it =? k) rows = [].
Proof.
  intros Hown Hk. apply filter_nil. intros it Hit.
  apply Z.eqb_neq. intros Heq. apply Hk. rewrite <- Heq. apply Hown, Hit.
Qed.

Lemma rows_total_item_rows (last k : Z) (items : list Item.t) :
  rows_total (item_rows last k items) = items_total items.
Proof. unfold rows_total, items_total. rewrite item_rows_amounts. reflexivity. Qed.

Lemma sorted_app_above (l l' : list Z) (last : Z) :
  StronglySorted Z.lt l -> StronglySorted Z.lt l' ->
  Forall (fun x => x <= last) l -> Forall (fun x => last < x) l' ->
  StronglySorted Z.lt (l ++ l').
Proof.
  intros Hl Hl' Hle Hgt. induction Hl as [| x l Hl IH Hx]; [exact Hl' |].
  cbn [app]. constructor.
  - apply IH. inversion Hle; assumption.
  - apply Forall_app. split; [exact Hx |].
    inversion Hle as [| ? ? Hxl _]; subst.
    eapply Forall_impl; [| exact Hgt]. cbn. intros a Ha. lia.
Qed.

Lemma sorted_filter {A} (key : A -> Z) (P : A -> bool) (l : list A) :
  StronglySorted Z.lt (map key l) -> StronglySorted Z.lt (map key (filter P l)).
Proof.
  induction l as [| x l IH]; intros Hs; [constructor |].
  cbn [map] in Hs. inversion Hs as [| ? ? Hl Hx]; subst.
  cbn [filter]. destruct (P x); [| apply IH, Hl].
  cbn [map]. constructor; [apply IH, Hl |].
  apply Forall_map. apply Forall_forall. intros y Hy. apply filter_In in Hy.
  rewrite Forall_map, Forall_forall in Hx. apply Hx. tauto.
Qed.

(** An invoice and its item rows are appended. *)
Lemma tallied_append (ks : list (Z * Q)) (rows : list InvoiceItem.t) (last k : Z)
    (items : list Item.t) :
  tallied ks rows last -> ~ In k (map fst ks) -> items <> [] ->
  tallied (ks ++ [(k, items_total items)]) (rows ++ item_rows last k items)
          (last + Z.of_nat (List.length items)).
Proof.
  intros [Hs [Hb [Hown Htot]]] Hk Hitems.
  destruct (item_rows_ids last k items) as [Hs' Hb'].
  pose proof (item_rows_owner last k items) as Ho.
  split; [| split; [| split]].
  - rewrite map_app.
    apply (sorted_app_above _ _ last); try assumption.
    + apply Forall_map. exact Hb.
    + apply Forall_map. eapply Forall_impl; [| exact Hb']. cbn. intros a Ha. lia.
  - apply Forall_app. split.
    + eapply Forall_impl; [| exact Hb]. cbn. intros a Ha. lia.
    + eapply Forall_impl; [| exact Hb']. cbn. intros a Ha. lia.
  - intros it Hit. rewrite map_app. apply in_app_iff. apply in_app_iff in Hit.
    destruct Hit as [Hit | Hit]; [left; apply Hown, Hit |].
    right. rewrite Forall_forall in Ho. rewrite (Ho it Hit). left. reflexivity.
  - intros k' t Hin. rewrite filter_app. apply in_app_iff in Hin.
    destruct Hin as [Hin | [[= <- <-] | []]].
    + assert (Hne : k' <> k).
      { intros ->. apply Hk. apply (in_map fst) in Hin. exact Hin. }
      rewrite (filter_owner_none k k' _ Hne Ho), app_nil_r. apply Htot, Hin.
    + rewrite (filter_owner_unlisted k ks rows Hown Hk). cbn [app].
      rewrite (filter_owner_all k _ Ho). split.
      * apply item_rows_nonempty, Hitems.
      * symmetry. apply rows_total_item_rows.
Qed.

Lemma filter_filter_other (k k' : Z) (rows : list InvoiceItem.t) :
  k' <> k ->
  filter (fun it => InvoiceItem.invoice_id it =? k')
         (filter (fun it => negb (InvoiceItem.invoice_id it =? k)) rows)
  = filter (fun it => InvoiceItem.invoice_id it =? k') rows.
Proof.
  intros Hne. induction rows as [| it rows IH]; [reflexivity |].
  cbn [filter]. destruct (InvoiceItem.invoice_id it =? k) eqn:Hk; cbn [negb filter].
  - apply Z.eqb_eq in Hk. rewrite Hk.
    destruct (k =? k') eqn:H; [apply Z.eqb_eq in H; congruence | exact IH].
  - rewrite IH. reflexivity.
Qed.

(** An invoice and its item rows are removed. *)
Lemma tallied_remove (ks : list (Z * Q)) (rows : list InvoiceItem.t) (last k : Z) :
  tallied ks rows last ->
  tallied (filter (fun kt => negb (fst kt =? k)) ks)
          (filter (fun it => negb (InvoiceItem.invoice_id it =? k)) rows) last
  /\ ~ In k (map fst (filter (fun kt => negb (fst kt =? k)) ks)).
Proof.
  intros [Hs [Hb [Hown Htot]]]. split; [split; [| split; [| split]] |].
  - apply sorted_filter, Hs.
  - apply Forall_forall. intros it Hit. apply filter_In in Hit.
    rewrite Forall_forall in Hb. apply Hb. tauto.
  - intros it Hit. apply filter_In in Hit. destruct Hit as [Hit Hk].
    specialize (Hown it Hit). apply in_map_iff in Hown.
    destruct Hown as [[k' t] [Hfst Hin]]. cbn in Hfst. subst k'.
    apply in_map_iff. exists (InvoiceItem.invoice_id it, t). split; [reflexivity |].
    apply filter_In. split; [exact Hin | exact Hk].
  - intros k' t Hin. apply filter_In in Hin. destruct Hin as [Hin Hk]. cbn in Hk.
    apply negb_true_iff, Z.eqb_neq in Hk.
    rewrite (filter_filter_other k k' rows Hk). apply Htot, Hin.
  - intros Hin. apply in_map_iff in Hin. destruct Hin as [[k' t] [Hfst Hin]].
    cbn in Hfst. subst k'. apply filter_In in Hin. destruct Hin as [_ Hk].
    cbn in Hk. rewrite Z.eqb_refl in Hk. discriminate Hk.
Qed.

Lemma tallied_ext (ks ks' : list (Z * Q)) (rows : list InvoiceItem.t) (last : Z) :
  (forall kt, In kt ks' <-> In kt ks) -> tallied ks rows last -> tallied ks' rows last.
Proof.
  intros Hsame [Hs [Hb [Hown Htot]]]. split; [exact Hs | split; [exact Hb | split]].
  - intros it Hit. specialize (Hown it Hit). apply in_map_iff in Hown.
    destruct Hown as [kt [Hfst Hin]]. apply in_map_iff. exists kt.
    split; [exact Hfst | apply Hsame, Hin].
  - intros k t Hin. apply Htot, Hsame, Hin.
Qed.

(** The item rows of a listed invoice are replaced and its total set. *)
Lemma tallied_replace (ks : list (Z * Q)) (rows : list InvoiceItem.t) (last k : Z)
    (items : list Item.t) :
  tallied ks rows last -> In k (map fst ks) -> items <> [] ->
  tallied (map (fun kt => if fst kt =? k then (k, items_total items) else kt) ks)
          (filter (fun it => negb (InvoiceItem.invoice_id it =? k)) rows
           ++ item_rows last k items)
          (last + Z.of_nat (List.length items)).
Proof.
  intros Ht Hk Hitems.
  destruct (tallied_remove ks rows last k Ht) as [Hrem Hout].
  pose proof (tallied_append _ _ last k items Hrem Hout Hitems) as Happ.
  refine (tallied_ext _ _ _ _ _ Happ).
  intros [k' t]. rewrite in_app_iff, filter_In, in_map_iff. cbn [fst]. split.
  - intros [[k0 t0] [Heq Hin]]. cbn [fst] in Heq.
    destruct (k0 =? k) eqn:Hk0.
    + right. left. exact Heq.
    + left. injection Heq as <- <-. split; [exact Hin |]. rewrite Hk0. reflexivity.
  - intros [[Hin Hne] | [Heq | []]].
    + exists (k', t). cbn [fst]. apply negb_true_iff in Hne. rewrite Hne. auto.
    + apply in_map_iff in Hk. destruct Hk as [[k0 t0] [Hfst Hin]]. cbn in Hfst.
      subst k0. exists (k, t0). cbn [fst]. rewrite Z.eqb_refl. auto.
Qed.

Lemma keys_ids (d : db) : map fst (keys d) = map Invoice.id (invoices d).
Proof. unfold keys. rewrite map_map. reflexivity. Qed.

Lemma keys_pass (q sd sn : string) (d : db) : keys (pass q sd sn d) = keys d.
Proof.
  unfold keys, pass. cbn [invoices set_invoices]. rewrite map_map. apply map_ext.
  intros r. destruct (stamp_row_keys (stamps (subsequent q sd sn d)
                                             (balance_before q sd sn d)) r)
    as [-> [_ [_ [_ ->]]]]. reflexivity.
Qed.

Lemma keys_without_invoice (r : Invoice.t) (d : db) :
  keys (without_invoice r d)
  = filter (fun kt => negb (fst kt =? Invoice.id r)) (keys d).
Proof.
  unfold keys, without_invoice. cbn [invoices set_invoices set_invoice_items].
  induction (invoices d) as [| i l IH]; [reflexivity |].
  cbn [filter map fst]. destruct (negb (Invoice.id i =? Invoice.id r)); cbn [map];
    rewrite IH; reflexivity.
Qed.

Lemma after_update_more (r : Invoice.t) (n p dt : string) (items : list Item.t)
    (d : db) :
  parties (after_update r n p dt items d)
  = parties (if String.eqb (Invoice.party_name r) p then d else with_party p d)
  /\ keys (after_update r n p dt items d)
     = map (fun kt => if fst kt =? Invoice.id r
                      then (Invoice.id r, items_total items) else kt) (keys d)
  /\ seq_invoice_items (sqlite_sequence (after_update r n p dt items d))
     = seq_invoice_items (sqlite_sequence d) + Z.of_nat (List.length items)
  /\ seq_payments (sqlite_sequence (after_update r n p dt items d))
     = seq_payments (sqlite_sequence d).
Proof.
  unfold after_update. cbv zeta.
  set (d0 := if String.eqb (Invoice.party_name r) p then d else with_party p d).
  assert (H0 : invoices d0 = invoices d
               /\ seq_invoice_items (sqlite_sequence d0)
                  = seq_invoice_items (sqlite_sequence d)
               /\ seq_payments (sqlite_sequence d0) = seq_payments (sqlite_sequence d)).
  { subst d0. destruct (String.eqb (Invoice.party_name r) p); [auto |].
    destruct (with_party_tables p d) as [H1 [_ [_ [_ [_ [H2 H3]]]]]]. auto. }
  destruct H0 as [Hi [Hs Hp]].
  set (d2 := with_items _ _ _).
  assert (H2 : parties d2 = parties d0
               /\ keys d2
                  = map (fun kt => if fst kt =? Invoice.id r
                                   then (Invoice.id r, items_total items) else kt)
                        (keys d)
               /\ seq_invoice_items (sqlite_sequence d2)
                  = seq_invoice_items (sqlite_sequence d) + Z.of_nat (List.length items)
               /\ seq_payments (sqlite_sequence d2) = seq_payments (sqlite_sequence d)).
  { subst d2. unfold keys. cbn. rewrite Hi, Hs, Hp.
    split; [reflexivity |]. split; [| auto].
    rewrite !map_map. apply map_ext. intros i. unfold detail_row. cbn [fst].
    destruct (Invoice.id i =? Invoice.id r) eqn:Heq; [| reflexivity].
    apply Z.eqb_eq in Heq. cbn. rewrite Heq. reflexivity. }
  assert (Hpass : forall q sd sn w,
             parties (pass q sd sn w) = parties w
             /\ keys (pass q sd sn w) = keys w
             /\ seq_invoice_items (sqlite_sequence (pass q sd sn w))
                = seq_invoice_items (sqlite_sequence w)
             /\ seq_payments (sqlite_sequence (pass q sd sn w))
                = seq_payments (sqlite_sequence w)).
  { intros q sd sn w. split; [reflexivity |]. split; [apply keys_pass |].
    split; reflexivity. }
  destruct H2 as [A [B [C D]]].
  destruct (negb _ || negb _); [| auto].
  destruct (negb (String.eqb (Invoice.party_name r) p)).
  - destruct (Hpass p dt n (pass (Invoice.party_name r) (Invoice.date r)
                                 (Invoice.invoice_number r) d2))
      as [A1 [B1 [C1 D1]]].
    destruct (Hpass (Invoice.party_name r) (Invoice.date r)
                    (Invoice.invoice_number r) d2) as [A2 [B2 [C2 D2]]].
    rewrite A1, B1, C1, D1, A2, B2, C2, D2. auto.
  - destruct (Hpass p dt n d2) as [A1 [B1 [C1 D1]]].
    rewrite A1, B1, C1, D1. auto.
Qed.

Lemma create_invoice_api_itemised (p dt n : string) (items : list Item.t) (d : db) :
  well_formed d -> itemised d -> itemised (snd (create_invoice_api p dt n items d)).
Proof.
  intros Hwf Hit. unfold create_invoice_api.
  destruct (blank p || blank dt || blank n); [exact Hit |].
  destruct items as [| it items]; [exact Hit |].
  destruct (invoice_row n d) as [r |] eqn:Hrow.
  - rewrite create_invoice_work_duplicate by congruence.
    destruct (contains _ _); exact Hit.
  - rewrite (create_invoice_work_exact p dt n (it :: items) d Hrow). cbn [snd].
    unfold itemised, keys.
    cbn [invoices invoice_items sqlite_sequence seq_invoice_items with_items].
    rewrite map_app. cbn [map]. unfold created_row at 1 2.
    cbn [Invoice.id Invoice.total_amount].
    apply tallied_append; [exact Hit | | discriminate].
    fold (keys d). rewrite keys_ids. intros Hin.
    pose proof (wf_invoice_seq d Hwf) as Hseq. apply in_map_iff in Hin.
    destruct Hin as [i [Hid Hi]]. rewrite Forall_forall in Hseq.
    specialize (Hseq i Hi). lia.
Qed.

Lemma update_invoice_api_itemised (n p dt : string) (items : list Item.t) (d : db) :
  well_formed d -> itemised d -> itemised (snd (update_invoice_api n p dt items d)).
Proof.
  intros Hwf Hit. unfold update_invoice_api.
  destruct (blank p || blank dt); [exact Hit |].
  destruct items as [| it items]; [exact Hit |].
  unfold select_invoice, query.
  destruct (find _ (invoices d)) as [r |] eqn:Hrow; [| exact Hit].
  pose proof (find_some _ _ Hrow) as [Hin _].
  rewrite (update_invoice_work_exact r n p dt (it :: items) d
             (wf_invoice_ids d Hwf) Hin). cbn [snd].
  unfold itemised.
  destruct (after_update_more r n p dt (it :: items) d) as [_ [-> [-> _]]].
  destruct (after_update_tables r n p dt (it :: items) d) as [_ ->].
  apply tallied_replace; [exact Hit | | discriminate].
  rewrite keys_ids. apply in_map, Hin.
Qed.

Lemma delete_invoice_itemised (n : string) (d : db) :
  well_formed d -> itemised d -> itemised (snd (delete_invoice n d)).
Proof.
  intros Hwf Hit.
  destruct (invoice_row n d) as [r |] eqn:Hrow.
  - rewrite (delete_invoice_exact n r d (wf_invoice_ids d Hwf) Hrow). cbn [snd].
    unfold itemised. rewrite keys_pass, keys_without_invoice.
    apply (tallied_remove (keys d) (invoice_items d)
                          (seq_invoice_items (sqlite_sequence d)) (Invoice.id r) Hit).
  - unfold delete_invoice, select_invoice, query. unfold invoice_row in Hrow.
    rewrite Hrow. exact Hit.
Qed.

Lemma itemised_same (d d' : db) :
  invoices d' = invoices d -> invoice_items d' = invoice_items d ->
  seq_invoice_items (sqlite_sequence d') = seq_invoice_items (sqlite_sequence d) ->
  itemised d -> itemised d'.
Proof. unfold itemised, keys. intros -> -> ->. auto. Qed.

Lemma handle_itemised (r : request) (d : db) :
  well_formed d -> itemised d -> itemised (snd (handle r d)).
Proof.
  intros Hwf Hit. destruct r; cbn [handle].
  - apply create_invoice_api_itemised; assumption.
  - apply update_invoice_api_itemised; assumption.
  - apply delete_invoice_itemised; assumption.
  - rewrite record_payment_api_exact.
    destruct (blank party_name || blank date); [exact Hit |].
    destruct (Qle_bool amount 0); [exact Hit |]. cbv zeta. cbn [snd].
    destruct (with_party_tables party_name d) as [H1 [H2 [_ [_ [_ [H3 _]]]]]].
    apply (itemised_same d); cbn; assumption.
  - rewrite delete_payment_run. destruct (find _ (payments d)); [| exact Hit].
    cbv zeta. cbn [snd]. apply (itemised_same d); [reflexivity .. | exact Hit].
  - pose proof (add_stock_batch_api_keeps_ledger items_to_add d) as H.
    unfold ledger_side in H. injection H as H1 H2 H3 H4 H5 H6 H7 H8.
    apply (itemised_same d); assumption.
  - pose proof (deduct_stock_api_keeps_ledger items_to_deduct d) as H.
    unfold ledger_side in H. injection H as H1 H2 H3 H4 H5 H6 H7 H8.
    apply (itemised_same d); assumption.
Qed.

Lemma serve_itemised (history : list request) :
  itemised (serve history empty_db).
Proof.
  assert (H : forall d, consistent d -> itemised d ->
                        itemised (serve history d)).
  { induction history as [| r rest IH]; intros d Hc Hit; [exact Hit |].
    cbn [serve fold_left]. apply IH.
    - apply handle_consistent, Hc.
    - apply handle_itemised; [apply Hc | exact Hit]. }
  apply H; [apply empty_db_consistent |].
  repeat split; cbn; try constructor; try contradiction.
Qed.

(** ** Parties and payments over histories *)

Lemma registered_party (p : string) (d d' : db) :
  parties d' = parties d \/ parties d' = parties (with_party p d) ->
  payments d' = payments d ->
  seq_payments (sqlite_sequence d') = seq_payments (sqlite_sequence d) ->
  registered d -> registered d'.
Proof.
  intros Hpar Hpay Hseq [H1 H2 H3 H4].
  constructor; rewrite ?Hpay, ?Hseq; try assumption.
  destruct Hpar as [-> | ->]; [exact H1 |].
  unfold with_party. destruct (existsb _ (parties d)) eqn:Hex; [exact H1 |].
  cbn [parties]. rewrite map_app. cbn [map Party.name].
  apply NoDup_app_remove_l with (l := []). cbn [app].
  apply Permutation_NoDup with (l := p :: map Party.name (parties d)).
  - apply Permutation_cons_append.
  - constructor; [| exact H1]. intros Hin. apply in_map_iff in Hin.
    destruct Hin as [x [Hx Hin]].
    assert (Hyes : existsb (fun q => String.eqb (Party.name q) p) (parties d) = true).
    { apply existsb_exists. exists x. split; [exact Hin |]. apply String.eqb_eq, Hx. }
    congruence.
Qed.

Lemma handle_registered (r : request) (d : db) :
  well_formed d -> registered d -> registered (snd (handle r d)).
Proof.
  intros Hwf Hrg. destruct r; cbn [handle].
  - unfold create_invoice_api.
    destruct (blank party_name || blank invoice_date || blank invoice_number);
      [exact Hrg |].
    destruct items as [| it items]; [exact Hrg |].
    destruct (invoice_row invoice_number d) as [r |] eqn:Hrow.
    + rewrite create_invoice_work_duplicate by congruence.
      destruct (contains _ _); exact Hrg.
    + rewrite (create_invoice_work_exact _ _ _ (it :: items) d Hrow). cbn [snd].
      apply (registered_party party_name d); [right | ..]; try reflexivity.
      exact Hrg.
  - unfold update_invoice_api.
    destruct (blank party_name || blank date); [exact Hrg |].
    destruct items as [| it items]; [exact Hrg |].
    unfold select_invoice, query.
    destruct (find _ (invoices d)) as [r |] eqn:Hrow; [| exact Hrg].
    pose proof (find_some _ _ Hrow) as [Hin _].
    rewrite (update_invoice_work_exact r _ party_name date (it :: items) d
               (wf_invoice_ids d Hwf) Hin). cbn [snd].
    destruct (after_update_more r invoice_number_to_update party_name date
                                (it :: items) d) as [Hpar [_ [_ Hseq]]].
    destruct (after_update_tables r invoice_number_to_update party_name date
                                  (it :: items) d) as [Hpay _].
    apply (registered_party party_name d); try assumption.
    rewrite Hpar. destruct (String.eqb (Invoice.party_name r) party_name); auto.
  - destruct (invoice_row invoice_number_to_delete d) as [r |] eqn:Hrow.
    + rewrite (delete_invoice_exact _ r d (wf_invoice_ids d Hwf) Hrow). cbn [snd].
      apply (registered_party EmptyString d); [left | ..]; try reflexivity.
      exact Hrg.
    + unfold delete_invoice, select_invoice, query. unfold invoice_row in Hrow.
      rewrite Hrow. exact Hrg.
  - rewrite record_payment_api_exact.
    destruct (blank party_name || blank date); [exact Hrg |].
    destruct (Qle_bool amount 0) eqn:Hpos; [exact Hrg |]. cbv zeta. cbn [snd].
    assert (Hrg1 : registered (with_party party_name d)).
    { destruct (with_party_tables party_name d) as [_ [_ [H1 [_ [_ [_ H2]]]]]].
      apply (registered_party party_name d); auto. }
    destruct Hrg1 as [H1 H2 H3 H4].
    constructor; cbn [parties payments sqlite_sequence seq_payments].
    + exact H1.
    + rewrite map_app. cbn [map Payment.id].
      apply NoDup_app_remove_l with (l := []). cbn [app].
      eapply Permutation_NoDup; [apply Permutation_cons_append |].
      constructor; [| exact H2]. intros Hin. apply in_map_iff in Hin.
      destruct Hin as [x [Hx Hin]]. rewrite Forall_forall in H3.
      specialize (H3 x Hin). lia.
    + apply Forall_app. split.
      * eapply Forall_impl; [| exact H3]. cbn. intros a Ha. lia.
      * constructor; [cbn; lia | constructor].
    + apply Forall_app. split; [exact H4 |].
      constructor; [| constructor]. cbn. apply Qle_bool_false, Hpos.
  - rewrite delete_payment_run. destruct (find _ (payments d)); [| exact Hrg].
    cbv zeta. cbn [snd]. destruct Hrg as [H1 H2 H3 H4].
    constructor; cbn [parties payments set_payments sqlite_sequence].
    + exact H1.
    + apply NoDup_map_filter, H2.
    + apply Forall_forall. intros x Hx. apply filter_In in Hx.
      rewrite Forall_forall in H3. apply H3. tauto.
    + apply Forall_forall. intros x Hx. apply filter_In in Hx.
      rewrite Forall_forall in H4. apply H4. tauto.
  - pose proof (add_stock_batch_api_keeps_ledger items_to_add d) as H.
    unfold ledger_side in H. injection H as H1 H2 H3 H4 H5 H6 H7 H8.
    apply (registered_party EmptyString d); auto.
  - pose proof (deduct_stock_api_keeps_ledger items_to_deduct d) as H.
    unfold ledger_side in H. injection H as H1 H2 H3 H4 H5 H6 H7 H8.
    apply (registered_party EmptyString d); auto.
Qed.

Lemma serve_registered (history : list request) :
  registered (serve history empty_db).
Proof.
  assert (H : forall d, consistent d -> registered d ->
                        registered (serve history d)).
  { induction history as [| r rest IH]; intros d Hc Hrg; [exact Hrg |].
    cbn [serve fold_left]. apply IH.
    - apply handle_consistent, Hc.
    - apply handle_registered; [apply Hc | exact Hrg]. }
  apply H; [apply empty_db_consistent |].
  constructor; cbn; constructor.
Qed.

Lemma order_by_increasing {A} (key : A -> Z) (l : list A) :
  StronglySorted Z.lt (map key l) ->
  order_by (fun a b => key a <=? key b) l = l.
Proof.
  induction l as [| x l IH]; intros Hs; [reflexivity |].
  cbn [map] in Hs. inversion Hs as [| ? ? Hl Hx]; subst.
  cbn [order_by]. rewrite (IH Hl). destruct l as [| y l]; [reflexivity |].
  cbn [insert_by]. inversion Hx as [| ? ? Hxy _]; subst.
  assert (H : (key x <=? key y) = true) by (apply Z.leb_le; lia).
  rewrite H. reflexivity.
Qed.

Lemma select_invoice_items_sorted (k : Z) (d : db) :
  StronglySorted Z.lt (map InvoiceItem.id (invoice_items d)) ->
  select_invoice_items k d
  = filter (fun it => InvoiceItem.invoice_id it =? k) (invoice_items d).
Proof.
  intros Hs. unfold select_invoice_items.
  apply (order_by_increasing InvoiceItem.id). apply sorted_filter, Hs.
Qed.

(** X14.  Whatever requests were served, the stored rows hang together,
    although the connection never switches foreign keys on: every invoice and
    every payment names a stored party, party names are distinct, every item
    row belongs to a stored invoice, every stored invoice has at least one
    item row, payment rowids are distinct and every stored payment has a
    positive amount. *)
Theorem histories_keep_rows_referenced :
  forall history : list request,
    (forall i, In i (invoices (serve history empty_db)) ->
               has_party (Invoice.party_name i) (serve history empty_db)
               /\ exists it, In it (invoice_items (serve history empty_db))
                             /\ InvoiceItem.invoice_id it = Invoice.id i)
    /\ (forall p, In p (payments (serve history empty_db)) ->
                  has_party (Payment.party_name p) (serve history empty_db)
                  /\ (0 < Payment.amount p)%Q)
    /\ (forall it, In it (invoice_items (serve history empty_db)) ->
                   exists i, In i (invoices (serve history empty_db))
                             /\ Invoice.id i = InvoiceItem.invoice_id it)
    /\ NoDup (map Party.name (parties (serve history empty_db)))
    /\ NoDup (map Payment.id (payments (serve history empty_db))).
Proof.
  intros history. set (d := serve history empty_db).
  destruct (serve_consistent history empty_db empty_db_consistent)
    as [_ [_ [Hinv Hpay]]]. fold d in Hinv, Hpay.
  pose proof (serve_registered history) as [H1 H2 _ H4]. fold d in H1, H2, H4.
  pose proof (serve_itemised history) as [_ [_ [Hown Htot]]]. fold d in Hown, Htot.
  rewrite Forall_forall in Hinv, Hpay, H4.
  split; [| split; [| split; [| split]]].
  - intros i Hi. split; [apply Hinv, Hi |].
    destruct (Htot (Invoice.id i) (Invoice.total_amount i)) as [Hne _].
    { unfold keys. apply in_map_iff. exists i. auto. }
    destruct (filter _ (invoice_items d)) as [| it rest] eqn:Hf; [congruence |].
    assert (Hit : In it (filter (fun it => InvoiceItem.invoice_id it =? Invoice.id i)
                                (invoice_items d))) by (rewrite Hf; left; reflexivity).
    apply filter_In in Hit. destruct Hit as [Hit Hk]. apply Z.eqb_eq in Hk.
    exists it. auto.
  - intros p Hp. split; [apply Hpay, Hp | apply H4, Hp].
  - intros it Hit. specialize (Hown it Hit). rewrite keys_ids in Hown.
    apply in_map_iff in Hown. destruct Hown as [i [Hid Hi]]. exists i. auto.
  - exact H1.
  - exact H2.
Qed.

Lemma histories_keep_rows_referenced_witness :
  has_party "Acme" (serve acme_history empty_db)
  /\ (exists it, In it (invoice_items (serve acme_history empty_db))
                 /\ InvoiceItem.invoice_id it = 2)
  /\ NoDup (map Party.name (parties (serve acme_history empty_db))).
Proof.
  destruct (histories_keep_rows_referenced acme_history) as [Hinv [_ [_ [Hnames _]]]].
  destruct (Hinv (Invoice.mk 2 "31" "Acme" "2024-01-02" 50 100 150)) as [Hparty Hitem].
  - vm_compute. right. left. reflexivity.
  - split; [exact Hparty | split; [exact Hitem | exact Hnames]].
Defined.

(** X15.  On a store reached by any history, [get_single_invoice_api]
    answers 404 exactly for the numbers that are not stored.  For a stored
    number it returns the stored row together with all item rows of that
    invoice and no other, in rowid order; there is at least one; the total of
    the invoice is the sum of their amounts rounded to two decimals, and its
    grand total is its previous balance plus that total. *)
Theorem invoice_read_back_adds_up :
  forall (history : list request) (n : string),
    match get_single_invoice_api n (serve history empty_db) with
    | None => invoice_row n (serve history empty_db) = None
    | Some (inv, rows) =>
        invoice_row n (serve history empty_db) = Some inv
        /\ rows = filter (fun it => InvoiceItem.invoice_id it =? Invoice.id inv)
                         (invoice_items (serve history empty_db))
        /\ rows <> []
        /\ StronglySorted Z.lt (map InvoiceItem.id rows)
        /\ Invoice.total_amount inv
           = round2 (fold_left Qplus (map InvoiceItem.amount rows) 0%Q)
        /\ Invoice.grand_total inv
           = (Invoice.previous_balance inv
              + round2 (fold_left Qplus (map InvoiceItem.amount rows) 0%Q))%Q
    end.
Proof.
  intros history n. set (d := serve history empty_db).
  destruct (serve_consistent history empty_db empty_db_consistent)
    as [_ [Hbal _]]. fold d in Hbal.
  pose proof (serve_itemised history) as [Hs [_ [_ Htot]]]. fold d in Hs, Htot.
  unfold get_single_invoice_api, invoice_row.
  destruct (find _ (invoices d)) as [inv |] eqn:Hrow; [| reflexivity].
  pose proof (find_some _ _ Hrow) as [Hin _].
  rewrite (select_invoice_items_sorted (Invoice.id inv) d Hs).
  destruct (Htot (Invoice.id inv) (Invoice.total_amount inv)) as [Hne Hsum].
  { unfold keys. apply in_map_iff. exists inv. auto. }
  unfold rows_total in Hsum. unfold balanced in Hbal. rewrite Forall_forall in Hbal.
  split; [reflexivity |]. split; [reflexivity |]. split; [exact Hne |].
  split; [apply sorted_filter, Hs |]. split; [exact Hsum |].
  rewrite <- Hsum. apply Hbal, Hin.
Qed.

Lemma invoice_read_back_adds_up_witness :
  (exists (inv : Invoice.t) (rows : list InvoiceItem.t),
     get_single_invoice_api "31" (serve acme_history empty_db) = Some (inv, rows)
     /\ rows <> []
     /\ Invoice.total_amount inv
        = round2 (fold_left Qplus (map InvoiceItem.amount rows) 0%Q))
  /\ invoice_row "77" (serve acme_history empty_db) = None.
Proof.
  split.
  - pose proof (invoice_read_back_adds_up acme_history "31") as H.
    destruct (get_single_invoice_api "31" (serve acme_history empty_db))
      as [[inv rows] |] eqn:Hget.
    + exists inv, rows. split; [reflexivity |]. tauto.
    + vm_compute in Hget. discriminate Hget.
  - pose proof (invoice_read_back_adds_up acme_history "77") as H.
    destruct (get_single_invoice_api "77" (serve acme_history empty_db))
      as [[inv rows] |] eqn:Hget.
    + vm_compute in Hget. discriminate Hget.
    + exact H.
Defined.

(** X16.  Write, then read.  On a store reached by any history, after an
    accepted creation [get_single_invoice_api] returns, under the new number,
    a row with the party, the date and the rounded total of the request and
    item rows that are the items of the request, field by field and in the
    order of the request; after an update of a stored invoice it returns the
    same rowid with the new party, date and total and the items of the update
    request, the old item rows being gone. *)
Theorem written_invoice_reads_back :
  forall (history : list request) (p dt n : string) (items : list Item.t),
    blank p = false -> blank dt = false -> items <> [] ->
    (blank n = false -> invoice_row n (serve history empty_db) = None ->
     exists (inv : Invoice.t) (rows : list InvoiceItem.t),
       get_single_invoice_api n
         (snd (create_invoice_api p dt n items (serve history empty_db)))
       = Some (inv, rows)
       /\ Invoice.party_name inv = p /\ Invoice.date inv = dt
       /\ Invoice.total_amount inv = items_total items
       /\ map item_of_row rows = items)
    /\ (forall r : Invoice.t,
          invoice_row n (serve history empty_db) = Some r ->
          exists (inv : Invoice.t) (rows : list InvoiceItem.t),
            get_single_invoice_api n
              (snd (update_invoice_api n p dt items (serve history empty_db)))
            = Some (inv, rows)
            /\ Invoice.id inv = Invoice.id r
            /\ Invoice.party_name inv = p /\ Invoice.date inv = dt
            /\ Invoice.total_amount inv = items_total items
            /\ map item_of_row rows = items).
Proof.
  intros history p dt n items Hp Hdt Hitems. set (d := serve history empty_db).
  destruct (serve_consistent history empty_db empty_db_consistent) as [Hwf _].
  fold d in Hwf.
  pose proof (serve_itemised history) as Hit. fold d in Hit.
  split.
  - intros Hn Hrow.
    pose proof (create_invoice_api_itemised p dt n items d Hwf Hit) as [Hs _].
    revert Hs. unfold create_invoice_api. rewrite Hp, Hdt, Hn. cbn [orb].
    destruct items as [| it items]; [congruence |].
    rewrite (create_invoice_work_exact p dt n (it :: items) d Hrow). cbn [snd].
    set (d' := with_items _ _ _). intros Hs.
    exists (created_row p dt n (it :: items) d),
           (item_rows (seq_invoice_items (sqlite_sequence d))
                      (seq_invoices (sqlite_sequence d) + 1) (it :: items)).
    split; [| split; [reflexivity | split; [reflexivity | split; [reflexivity |]]]].
    + unfold get_single_invoice_api.
      assert (Hfind : find (fun i => String.eqb (Invoice.invoice_number i) n)
                           (invoices d')
                      = Some (created_row p dt n (it :: items) d)).
      { subst d'. cbn [invoices with_items]. rewrite find_app_list.
        unfold invoice_row in Hrow. rewrite Hrow. cbn [find].
        unfold created_row at 1. cbn [Invoice.invoice_number].
        rewrite String.eqb_refl. reflexivity. }
      rewrite Hfind. f_equal. f_equal.
      rewrite (select_invoice_items_sorted _ d' Hs).
      subst d'. cbn [invoice_items with_items]. unfold created_row.
      cbn [Invoice.id]. rewrite filter_app.
      destruct Hit as [_ [_ [Hown _]]].
      rewrite (filter_owner_unlisted _ (keys d) (invoice_items d) Hown).
      * cbn [app]. apply filter_owner_all, item_rows_owner.
      * rewrite keys_ids. intros Hin. apply in_map_iff in Hin.
        destruct Hin as [i [Hid Hi]].
        pose proof (wf_invoice_seq d Hwf) as Hseq. rewrite Forall_forall in Hseq.
        specialize (Hseq i Hi). lia.
    + apply item_rows_back.
  - intros r Hrow.
    pose proof (update_invoice_api_itemised n p dt items d Hwf Hit) as [Hs _].
    revert Hs. unfold update_invoice_api. rewrite Hp, Hdt. cbn [orb].
    destruct items as [| it items]; [congruence |].
    unfold select_invoice, query. unfold invoice_row in Hrow. rewrite Hrow.
    pose proof (find_some _ _ Hrow) as [Hin Hnum]. apply String.eqb_eq in Hnum.
    rewrite (update_invoice_work_exact r n p dt (it :: items) d
               (wf_invoice_ids d Hwf) Hin). cbn [snd]. intros Hs.
    exists (Invoice.set_details p dt (items_total (it :: items))
              (Invoice.previous_balance r + items_total (it :: items))%Q r),
           (item_rows (seq_invoice_items (sqlite_sequence d)) (Invoice.id r)
                      (it :: items)).
    split; [| split; [reflexivity | split; [reflexivity | split; [reflexivity |
              split; [reflexivity |]]]]].
    + unfold get_single_invoice_api.
      rewrite (after_update_find (fun i => String.eqb (Invoice.invoice_number i) n)
                 r n p dt (it :: items) d); auto using number_pred_stamp.
      * f_equal. f_equal. rewrite (select_invoice_items_sorted _ _ Hs).
        destruct (after_update_tables r n p dt (it :: items) d) as [_ ->].
        cbn [Invoice.id Invoice.set_details]. rewrite filter_app.
        rewrite (filter_owner_all _ _ (item_rows_owner _ _ _)).
        rewrite filter_nil; [reflexivity |].
        intros x Hx. apply filter_In in Hx. destruct Hx as [_ Hx].
        apply negb_true_iff in Hx. exact Hx.
      * intros i. unfold detail_row.
        destruct (Invoice.id i =? Invoice.id r); reflexivity.
      * apply (wf_invoice_ids d Hwf).
    + apply item_rows_back.
Qed.

Lemma written_invoice_reads_back_witness :
  exists (inv : Invoice.t) (rows : list InvoiceItem.t),
    get_single_invoice_api "32"
      (snd (create_invoice_api "Acme" "2024-02-01" "32"
              [Item.mk "flour" 2 "bag" 5 10; Item.mk "salt" 1 EmptyString 3 3]
              (serve acme_history empty_db)))
    = Some (inv, rows)
    /\ Invoice.total_amount inv
       = items_total [Item.mk "flour" 2 "bag" 5 10; Item.mk "salt" 1 EmptyString 3 3]
    /\ map item_of_row rows
       = [Item.mk "flour" 2 "bag" 5 10; Item.mk "salt" 1 EmptyString 3 3].
Proof.
  destruct (written_invoice_reads_back acme_history "Acme" "2024-02-01" "32"
              [Item.mk "flour" 2 "bag" 5 10; Item.mk "salt" 1 EmptyString 3 3])
    as [Hcreate _]; [reflexivity | reflexivity | discriminate |].
  destruct Hcreate as [inv [rows [Hget [_ [_ [Htot Hrows]]]]]];
    [reflexivity | vm_compute; reflexivity |].
  exists inv, rows. auto.
Defined.

(** ** Taking a payment back *)

(** X17.  Recording a payment and then deleting it under the rowid that was
    answered undoes it: on a store reached by any history the payments table
    is the one before, no invoice row or item row has changed, and every
    party has the balance it had.  Two things stay: a party created by the
    payment is still stored, and the rowid is not handed out again. *)
Theorem recorded_payment_can_be_taken_back :
  forall (history : list request) (p : string) (a : Q) (dt rm : string),
    blank p = false -> blank dt = false -> (0 < a)%Q ->
    exists k : Z,
      fst (record_payment_api p a dt rm (serve history empty_db))
      = PaymentRecorded k
          (current_balance p
             (snd (record_payment_api p a dt rm (serve history empty_db))))
      /\ fst (delete_payment k
                (snd (record_payment_api p a dt rm (serve history empty_db))))
         = PaymentDeleted p (current_balance p (serve history empty_db))
      /\ payments (snd (delete_payment k
                     (snd (record_payment_api p a dt rm (serve history empty_db)))))
         = payments (serve history empty_db)
      /\ invoices (snd (delete_payment k
                     (snd (record_payment_api p a dt rm (serve history empty_db)))))
         = invoices (serve history empty_db)
      /\ invoice_items (snd (delete_payment k
                     (snd (record_payment_api p a dt rm (serve history empty_db)))))
         = invoice_items (serve history empty_db)
      /\ (forall q : string,
            current_balance q
              (snd (delete_payment k
                      (snd (record_payment_api p a dt rm (serve history empty_db)))))
            = current_balance q (serve history empty_db))
      /\ has_party p (snd (delete_payment k
                        (snd (record_payment_api p a dt rm (serve history empty_db)))))
      /\ seq_payments (sqlite_sequence (serve history empty_db)) < k
      /\ seq_payments (sqlite_sequence
           (snd (delete_payment k
                   (snd (record_payment_api p a dt rm (serve history empty_db))))))
         = k.
Proof.
  intros history p a dt rm Hp Hdt Ha. set (d := serve history empty_db).
  pose proof (serve_registered history) as [_ _ Hseq _]. fold d in Hseq.
  exists (seq_payments (sqlite_sequence d) + 1).
  rewrite record_payment_api_exact. rewrite Hp, Hdt. cbn [orb].
  assert (Hpos : Qle_bool a 0 = false) by (apply Qle_bool_false, Ha).
  rewrite Hpos. cbv zeta.
  destruct (with_party_tables p d) as [Hi [Hit [Hpay [_ [_ [_ Hsp]]]]]].
  rewrite Hsp, Hpay, Hi, Hit. cbn [fst snd].
  set (row := Payment.mk (seq_payments (sqlite_sequence d) + 1) p a dt rm).
  set (d1 := mk_db _ _ _ _ _ _).
  assert (Hold : forall x, In x (payments d) ->
                   (Payment.id x =? seq_payments (sqlite_sequence d) + 1) = false).
  { intros x Hx. rewrite Forall_forall in Hseq. specialize (Hseq x Hx).
    apply Z.eqb_neq. lia. }
  assert (Hfind : find (fun x => Payment.id x =? seq_payments (sqlite_sequence d) + 1)
                       (payments d1) = Some row).
  { subst d1. cbn [payments]. rewrite find_app_list.
    destruct (find _ (payments d)) as [x |] eqn:Hx.
    - apply find_some in Hx. destruct Hx as [Hx Hid]. rewrite (Hold x Hx) in Hid.
      discriminate Hid.
    - cbn [find]. subst row. cbn [Payment.id]. rewrite Z.eqb_refl. reflexivity. }
  assert (Hback : filter (fun x => negb (Payment.id x
                                          =? seq_payments (sqlite_sequence d) + 1))
                         (payments d1) = payments d).
  { subst d1. cbn [payments]. rewrite filter_app. cbn [filter]. subst row.
    cbn [Payment.id]. rewrite Z.eqb_refl. cbn [negb]. rewrite app_nil_r.
    apply filter_all. intros x Hx. rewrite (Hold x Hx). reflexivity. }
  rewrite delete_payment_run, Hfind. cbv zeta. cbn [fst snd]. rewrite Hback.
  set (d2 := set_payments (payments d) d1).
  assert (Hbal : forall q, current_balance q d2 = current_balance q d).
  { intros q. rewrite <- (current_balance_with_party p q d).
    unfold current_balance, invoices_total, payments_total, party_invoices,
      party_payments, opening_balance.
    subst d2 d1. cbn [parties invoices payments set_payments]. rewrite Hi, Hpay.
    reflexivity. }
  split; [| split; [| split; [| split; [| split; [| split; [| split; [| split]]]]]]].
  - reflexivity.
  - f_equal. apply Hbal.
  - reflexivity.
  - subst d2 d1. cbn [invoices set_payments]. reflexivity.
  - subst d2 d1. cbn [invoice_items set_payments]. reflexivity.
  - exact Hbal.
  - unfold has_party. subst d2 d1. cbn [parties set_payments].
    apply with_party_has_party.
  - lia.
  - subst d2 d1. cbn. reflexivity.
Qed.

Lemma recorded_payment_can_be_taken_back_witness :
  exists k : Z,
    fst (record_payment_api "Zed" 15 "2024-02-01" EmptyString
                            (serve acme_history empty_db))
    = PaymentRecorded k (-15)
    /\ payments (snd (delete_payment k
                   (snd (record_payment_api "Zed" 15 "2024-02-01" EmptyString
                                            (serve acme_history empty_db)))))
       = payments (serve acme_history empty_db)
    /\ has_party "Zed"
         (snd (delete_payment k
                 (snd (record_payment_api "Zed" 15 "2024-02-01" EmptyString
                                          (serve acme_history empty_db)))))
    /\ ~ has_party "Zed" (serve acme_history empty_db).
Proof.
  destruct (recorded_payment_can_be_taken_back acme_history "Zed" 15 "2024-02-01"
              EmptyString) as [k [Hrec [_ [Hpay [_ [_ [_ [Hparty _]]]]]]]];
    [reflexivity | reflexivity | reflexivity |].
  exists k. split; [| split; [exact Hpay | split; [exact Hparty |]]].
  - rewrite Hrec. vm_compute. reflexivity.
  - unfold has_party. vm_compute. discriminate.
Defined.

(** ** Running the recalculation again *)

Lemma insert_by_map {A} (leb : A -> A -> bool) (f : A -> A) (x : A) (l : list A) :
  (forall a b, leb (f a) (f b) = leb a b) ->
  insert_by leb (f x) (map f l) = map f (insert_by leb x l).
Proof.
  intros H. induction l as [| y l IH]; [reflexivity |].
  cbn [map insert_by]. rewrite H. destruct (leb x y); cbn [map]; [reflexivity |].
  rewrite IH. reflexivity.
Qed.

Lemma order_by_map {A} (leb : A -> A -> bool) (f : A -> A) (l : list A) :
  (forall a b, leb (f a) (f b) = leb a b) ->
  order_by leb (map f l) = map f (order_by leb l).
Proof.
  intros H. induction l as [| x l IH]; [reflexivity |].
  cbn [map order_by]. rewrite IH. apply insert_by_map, H.
Qed.

Lemma stamps_map (plan : list (Z * (Q * Q))) (l : list Invoice.t) (start : Q) :
  stamps (map (stamp_row plan) l) start = stamps l start.
Proof.
  revert start. induction l as [| r l IH]; intros start; [reflexivity |].
  cbn [map stamps].
  destruct (stamp_row_keys plan r) as [-> [_ [_ [_ ->]]]]. rewrite IH. reflexivity.
Qed.

Lemma stamp_row_twice (plan : list (Z * (Q * Q))) (r : Invoice.t) :
  stamp_row plan (stamp_row plan r) = stamp_row plan r.
Proof.
  unfold stamp_row at 1. destruct (stamp_row_keys plan r) as [-> _].
  unfold stamp_row. destruct (assoc (Invoice.id r) plan) as [[pb gt] |];
    reflexivity.
Qed.

Lemma pass_twice (q sd sn : string) (d : db) :
  pass q sd sn (pass q sd sn d) = pass q sd sn d.
Proof.
  set (plan := stamps (subsequent q sd sn d) (balance_before q sd sn d)).
  assert (Hkeys : forall r, Invoice.party_name (stamp_row plan r) = Invoice.party_name r
                            /\ Invoice.date (stamp_row plan r) = Invoice.date r
                            /\ Invoice.invoice_number (stamp_row plan r)
                               = Invoice.invoice_number r).
  { intros r. destruct (stamp_row_keys plan r) as [_ [H1 [H2 [H3 _]]]]. auto. }
  assert (Hparty : forall w,
             party_invoices q (set_invoices (map (stamp_row plan) (invoices d)) w)
             = map (stamp_row plan) (party_invoices q d)).
  { intros w. unfold party_invoices. cbn [invoices set_invoices].
    apply filter_map_keys. intros r. destruct (Hkeys r) as [-> _]. reflexivity. }
  assert (Hsub : subsequent q sd sn (pass q sd sn d)
                 = map (stamp_row plan) (subsequent q sd sn d)).
  { unfold subsequent, pass. fold plan. rewrite Hparty.
    rewrite (filter_map_keys (after_cutoff sd sn)).
    - apply order_by_map. intros a b. unfold chronological_leb.
      destruct (Hkeys a) as [_ [-> ->]]. destruct (Hkeys b) as [_ [-> ->]].
      reflexivity.
    - intros r. unfold after_cutoff. destruct (Hkeys r) as [_ [-> ->]]. reflexivity. }
  assert (Hbefore : balance_before q sd sn (pass q sd sn d) = balance_before q sd sn d).
  { unfold balance_before, pass. fold plan. rewrite Hparty.
    rewrite (filter_map_keys (before_cutoff sd sn)).
    - rewrite map_map.
      rewrite (map_ext (fun x => Invoice.total_amount (stamp_row plan x))
                       Invoice.total_amount); [reflexivity |].
      intros r. apply stamp_row_keys.
    - intros r. unfold before_cutoff. destruct (Hkeys r) as [_ [-> ->]]. reflexivity. }
  unfold pass at 1. rewrite Hsub, Hbefore, stamps_map. fold plan.
  unfold pass. fold plan. cbn [invoices set_invoices]. unfold set_invoices. cbn.
  f_equal. rewrite map_map. apply map_ext. intros r. apply stamp_row_twice.
Qed.

(** X18.  On a table with distinct rowids the forward recalculation
    [update_subsequent_invoice_balances] always completes, and running it a
    second time from the same cut-off changes nothing: the store it reaches is
    a fixed point.  It never changes the current balance of any party. *)
Theorem recalculation_is_idempotent :
  forall (q sd sn : string) (d : db),
    NoDup (map Invoice.id (invoices d)) ->
    exists d' : db,
      update_subsequent_invoice_balances q sd sn d = Done tt d'
      /\ update_subsequent_invoice_balances q sd sn d' = Done tt d'
      /\ forall p : string, current_balance p d' = current_balance p d.
Proof.
  intros q sd sn d Hnd. exists (pass q sd sn d).
  split; [apply pass_run, Hnd |]. split.
  - rewrite pass_run.
    + rewrite pass_twice. reflexivity.
    + destruct (pass_tables q sd sn d) as [_ [_ [_ ->]]]. exact Hnd.
  - intros p. unfold current_balance. fold (raw_balance p (pass q sd sn d)).
    fold (raw_balance p d). rewrite raw_balance_pass. reflexivity.
Qed.

Lemma recalculation_is_idempotent_witness :
  exists d' : db,
    update_subsequent_invoice_balances "Acme" "2024-01-01" "30" acme_after_update
    = Done tt d'
    /\ update_subsequent_invoice_balances "Acme" "2024-01-01" "30" d' = Done tt d'.
Proof.
  destruct (recalculation_is_idempotent "Acme" "2024-01-01" "30" acme_after_update)
    as [d' [H1 [H2 _]]].
  - vm_compute. repeat constructor; cbn; intuition discriminate.
  - exists d'. auto.
Defined.

(** ** Setting the opening balance *)

Lemma opening_after_insert (p q : string) (b : Q) (d d' : db) :
  find (fun x => String.eqb (Party.name x) p) (parties d) = None ->
  parties d' = parties d ++ [Party.mk (seq_parties (sqlite_sequence d) + 1) p (Some b)] ->
  opening_balance q d' = if String.eqb p q then b else opening_balance q d.
Proof.
  intros Hnone Hpar. unfold opening_balance. rewrite Hpar, find_app_list.
  destruct (String.eqb p q) eqn:Heq.
  - apply String.eqb_eq in Heq. subst q. rewrite Hnone. cbn.
    rewrite String.eqb_refl. reflexivity.
  - destruct (find (fun x => String.eqb (Party.name x) q) (parties d));
      [reflexivity |]. cbn. rewrite Heq. reflexivity.
Qed.

Lemma opening_after_update (p q : string) (b : Q) (row : Party.t) (d d' : db) :
  NoDup (map Party.id (parties d)) ->
  find (fun x => String.eqb (Party.name x) p) (parties d) = Some row ->
  parties d'
  = map (fun x => if Party.id x =? Party.id row
                  then Party.mk (Party.id x) (Party.name x) (Some b) else x)
        (parties d) ->
  opening_balance q d' = if String.eqb p q then b else opening_balance q d.
Proof.
  intros Hnd Hrow Hpar. unfold opening_balance. rewrite Hpar.
  rewrite (find_map_pred (fun x => String.eqb (Party.name x) q)).
  - pose proof (find_some _ _ Hrow) as [Hin Hname]. apply String.eqb_eq in Hname.
    destruct (String.eqb p q) eqn:Heq.
    + apply String.eqb_eq in Heq. subst q. rewrite Hrow. cbn.
      rewrite Z.eqb_refl. reflexivity.
    + destruct (find (fun x => String.eqb (Party.name x) q) (parties d))
        as [x |] eqn:Hx; [| reflexivity].
      apply find_some in Hx. destruct Hx as [Hxin Hxname].
      apply String.eqb_eq in Hxname. cbn [option_map].
      destruct (Party.id x =? Party.id row) eqn:Hid; [| reflexivity].
      apply Z.eqb_eq in Hid.
      assert (x = row) by (apply (NoDup_map_inj Party.id (parties d)); assumption).
      subst x. apply String.eqb_neq in Heq. congruence.
  - intros x. destruct (Party.id x =? Party.id row); reflexivity.
Qed.

(** X19.  [set_prev_balance] answers 400 and changes nothing when the party
    name is blank or the balance is missing or not a number.  Otherwise, on a
    table with distinct party rowids, it stores the given opening balance for
    the party, creating the party when it is not stored (201) and overwriting
    the old value when it is (200); it reports the balance
    opening + invoices - payments with the new opening balance; it appends one
    adjustment row holding the old opening balance (0 for a new party), the
    new one, the reason (a fixed text when none is given) and the two clock
    readings; it leaves every other party's opening balance and every
    invoice row, item row, payment and stock batch as they were, so the
    balances stored on the party's invoices are not recalculated. *)
Theorem set_prev_balance_effects :
  forall (today now p : string) (input : balance_input) (reason : option string)
         (a : audited),
    (blank p = true \/ input = NoBalance \/ input = BadBalance ->
     exists msg, set_prev_balance today now p input reason a = (BalanceRejected msg, a))
    /\ forall b : Q,
         blank p = false ->
         NoDup (map Party.id (parties (store a))) ->
         fst (set_prev_balance today now p (Balance b) reason a)
         = BalanceSet
             (if existsb (fun x => String.eqb (Party.name x) p) (parties (store a))
              then 200 else 201)
             (round2 (b + invoices_total p (store a) - payments_total p (store a)))
         /\ (forall q : string,
               opening_balance q (store (snd (set_prev_balance today now p (Balance b)
                                                               reason a)))
               = if String.eqb p q then b else opening_balance q (store a))
         /\ invoices (store (snd (set_prev_balance today now p (Balance b) reason a)))
            = invoices (store a)
         /\ invoice_items (store (snd (set_prev_balance today now p (Balance b) reason a)))
            = invoice_items (store a)
         /\ payments (store (snd (set_prev_balance today now p (Balance b) reason a)))
            = payments (store a)
         /\ stock (store (snd (set_prev_balance today now p (Balance b) reason a)))
            = stock (store a)
         /\ exists party_id : Z,
              opening_balance_adjustments
                (snd (set_prev_balance today now p (Balance b) reason a))
              = opening_balance_adjustments a
                ++ [Adjustment.mk (seq_adjustments a + 1) party_id today
                      (opening_balance p (store a)) b
                      (match reason with
                       | Some r => r
                       | None => "No reason provided"%string
                       end) now].
Proof.
  intros today now p input reason a. split.
  - intros H. unfold set_prev_balance.
    destruct (blank p); cbn [orb]; [eexists; reflexivity |].
    destruct H as [H | [-> | ->]]; [discriminate | |]; eexists; reflexivity.
  - intros b Hp Hnd. unfold set_prev_balance. rewrite Hp. cbn [orb].
    unfold select_party. rewrite bind_query.
    destruct (find (fun x => String.eqb (Party.name x) p) (parties (store a)))
      as [row |] eqn:Hrow.
    + rewrite (find_some_existsb _ _ _ Hrow).
      unfold update_party_balance, bind, modify, ret. cbv beta.
      rewrite !calculate_current_party_balance_run. cbn [fst snd store].
      set (d' := set_parties _ (store a)).
      assert (Hopen : forall q, opening_balance q d'
                                = if String.eqb p q then b
                                  else opening_balance q (store a)).
      { intros q. apply (opening_after_update p q b row (store a) d' Hnd Hrow).
        reflexivity. }
      split; [| split; [exact Hopen |]].
      * f_equal. unfold current_balance. rewrite Hopen, String.eqb_refl. reflexivity.
      * repeat (split; [reflexivity |]).
        exists (Party.id row). unfold insert_adjustment. cbn [fst snd].
        unfold opening_balance. rewrite Hrow. reflexivity.
    + rewrite (find_none_existsb _ _ Hrow).
      unfold bind, insert_party, ret. cbv beta.
      rewrite !(find_none_existsb _ _ Hrow).
      rewrite !calculate_current_party_balance_run. cbn [fst snd store].
      set (d' := mk_db _ _ _ _ _ _).
      assert (Hopen : forall q, opening_balance q d'
                                = if String.eqb p q then b
                                  else opening_balance q (store a)).
      { intros q. apply (opening_after_insert p q b (store a) d' Hrow). reflexivity. }
      split; [| split; [exact Hopen |]].
      * f_equal. unfold current_balance. rewrite Hopen, String.eqb_refl. reflexivity.
      * repeat (split; [reflexivity |]).
        exists (seq_parties (sqlite_sequence (store a)) + 1).
        unfold insert_adjustment. cbn [fst snd].
        unfold opening_balance. rewrite Hrow. reflexivity.
Qed.

Lemma set_prev_balance_effects_witness :
  fst (set_prev_balance "2024-03-01" "2024-03-01 10:00:00" "Acme" (Balance 25) None
         (mk_audited (serve acme_history empty_db) [] 0))
  = BalanceSet 200 115
  /\ invoices (store (snd (set_prev_balance "2024-03-01" "2024-03-01 10:00:00" "Acme"
                             (Balance 25) None
                             (mk_audited (serve acme_history empty_db) [] 0))))
     = [Invoice.mk 1 "30" "Acme" "2024-01-01" 100 0 100;
        Invoice.mk 2 "31" "Acme" "2024-01-02" 50 100 150].
Proof.
  destruct (set_prev_balance_effects "2024-03-01" "2024-03-01 10:00:00" "Acme"
              (Balance 25) None (mk_audited (serve acme_history empty_db) [] 0))
    as [_ H].
  destruct (H 25%Q) as [Hresp [_ [Hinv _]]].
  - reflexivity.
  - vm_compute. repeat constructor; cbn; intuition discriminate.
  - split.
    + rewrite Hresp. vm_compute. reflexivity.
    + rewrite Hinv. vm_compute. reflexivity.
Defined.

(** ** Listing the parties *)

Lemma append_balances_run (names : list string) (acc : list (string * Q)) (d : db) :
  append_balances names acc d
  = Done (acc ++ map (fun n => (n, current_balance n d)) names) d.
Proof.
  revert acc. induction names as [| n rest IH]; intros acc; cbn [append_balances map].
  - rewrite app_nil_r. reflexivity.
  - rewrite (bind_done _ _ _ _ _ (calculate_current_party_balance_run n d)).
    rewrite IH, <- app_assoc. reflexivity.
Qed.

Lemma text_leb_total (a b : string) : text_leb a b = false -> text_leb b a = true.
Proof.
  unfold text_leb. rewrite (String.compare_antisym a b).
  destruct (String.compare b a); cbn; congruence.
Qed.

Lemma text_leb_strict (a b : string) :
  text_leb a b = true -> a <> b -> text_ltb a b = true.
Proof.
  unfold text_leb, text_ltb. intros Hle Hne.
  destruct (String.compare a b) eqn:Hc; [| reflexivity | discriminate].
  apply String.compare_eq_iff in Hc. congruence.
Qed.

Lemma sorted_strict (l : list string) :
  Sorted (fun a b => text_leb a b = true) l -> NoDup l ->
  Sorted (fun a b => text_ltb a b = true) l.
Proof.
  induction 1 as [| a l Hs IH Hhd]; intros Hnd; [constructor |].
  inversion Hnd as [| ? ? Hnotin Hnd']; subst.
  constructor; [apply IH, Hnd' |].
  destruct Hhd as [| b l Hab]; constructor.
  apply text_leb_strict; [exact Hab |]. intros ->. apply Hnotin. left. reflexivity.
Qed.

(** X20.  On a store reached by any history, [get_parties_list] (and
    [get_all_party_ledgers_api], which runs the same statements) lists every
    stored party exactly once, in strictly increasing bytewise order of the
    names, each with the balance opening + invoices - payments rounded to two
    decimals; every party named by a stored invoice or payment is in the
    list. *)
Theorem parties_list_is_complete_and_ordered :
  forall history : list request,
    exists listing : list (string * Q),
      get_parties_list (serve history empty_db) = Some listing
      /\ Permutation (map fst listing)
                     (map Party.name (parties (serve history empty_db)))
      /\ Sorted (fun a b => text_ltb a b = true) (map fst listing)
      /\ (forall n b, In (n, b) listing ->
                      b = current_balance n (serve history empty_db))
      /\ (forall i, In i (invoices (serve history empty_db)) ->
                    In (Invoice.party_name i) (map fst listing))
      /\ (forall p, In p (payments (serve history empty_db)) ->
                    In (Payment.party_name p) (map fst listing)).
Proof.
  intros history. set (d := serve history empty_db).
  destruct (serve_consistent history empty_db empty_db_consistent)
    as [_ [_ [Hinv Hpay]]]. fold d in Hinv, Hpay.
  pose proof (serve_registered history) as [Hnames _ _ _]. fold d in Hnames.
  set (names := order_by text_leb (map Party.name (parties d))).
  exists (map (fun n => (n, current_balance n d)) names).
  assert (Hfst : map fst (map (fun n => (n, current_balance n d)) names) = names).
  { rewrite map_map. cbn [fst]. apply map_id. }
  assert (Hperm : Permutation names (map Party.name (parties d)))
    by apply order_by_perm.
  assert (Hlisted : forall q, has_party q d -> In q names).
  { intros q Hq. unfold has_party in Hq. apply existsb_exists in Hq.
    destruct Hq as [x [Hx Hname]]. apply String.eqb_eq in Hname. subst q.
    apply (Permutation_in _ (Permutation_sym Hperm)). apply in_map, Hx. }
  rewrite Hfst. split; [| split; [exact Hperm | split; [| split; [| split]]]].
  - unfold get_parties_list, select_party_names. rewrite bind_query.
    fold names. rewrite append_balances_run. reflexivity.
  - apply sorted_strict.
    + apply (order_by_sorted text_leb text_leb_total).
    + apply (Permutation_NoDup (Permutation_sym Hperm)), Hnames.
  - intros n b Hin. apply in_map_iff in Hin. destruct Hin as [m [[= <- <-] _]].
    reflexivity.
  - intros i Hi. rewrite Forall_forall in Hinv. apply Hlisted, Hinv, Hi.
  - intros p Hp. rewrite Forall_forall in Hpay. apply Hlisted, Hpay, Hp.
Qed.

Lemma parties_list_is_complete_and_ordered_witness :
  exists listing : list (string * Q),
    get_parties_list (serve acme_history empty_db) = Some listing
    /\ In "Acme"%string (map fst listing)
    /\ forall n b, In (n, b) listing -> b = current_balance n (serve acme_history empty_db).
Proof.
  destruct (parties_list_is_complete_and_ordered acme_history)
    as [listing [Hget [_ [_ [Hbal [Hinv _]]]]]].
  exists listing. split; [exact Hget |]. split; [| exact Hbal].
  apply (Hinv (Invoice.mk 1 "30" "Acme" "2024-01-01" 100 0 100)).
  vm_compute. left. reflexivity.
Defined.

(** ** The adjustments as an audit trail *)

Lemma logged_snoc (k : Z) (log : list Adjustment.t) (e : Adjustment.t) :
  logged_balance k (log ++ [e])
  = if Adjustment.party_id e =? k then Adjustment.new_balance e
    else logged_balance k log.
Proof. unfold logged_balance. rewrite fold_left_app. reflexivity. Qed.

Lemma logged_unlisted (k : Z) (log : list Adjustment.t) :
  Forall (fun e => Adjustment.party_id e <> k) log -> logged_balance k log = 0%Q.
Proof.
  unfold logged_balance. generalize 0%Q.
  induction log as [| e log IH]; intros acc Hall; [reflexivity |].
  inversion Hall as [| ? ? He Hrest]; subst. cbn [fold_left].
  apply Z.eqb_neq in He. rewrite He. apply IH, Hrest.
Qed.

Lemma chain_snoc (log : list Adjustment.t) (e : Adjustment.t) :
  (forall n x, nth_error log n = Some x ->
               Adjustment.old_balance x
               = logged_balance (Adjustment.party_id x) (firstn n log)) ->
  Adjustment.old_balance e = logged_balance (Adjustment.party_id e) log ->
  forall n x, nth_error (log ++ [e]) n = Some x ->
              Adjustment.old_balance x
              = logged_balance (Adjustment.party_id x) (firstn n (log ++ [e])).
Proof.
  intros Hchain He n x Hn.
  destruct (Nat.lt_ge_cases n (List.length log)) as [Hlt | Hge].
  - rewrite nth_error_app1 in Hn by exact Hlt.
    rewrite firstn_app.
    replace (n - List.length log)%nat with O by lia.
    cbn [firstn]. rewrite app_nil_r. apply Hchain, Hn.
  - rewrite nth_error_app2 in Hn by exact Hge.
    destruct (n - List.length log)%nat as [| m] eqn:Hm.
    + cbn in Hn. injection Hn as <-.
      rewrite firstn_app, Hm. cbn [firstn]. rewrite app_nil_r.
      rewrite firstn_all2 by lia. exact He.
    + cbn in Hn. destruct m; discriminate Hn.
Qed.

(** What a ledger or stock request does to the parties table. *)
Lemma handle_parties (r : request) (d : db) :
  well_formed d ->
  exists p : string,
    (parties (snd (handle r d)) = parties d
     /\ seq_parties (sqlite_sequence (snd (handle r d)))
        = seq_parties (sqlite_sequence d))
    \/ (parties (snd (handle r d)) = parties (with_party p d)
        /\ seq_parties (sqlite_sequence (snd (handle r d)))
           = seq_parties (sqlite_sequence (with_party p d))).
Proof.
  intros Hwf. destruct r; cbn [handle].
  - exists party_name. unfold create_invoice_api.
    destruct (blank party_name || blank invoice_date || blank invoice_number);
      [left; auto |].
    destruct items as [| it items]; [left; auto |].
    destruct (invoice_row invoice_number d) as [r |] eqn:Hrow.
    + rewrite create_invoice_work_duplicate by congruence.
      destruct (contains _ _); left; auto.
    + rewrite (create_invoice_work_exact _ _ _ (it :: items) d Hrow).
      right. split; reflexivity.
  - exists party_name. unfold update_invoice_api.
    destruct (blank party_name || blank date); [left; auto |].
    destruct items as [| it items]; [left; auto |].
    unfold select_invoice, query.
    destruct (find _ (invoices d)) as [r |] eqn:Hrow; [| left; auto].
    pose proof (find_some _ _ Hrow) as [Hin _].
    rewrite (update_invoice_work_exact r _ party_name date (it :: items) d
               (wf_invoice_ids d Hwf) Hin). cbn [snd].
    unfold after_update. cbv zeta.
    destruct (String.eqb (Invoice.party_name r) party_name);
      [left | right]; cbn [negb orb];
      destruct (negb (Qeq_bool _ _)); split; reflexivity.
  - exists EmptyString. left.
    destruct (invoice_row invoice_number_to_delete d) as [r |] eqn:Hrow.
    + rewrite (delete_invoice_exact _ r d (wf_invoice_ids d Hwf) Hrow).
      split; reflexivity.
    + unfold delete_invoice, select_invoice, query. unfold invoice_row in Hrow.
      rewrite Hrow. auto.
  - exists party_name. rewrite record_payment_api_exact.
    destruct (blank party_name || blank date); [left; auto |].
    destruct (Qle_bool amount 0); [left; auto |]. right. split; reflexivity.
  - exists EmptyString. left. rewrite delete_payment_run.
    destruct (find _ (payments d)); split; reflexivity.
  - exists EmptyString. left.
    pose proof (add_stock_batch_api_keeps_ledger items_to_add d) as H.
    unfold ledger_side in H. injection H as H1 H2 H3 H4 H5 H6 H7 H8. auto.
  - exists EmptyString. left.
    pose proof (deduct_stock_api_keeps_ledger items_to_deduct d) as H.
    unfold ledger_side in H. injection H as H1 H2 H3 H4 H5 H6 H7 H8. auto.
Qed.

(** The three things [set_prev_balance] can do to the store and the log. *)
Lemma set_prev_balance_cases (today now p : string) (input : balance_input)
    (reason : option string) (a : audited) :
  snd (set_prev_balance today now p input reason a) = a
  \/ (exists (b : Q) (row : Party.t) (e : Adjustment.t),
        find (fun x => String.eqb (Party.name x) p) (parties (store a)) = Some row
        /\ store (snd (set_prev_balance today now p input reason a))
           = set_parties
               (map (fun x => if Party.id x =? Party.id row
                              then Party.mk (Party.id x) (Party.name x) (Some b)
                              else x)
                    (parties (store a)))
               (store a)
        /\ opening_balance_adjustments (snd (set_prev_balance today now p input reason a))
           = opening_balance_adjustments a ++ [e]
        /\ Adjustment.party_id e = Party.id row
        /\ Adjustment.old_balance e = or_zero (Party.initial_opening_balance row)
        /\ Adjustment.new_balance e = b)
  \/ (exists (b : Q) (e : Adjustment.t),
        find (fun x => String.eqb (Party.name x) p) (parties (store a)) = None
        /\ store (snd (set_prev_balance today now p input reason a))
           = mk_db (parties (store a)
                    ++ [Party.mk (seq_parties (sqlite_sequence (store a)) + 1) p (Some b)])
                   (invoices (store a)) (invoice_items (store a)) (payments (store a))
                   (stock (store a))
                   (mk_sequence (seq_parties (sqlite_sequence (store a)) + 1)
                                (seq_invoices (sqlite_sequence (store a)))
                                (seq_invoice_items (sqlite_sequence (store a)))
                                (seq_payments (sqlite_sequence (store a)))
                                (seq_stock (sqlite_sequence (store a))))
        /\ opening_balance_adjustments (snd (set_prev_balance today now p input reason a))
           = opening_balance_adjustments a ++ [e]
        /\ Adjustment.party_id e = seq_parties (sqlite_sequence (store a)) + 1
        /\ Adjustment.old_balance e = 0%Q
        /\ Adjustment.new_balance e = b).
Proof.
  unfold set_prev_balance.
  destruct (blank p); cbn [orb]; [left; reflexivity |].
  destruct input as [| | b]; [left; reflexivity | left; reflexivity |].
  unfold select_party. rewrite bind_query.
  destruct (find (fun x => String.eqb (Party.name x) p) (parties (store a)))
    as [row |] eqn:Hrow.
  - right. left. unfold update_party_balance, bind, modify, ret. cbv beta.
    rewrite !calculate_current_party_balance_run. cbn [fst snd store].
    exists b, row. eexists. split; [reflexivity |]. split; [reflexivity |].
    unfold insert_adjustment. cbn [fst snd opening_balance_adjustments].
    split; [reflexivity |]. cbn. auto.
  - right. right. unfold bind, insert_party, ret. cbv beta.
    rewrite !(find_none_existsb _ _ Hrow).
    rewrite !calculate_current_party_balance_run. cbn [fst snd store].
    exists b. eexists. split; [reflexivity |]. split; [reflexivity |].
    unfold insert_adjustment. cbn [fst snd opening_balance_adjustments].
    split; [reflexivity |]. cbn. auto.
Qed.

Lemma has_party_tables (q : string) (d d' : db) :
  map Party.name (parties d') = map Party.name (parties d)
  \/ (exists x, parties d' = parties d ++ [x]) ->
  has_party q d -> has_party q d'.
Proof.
  unfold has_party. intros Hpar Hq.
  rewrite <- (map_id (parties d)) in Hq.
  assert (Hnames : forall l, existsb (fun x => String.eqb (Party.name x) q) l
                             = existsb (fun n => String.eqb n q) (map Party.name l)).
  { induction l as [| x l IH]; [reflexivity |]. cbn. rewrite IH. reflexivity. }
  rewrite map_id in Hq. destruct Hpar as [Hpar | [x Hpar]].
  - rewrite Hnames, Hpar, <- Hnames. exact Hq.
  - rewrite Hpar, existsb_app, Hq. reflexivity.
Qed.

Lemma set_prev_balance_consistent (today now p : string) (input : balance_input)
    (reason : option string) (a : audited) :
  consistent (store a) ->
  consistent (store (snd (set_prev_balance today now p input reason a))).
Proof.
  intros Hc.
  assert (Hgen : forall d', invoices d' = invoices (store a) ->
                            payments d' = payments (store a) ->
                            stock d' = stock (store a) ->
                            seq_invoices (sqlite_sequence d')
                            = seq_invoices (sqlite_sequence (store a)) ->
                            seq_stock (sqlite_sequence d')
                            = seq_stock (sqlite_sequence (store a)) ->
                            (map Party.name (parties d') = map Party.name (parties (store a))
                             \/ exists x, parties d' = parties (store a) ++ [x]) ->
                            consistent d').
  { intros d' Hi Hpay Hst Hsi Hss Hpar.
    destruct Hc as [[W1 W2 W3 W4 W5] [Hbal [R1 R2]]].
    split; [| split; [| split]].
    - constructor; rewrite ?Hi, ?Hst, ?Hsi, ?Hss; assumption.
    - unfold balanced. rewrite Hi. exact Hbal.
    - rewrite Hi. eapply Forall_impl; [| exact R1]. intros i.
      apply has_party_tables, Hpar.
    - rewrite Hpay. eapply Forall_impl; [| exact R2]. intros x.
      apply has_party_tables, Hpar. }
  destruct (set_prev_balance_cases today now p input reason a)
    as [-> | [[b [row [e [_ [-> _]]]]] | [b [e [_ [-> _]]]]]]; [exact Hc | |].
  - apply Hgen; try reflexivity. left. cbn [parties set_parties].
    rewrite map_map. apply map_ext. intros x.
    destruct (Party.id x =? Party.id row); reflexivity.
  - apply Hgen; try reflexivity. right. eexists. reflexivity.
Qed.

Lemma set_prev_balance_trailed (today now p : string) (input : balance_input)
    (reason : option string) (a : audited) :
  trailed a -> trailed (snd (set_prev_balance today now p input reason a)).
Proof.
  intros Ht. destruct Ht as [T1 T2 T3 T4].
  destruct (set_prev_balance_cases today now p input reason a)
    as [-> | [[b [row [e [Hrow [Hst [Hlog [He1 [He2 He3]]]]]]]]
              | [b [e [Hrow [Hst [Hlog [He1 [He2 He3]]]]]]]]].
  - constructor; assumption.
  - pose proof (find_some _ _ Hrow) as [Hin _].
    constructor; rewrite ?Hst, ?Hlog;
      cbn [parties set_parties sqlite_sequence].
    + intros x Hx. apply in_map_iff in Hx. destruct Hx as [y [<- Hy]].
      rewrite logged_snoc, He1, He3.
      destruct (Party.id y =? Party.id row) eqn:Hid.
      * cbn [Party.id Party.initial_opening_balance or_zero].
        rewrite Z.eqb_sym, Hid. reflexivity.
      * rewrite Z.eqb_sym, Hid. apply T1, Hy.
    + apply chain_snoc; [exact T2 |]. rewrite He2, He1. apply T1, Hin.
    + apply Forall_map. eapply Forall_impl; [| exact T3]. intros x Hx.
      destruct (Party.id x =? Party.id row); exact Hx.
    + apply Forall_app. split; [exact T4 |]. constructor; [| constructor].
      rewrite He1. rewrite Forall_forall in T3. apply T3, Hin.
  - assert (Hfresh : logged_balance (seq_parties (sqlite_sequence (store a)) + 1)
                                    (opening_balance_adjustments a) = 0%Q).
    { apply logged_unlisted. eapply Forall_impl; [| exact T4]. cbn. intros x Hx. lia. }
    constructor; rewrite ?Hst, ?Hlog;
      cbn [parties sqlite_sequence seq_parties].
    + intros x Hx. apply in_app_iff in Hx. rewrite logged_snoc, He1, He3.
      destruct Hx as [Hx | [<- | []]].
      * rewrite Forall_forall in T3. specialize (T3 x Hx).
        assert (Hne : (seq_parties (sqlite_sequence (store a)) + 1 =? Party.id x) = false)
          by (apply Z.eqb_neq; lia).
        rewrite Hne. apply T1, Hx.
      * cbn [Party.id Party.initial_opening_balance or_zero].
        rewrite Z.eqb_refl. reflexivity.
    + apply chain_snoc; [exact T2 |]. rewrite He2, He1, Hfresh. reflexivity.
    + apply Forall_app. split.
      * eapply Forall_impl; [| exact T3]. cbn. intros x Hx. lia.
      * constructor; [cbn; lia | constructor].
    + apply Forall_app. split.
      * eapply Forall_impl; [| exact T4]. cbn. intros x Hx. lia.
      * constructor; [rewrite He1; lia | constructor].
Qed.

Lemma ledger_trailed (r : request) (a : audited) :
  well_formed (store a) -> trailed a ->
  trailed (mk_audited (snd (handle r (store a))) (opening_balance_adjustments a)
                      (seq_adjustments a)).
Proof.
  intros Hwf [T1 T2 T3 T4].
  destruct (handle_parties r (store a) Hwf) as [p [[Hpar Hseq] | [Hpar Hseq]]].
  - constructor; cbn [store opening_balance_adjustments]; rewrite ?Hpar, ?Hseq;
      assumption.
  - unfold with_party in Hpar, Hseq.
    destruct (existsb _ (parties (store a))).
    + constructor; cbn [store opening_balance_adjustments]; rewrite ?Hpar, ?Hseq;
        assumption.
    + cbn [parties sqlite_sequence seq_parties] in Hpar, Hseq.
      constructor; cbn [store opening_balance_adjustments]; rewrite ?Hpar, ?Hseq.
      * intros x Hx. apply in_app_iff in Hx. destruct Hx as [Hx | [<- | []]];
          [apply T1, Hx |].
        cbn [Party.id Party.initial_opening_balance or_zero]. symmetry.
        apply logged_unlisted. eapply Forall_impl; [| exact T4]. cbn. intros x Hx. lia.
      * exact T2.
      * apply Forall_app. split.
        -- eapply Forall_impl; [| exact T3]. cbn. intros x Hx. lia.
        -- constructor; [cbn; lia | constructor].
      * eapply Forall_impl; [| exact T4]. cbn. intros x Hx. lia.
Qed.

Lemma audited_serve_trailed (history : list audited_request) :
  consistent (store (audited_serve history empty_audited))
  /\ trailed (audited_serve history empty_audited).
Proof.
  assert (H : forall a, consistent (store a) -> trailed a ->
                        consistent (store (audited_serve history a))
                        /\ trailed (audited_serve history a)).
  { induction history as [| r rest IH]; intros a Hc Ht; [auto |].
    cbn [audited_serve fold_left]. apply IH.
    - destruct r as [r | today now p input reason]; cbn [audited_handle store].
      + apply handle_consistent, Hc.
      + apply set_prev_balance_consistent, Hc.
    - destruct r as [r | today now p input reason]; cbn [audited_handle].
      + apply ledger_trailed; [apply Hc | exact Ht].
      + apply set_prev_balance_trailed, Ht. }
  apply H; [apply empty_db_consistent |].
  constructor; cbn; try constructor; try contradiction.
  intros n e Hn. destruct n; discriminate Hn.
Qed.

(** X21.  The adjustments are a faithful audit trail.  After any history of
    ledger requests, stock requests and opening-balance adjustments, started
    on the empty store, the opening balance stored for every party is the new
    balance of the last adjustment recorded for that party, and 0 when none
    was; and every adjustment records as old balance the new balance of the
    adjustment before it for the same party, and 0 when it is the first. *)
Theorem adjustments_account_for_opening_balances :
  forall history : list audited_request,
    (forall x, In x (parties (store (audited_serve history empty_audited))) ->
       or_zero (Party.initial_opening_balance x)
       = logged_balance (Party.id x)
           (opening_balance_adjustments (audited_serve history empty_audited)))
    /\ (forall n e,
          nth_error (opening_balance_adjustments (audited_serve history empty_audited)) n
          = Some e ->
          Adjustment.old_balance e
          = logged_balance (Adjustment.party_id e)
              (firstn n (opening_balance_adjustments
                           (audited_serve history empty_audited)))).
Proof.
  intros history. destruct (audited_serve_trailed history) as [_ [T1 T2 _ _]].
  split; assumption.
Qed.

(** Two adjustments of a party that an invoice created. *)
Lemma adjustments_account_for_opening_balances_witness :
  Adjustment.old_balance
    (Adjustment.mk 2 1 "2024-03-02" 25 40 "recount" "2024-03-02 09:00:00")
  = logged_balance 1
      (firstn 1 (opening_balance_adjustments
                   (audited_serve
                      [Ledger (CreateInvoice "Acme" "2024-01-01" "30" [item 100]);
                       SetPrevBalance "2024-03-01" "2024-03-01 10:00:00" "Acme"
                                      (Balance 25) None;
                       SetPrevBalance "2024-03-02" "2024-03-02 09:00:00" "Acme"
                                      (Balance 40) (Some "recount"%string)]
                      empty_audited))).
Proof.
  destruct (adjustments_account_for_opening_balances
              [Ledger (CreateInvoice "Acme" "2024-01-01" "30" [item 100]);
               SetPrevBalance "2024-03-01" "2024-03-01 10:00:00" "Acme"
                              (Balance 25) None;
               SetPrevBalance "2024-03-02" "2024-03-02 09:00:00" "Acme"
                              (Balance 40) (Some "recount"%string)])
    as [_ Hchain].
  apply (Hchain 1%nat
           (Adjustment.mk 2 1 "2024-03-02" 25 40 "recount" "2024-03-02 09:00:00")).
  vm_compute. reflexivity.
Defined.
